(** * Anti-abuse engine of the live-voting system

    A shallow embedding of [src/AntiAbuseEngine.h] and
    [src/AntiAbuseEngine.cpp]: the sliding activity window, the co-voting
    graph, bot detection, collusion detection, the credibility aggregator
    and the engine facade, followed by the properties established for them.

    Conventions of the embedding.
    - [std::chrono::system_clock::time_point] is an integer count of clock
      ticks; the model uses [Z] with the nanosecond period of libstdc++.
    - [double] values are exact rationals ([Q]); rounding of binary64 is
      not modelled, and statements that divide are made where the divisor
      is not zero, where IEEE and exact arithmetic would differ in kind.
    - [int] and [size_t] counters are unbounded integers; signed overflow
      is undefined behaviour in the source and is outside the model.
    - [std::unordered_map]/[std::unordered_set] members that the code
      iterates over are association lists whose order stands for the
      container's iteration order (a new key goes last); members that are
      only looked up are [gmap]/[gset].
    - Text produced through [std::stringstream] is kept as structured data
      (the values that would be printed).
    - [std::chrono::system_clock::now()] reads a clock field of the engine
      state, which [advanceClock] sets.

    - Tick arithmetic is exact on [Z]; the source computes it in signed
      64-bit nanoseconds, so statements that depend on the value of a
      cutoff [now - windowDuration] assume it representable
      ([Clock.representable]).
    - The model fixes one iteration order for the hash containers; the
      order of libstdc++ differs and depends on hashing and on the
      insertion history, so the properties are stated independently of
      the order of a listing.
    - The [static] alert counter of [generateThreatAlert], shared by all
      engines of a process, is a field of the one engine modelled.

    Not embedded: the text of the reports [performSecurityScan],
    [getSecurityStatistics] and [getConfiguration]; of
    [performSecurityScan] the state it leaves is. *)

From Stdlib Require Import ZArith QArith Qminmax Lia Lqa Sorted.
From stdpp Require Import gmap strings list fin_maps pretty.

Local Open Scope Z_scope.

(** ** Clock *)

Module Clock.

(** [system_clock::period] of libstdc++: one tick is a nanosecond. *)
Definition ticks_per_second : Z := 1000000000.
Definition ticks_per_millisecond : Z := 1000000.

(** Conversion of a [std::chrono::seconds] count to clock ticks. *)
Definition of_seconds (s : Z) : Z := s * ticks_per_second.

(** [duration_cast<std::chrono::milliseconds>(d).count()]: truncation
    toward zero. *)
Definition to_milliseconds (d : Z) : Z := Z.quot d ticks_per_millisecond.

(** The tick counts that the signed 64-bit [rep] of a [time_point] or of
    a nanosecond duration holds.  Tick arithmetic is modelled on [Z]; it
    is the source's where every result is representable. *)
Definition min_ticks : Z := - 2 ^ 63.
Definition max_ticks : Z := 2 ^ 63 - 1.

Definition representable (ticks : Z) : Prop :=
  min_ticks <= ticks <= max_ticks.

End Clock.

(** ** Floating-point helpers over exact rationals *)

Module Dbl.

Definition ltb (x y : Q) : bool := negb (Qle_bool y x).

(** [std::min(a, b)] is [(b < a) ? b : a]. *)
Definition min (a b : Q) : Q := if ltb b a then b else a.

(** [std::max(a, b)] is [(a < b) ? b : a]. *)
Definition max (a b : Q) : Q := if ltb a b then b else a.

Definition of_Z (z : Z) : Q := inject_Z z.
Definition of_nat (n : nat) : Q := inject_Z (Z.of_nat n).

End Dbl.

(** ** SlidingWindow *)

Module SlidingWindow.

Record t : Type := mk {
  timestamps : list Z;          (* std::deque<time_point>, front first *)
  windowDuration : Z            (* std::chrono::seconds *)
}.

(** [SlidingWindow(int seconds = 60)]. *)
Definition make (seconds : Z) : t :=
  {| timestamps := []; windowDuration := seconds |}.

(** The [while] loop of [cleanup]: pop the front while it is older than
    the cutoff. *)
Fixpoint evict (cutoff : Z) (ts : list Z) : list Z :=
  match ts with
  | [] => []
  | front :: rest => if front <? cutoff then evict cutoff rest else ts
  end.

Definition cleanup (currentTime : Z) (w : t) : t :=
  let cutoff := currentTime - Clock.of_seconds (windowDuration w) in
  {| timestamps := evict cutoff (timestamps w);
     windowDuration := windowDuration w |}.

Definition addEvent (timestamp : Z) (w : t) : t :=
  cleanup timestamp
    {| timestamps := timestamps w ++ [timestamp];
       windowDuration := windowDuration w |}.

Definition getEventCount (w : t) : Z := Z.of_nat (length (timestamps w)).

(** Events per minute. *)
Definition getRate (w : t) : Q :=
  match timestamps w with
  | [] => 0%Q
  | _ =>
      let seconds := Dbl.of_Z (windowDuration w) in
      ((Dbl.of_nat (length (timestamps w)) / seconds) * 60)%Q
  end.

(** Sum of the consecutive gaps, each cast to whole milliseconds. *)
Fixpoint totalGapMs (ts : list Z) : Z :=
  match ts with
  | prev :: (cur :: _) as rest =>
      Clock.to_milliseconds (cur - prev) + totalGapMs rest
  | _ => 0
  end.

Definition getAverageGapMs (w : t) : Q :=
  if (length (timestamps w) <? 2)%nat then 0%Q
  else (Dbl.of_Z (totalGapMs (timestamps w))
        / Dbl.of_nat (length (timestamps w) - 1))%Q.

(** The window after a sequence of [addEvent] calls on a fresh window. *)
Definition feed (seconds : Z) (events : list Z) : t :=
  fold_left (fun w ts => addEvent ts w) events (make seconds).

(** No stored timestamp is strictly older than [now - windowDuration]. *)
Definition fresh (now : Z) (w : t) : Prop :=
  Forall (fun ts => now - Clock.of_seconds (windowDuration w) <= ts)
         (timestamps w).

End SlidingWindow.

(** ** Iterated hash containers *)

(** [std::unordered_set<std::string>] whose elements are iterated over. *)
Module USet.

Definition t : Type := list string.

Definition count (x : string) (s : t) : bool := bool_decide (x ∈ s).

(** [insert]: no effect when the element is present. *)
Definition insert (x : string) (s : t) : t :=
  if count x s then s else s ++ [x].

End USet.

(** [std::unordered_map<std::string, V>] whose entries are iterated over. *)
Module UMap.

Section Defs.
Context {V : Type}.

Definition t : Type := list (string * V).

Fixpoint find (k : string) (m : t) : option V :=
  match m with
  | [] => None
  | (k', v) :: m' => if bool_decide (k = k') then Some v else find k m'
  end.

(** [f(m[k])] applied in place: [operator[]] value-initialises a
    missing entry to [d] before [f] runs on it. *)
Fixpoint modify (k : string) (d : V) (f : V -> V) (m : t) : t :=
  match m with
  | [] => [(k, f d)]
  | (k', v) :: m' =>
      if bool_decide (k = k') then (k', f v) :: m'
      else (k', v) :: modify k d f m'
  end.

Definition keys (m : t) : list string := map fst m.

End Defs.

Arguments t : clear implicits.

End UMap.

(** ** CoVotingGraph *)

Module CoVotingGraph.

Record t : Type := mk {
  (* adjacency[user1][user2] = number of times they voted together *)
  adjacency : UMap.t (UMap.t Z);
  (* vote history per proposal *)
  proposalVoters : UMap.t USet.t
}.

Definition empty : t := {| adjacency := []; proposalVoters := [] |}.

(** [adjacency[a][b]++]. *)
Definition increment (a b : string) (adj : UMap.t (UMap.t Z))
  : UMap.t (UMap.t Z) :=
  UMap.modify a [] (UMap.modify b 0 Z.succ) adj.

(** Body of the [for] loop of [addVote] for one [otherUser]. *)
Definition linkVoter (userId : string) (adj : UMap.t (UMap.t Z))
           (otherUser : string) : UMap.t (UMap.t Z) :=
  if bool_decide (otherUser ≠ userId)
  then increment otherUser userId (increment userId otherUser adj)
  else adj.

Definition addVote (userId proposalId : string) (g : t) : t :=
  let pv := UMap.modify proposalId [] (USet.insert userId)
              (proposalVoters g) in
  let voters := default [] (UMap.find proposalId pv) in
  {| adjacency := fold_left (linkVoter userId) voters (adjacency g);
     proposalVoters := pv |}.

Definition getCoVoteCount (user1 user2 : string) (g : t) : Z :=
  match UMap.find user1 (adjacency g) with
  | None => 0
  | Some row =>
      match UMap.find user2 row with
      | None => 0
      | Some n => n
      end
  end.

Definition getNeighbors (userId : string) (g : t) : list string :=
  match UMap.find userId (adjacency g) with
  | Some row => UMap.keys row
  | None => []
  end.

Definition getEdgeCount (g : t) : Z :=
  Z.quot
    (fold_left (fun count row => count + Z.of_nat (length (snd row)))
               (adjacency g) 0)
    2.

(** The inner [for] loop of the traversal: enqueue each neighbour that
    is not yet visited and reaches the threshold. *)
Definition visitNeighbors (minCoVotes : Z) (row : UMap.t Z)
           (st : list string * gset string) : list string * gset string :=
  fold_left
    (fun '(queue, visited) '(neighbor, coVotes) =>
       if bool_decide (neighbor ∉ visited) && (minCoVotes <=? coVotes)
       then (queue ++ [neighbor], {[neighbor]} ∪ visited)
       else (queue, visited))
    row st.

(** The [while (!queue.empty())] loop; [None] when the fuel runs out. *)
Fixpoint bfs (fuel : nat) (adj : UMap.t (UMap.t Z)) (minCoVotes : Z)
         (queue : list string) (visited : gset string)
         (community : list string)
  : option (list string * gset string) :=
  match fuel with
  | O => None
  | S fuel' =>
      match queue with
      | [] => Some (community, visited)
      | current :: rest =>
          let '(queue', visited') :=
            match UMap.find current adj with
            | Some row => visitNeighbors minCoVotes row (rest, visited)
            | None => (rest, visited)
            end in
          bfs fuel' adj minCoVotes queue' visited' (community ++ [current])
      end
  end.

(** Every user name that occurs in the adjacency structure. *)
Definition nodes (adj : UMap.t (UMap.t Z)) : list string :=
  flat_map (fun '(user, row) => user :: UMap.keys row) adj.

(** One more than the number of names: enough for any traversal. *)
Definition bfsFuel (adj : UMap.t (UMap.t Z)) : nat := S (length (nodes adj)).

(** Body of the outer [for] loop over [adjacency]. *)
Definition exploreFrom (adj : UMap.t (UMap.t Z)) (minCoVotes : Z)
           (st : option (list (list string) * gset string))
           (entry : string * UMap.t Z)
  : option (list (list string) * gset string) :=
  '(communities, visited) ← st;
  let user := fst entry in
  if bool_decide (user ∈ visited) then Some (communities, visited)
  else
    '(community, visited') ←
      bfs (bfsFuel adj) adj minCoVotes [user] ({[user]} ∪ visited) [];
    Some (if (2 <=? length community)%nat
          then communities ++ [community] else communities,
          visited').

Definition detectCommunitiesOpt (minCoVotes : Z) (g : t)
  : option (list (list string)) :=
  fst <$> fold_left (exploreFrom (adjacency g) minCoVotes)
                    (adjacency g) (Some ([], ∅)).

(** [detectCommunities]; the traversal never runs out of fuel (see
    [detectCommunities_total]), so the default is not reached. *)
Definition detectCommunities (minCoVotes : Z) (g : t)
  : list (list string) :=
  default [] (detectCommunitiesOpt minCoVotes g).

Definition clear (g : t) : t := empty.

(** The graph after a sequence of [addVote (user, proposal)] calls. *)
Definition build (votes : list (string * string)) : t :=
  fold_left (fun g '(u, p) => addVote u p g) votes empty.

End CoVotingGraph.


(** ** Result structures *)

(** What the [std::stringstream] of a reason or a description prints. *)
Inductive Fragment : Type :=
  | HighVelocity (votesPerMinute : Q)
  | LowGap (gapMs : Q)
  | SingleDevice
  | PartOfGroup
  | GroupOf (size : nat) (coVotes : Z) (density : Q).

Definition Text : Type := list Fragment.

Module VoteEvent.
Record t : Type := mk {
  voteId : string;
  userId : string;
  proposalId : string;
  timestamp : Z;
  ipHash : string;          (* hashed IP address, empty when absent *)
  deviceHash : string       (* hashed device fingerprint, empty when absent *)
}.
End VoteEvent.

Module BotDetectionResult.
Record t : Type := mk {
  userId : string;
  botLikelihood : Q;        (* 0.0 to 1.0 *)
  votingVelocity : Q;       (* votes per minute *)
  avgInterVoteGapMs : Q;    (* average milliseconds between votes *)
  deviceDiversity : Z;      (* number of unique devices *)
  ipDiversity : Z;          (* number of unique IPs *)
  isSuspicious : bool;      (* exceeds thresholds *)
  reason : Text
}.

(** The default constructor. *)
Definition init : t :=
  {| userId := ""; botLikelihood := 0; votingVelocity := 0;
     avgInterVoteGapMs := 0; deviceDiversity := 0; ipDiversity := 0;
     isSuspicious := false; reason := [] |}.
End BotDetectionResult.

Module CollusionDetectionResult.
Record t : Type := mk {
  userGroup : list string;
  collusionScore : Q;       (* 0.0 to 1.0 *)
  coVoteCount : Z;
  coVoteRate : Q;
  description : Text;
  isSuspicious : bool
}.
End CollusionDetectionResult.

Module ThreatAlert.
Record t : Type := mk {
  alertId : string;
  alertType : string;       (* "bot_detected", "collusion_detected" *)
  severity : Q;
  involvedUsers : list string;
  description : Text;
  timestamp : Z;
  resolved : bool
}.

Definition resolve (a : t) : t :=
  {| alertId := alertId a; alertType := alertType a; severity := severity a;
     involvedUsers := involvedUsers a; description := description a;
     timestamp := timestamp a; resolved := true |}.
End ThreatAlert.

Module UserCredibilityScore.
Record t : Type := mk {
  userId : string;
  trustScore : Q;               (* 0.0 to 1.0, overall credibility *)
  accountAgeScore : Q;
  deviceDiversityScore : Q;
  majorityAgreementScore : Q;
  verificationScore : Q;
  botLikelihood : Q;            (* from bot detection (inverse) *)
  collusionScore : Q;           (* from collusion detection (inverse) *)
  consistencyScore : Q;
  reportScore : Q
}.
End UserCredibilityScore.

(** [std::unordered_map] members that are looked up but never iterated
    in the modelled code. *)
Module HMap.

Section Defs.
Context {V : Type}.

(** [m[k]] read: the stored value, or the value-initialised [d]. *)
Definition at_ (k : string) (d : V) (m : gmap string V) : V :=
  default d (m !! k).

(** The side effect of [m[k]]: a missing key is inserted with [d]. *)
Definition touch (k : string) (d : V) (m : gmap string V) : gmap string V :=
  match m !! k with
  | Some _ => m
  | None => <[k := d]> m
  end.

(** [f(m[k])] applied in place. *)
Definition modify (k : string) (d : V) (f : V -> V) (m : gmap string V)
  : gmap string V :=
  <[k := f (at_ k d m)]> m.

End Defs.

End HMap.

(** ** AntiAbuseEngine *)

Module AntiAbuseEngine.

Record t : Type := mk {
  (* vote event storage *)
  userVoteHistory : gmap string (list VoteEvent.t);
  userVelocityWindows : gmap string SlidingWindow.t;
  (* IP and device tracking *)
  userIPs : gmap string (gset string);
  userDevices : gmap string (gset string);
  ipToUsers : gmap string (list string);
  deviceToUsers : gmap string (list string);
  (* co-voting graph for collusion detection *)
  coVotingGraph : CoVotingGraph.t;
  (* caches *)
  botDetectionCache : gmap string BotDetectionResult.t;
  collusionDetectionCache : list CollusionDetectionResult.t;
  userCredibilityScores : gmap string UserCredibilityScore.t;
  (* threat alerts *)
  threatAlerts : list ThreatAlert.t;
  suspiciousUsers : gmap string bool;
  (* configuration thresholds *)
  velocityThreshold : Q;
  deltaThresholdMs : Q;
  minCoVotesForCollusion : Z;
  collusionThreshold : Q;
  botLikelihoodThreshold : Q;
  velocityWindowSeconds : Z;
  (* the function-local [static int alertCounter] of generateThreatAlert *)
  alertCounter : Z;
  (* the reading [std::chrono::system_clock::now()] returns; an input *)
  systemClock : Z
}.

(** Field updates. *)
Definition set_userVoteHistory (x : gmap string (list VoteEvent.t)) (e : t) : t :=
  {| userVoteHistory := x; userVelocityWindows := userVelocityWindows e;
     userIPs := userIPs e; userDevices := userDevices e;
     ipToUsers := ipToUsers e; deviceToUsers := deviceToUsers e;
     coVotingGraph := coVotingGraph e;
     botDetectionCache := botDetectionCache e;
     collusionDetectionCache := collusionDetectionCache e;
     userCredibilityScores := userCredibilityScores e;
     threatAlerts := threatAlerts e; suspiciousUsers := suspiciousUsers e;
     velocityThreshold := velocityThreshold e;
     deltaThresholdMs := deltaThresholdMs e;
     minCoVotesForCollusion := minCoVotesForCollusion e;
     collusionThreshold := collusionThreshold e;
     botLikelihoodThreshold := botLikelihoodThreshold e;
     velocityWindowSeconds := velocityWindowSeconds e;
     alertCounter := alertCounter e; systemClock := systemClock e |}.
Definition set_userVelocityWindows (x : gmap string SlidingWindow.t) (e : t) : t :=
  {| userVoteHistory := userVoteHistory e; userVelocityWindows := x;
     userIPs := userIPs e; userDevices := userDevices e;
     ipToUsers := ipToUsers e; deviceToUsers := deviceToUsers e;
     coVotingGraph := coVotingGraph e;
     botDetectionCache := botDetectionCache e;
     collusionDetectionCache := collusionDetectionCache e;
     userCredibilityScores := userCredibilityScores e;
     threatAlerts := threatAlerts e; suspiciousUsers := suspiciousUsers e;
     velocityThreshold := velocityThreshold e;
     deltaThresholdMs := deltaThresholdMs e;
     minCoVotesForCollusion := minCoVotesForCollusion e;
     collusionThreshold := collusionThreshold e;
     botLikelihoodThreshold := botLikelihoodThreshold e;
     velocityWindowSeconds := velocityWindowSeconds e;
     alertCounter := alertCounter e; systemClock := systemClock e |}.
Definition set_userIPs (x : gmap string (gset string)) (e : t) : t :=
  {| userVoteHistory := userVoteHistory e;
     userVelocityWindows := userVelocityWindows e; userIPs := x;
     userDevices := userDevices e; ipToUsers := ipToUsers e;
     deviceToUsers := deviceToUsers e; coVotingGraph := coVotingGraph e;
     botDetectionCache := botDetectionCache e;
     collusionDetectionCache := collusionDetectionCache e;
     userCredibilityScores := userCredibilityScores e;
     threatAlerts := threatAlerts e; suspiciousUsers := suspiciousUsers e;
     velocityThreshold := velocityThreshold e;
     deltaThresholdMs := deltaThresholdMs e;
     minCoVotesForCollusion := minCoVotesForCollusion e;
     collusionThreshold := collusionThreshold e;
     botLikelihoodThreshold := botLikelihoodThreshold e;
     velocityWindowSeconds := velocityWindowSeconds e;
     alertCounter := alertCounter e; systemClock := systemClock e |}.
Definition set_userDevices (x : gmap string (gset string)) (e : t) : t :=
  {| userVoteHistory := userVoteHistory e;
     userVelocityWindows := userVelocityWindows e; userIPs := userIPs e;
     userDevices := x; ipToUsers := ipToUsers e;
     deviceToUsers := deviceToUsers e; coVotingGraph := coVotingGraph e;
     botDetectionCache := botDetectionCache e;
     collusionDetectionCache := collusionDetectionCache e;
     userCredibilityScores := userCredibilityScores e;
     threatAlerts := threatAlerts e; suspiciousUsers := suspiciousUsers e;
     velocityThreshold := velocityThreshold e;
     deltaThresholdMs := deltaThresholdMs e;
     minCoVotesForCollusion := minCoVotesForCollusion e;
     collusionThreshold := collusionThreshold e;
     botLikelihoodThreshold := botLikelihoodThreshold e;
     velocityWindowSeconds := velocityWindowSeconds e;
     alertCounter := alertCounter e; systemClock := systemClock e |}.
Definition set_ipToUsers (x : gmap string (list string)) (e : t) : t :=
  {| userVoteHistory := userVoteHistory e;
     userVelocityWindows := userVelocityWindows e; userIPs := userIPs e;
     userDevices := userDevices e; ipToUsers := x;
     deviceToUsers := deviceToUsers e; coVotingGraph := coVotingGraph e;
     botDetectionCache := botDetectionCache e;
     collusionDetectionCache := collusionDetectionCache e;
     userCredibilityScores := userCredibilityScores e;
     threatAlerts := threatAlerts e; suspiciousUsers := suspiciousUsers e;
     velocityThreshold := velocityThreshold e;
     deltaThresholdMs := deltaThresholdMs e;
     minCoVotesForCollusion := minCoVotesForCollusion e;
     collusionThreshold := collusionThreshold e;
     botLikelihoodThreshold := botLikelihoodThreshold e;
     velocityWindowSeconds := velocityWindowSeconds e;
     alertCounter := alertCounter e; systemClock := systemClock e |}.
Definition set_deviceToUsers (x : gmap string (list string)) (e : t) : t :=
  {| userVoteHistory := userVoteHistory e;
     userVelocityWindows := userVelocityWindows e; userIPs := userIPs e;
     userDevices := userDevices e; ipToUsers := ipToUsers e;
     deviceToUsers := x; coVotingGraph := coVotingGraph e;
     botDetectionCache := botDetectionCache e;
     collusionDetectionCache := collusionDetectionCache e;
     userCredibilityScores := userCredibilityScores e;
     threatAlerts := threatAlerts e; suspiciousUsers := suspiciousUsers e;
     velocityThreshold := velocityThreshold e;
     deltaThresholdMs := deltaThresholdMs e;
     minCoVotesForCollusion := minCoVotesForCollusion e;
     collusionThreshold := collusionThreshold e;
     botLikelihoodThreshold := botLikelihoodThreshold e;
     velocityWindowSeconds := velocityWindowSeconds e;
     alertCounter := alertCounter e; systemClock := systemClock e |}.
Definition set_coVotingGraph (x : CoVotingGraph.t) (e : t) : t :=
  {| userVoteHistory := userVoteHistory e;
     userVelocityWindows := userVelocityWindows e; userIPs := userIPs e;
     userDevices := userDevices e; ipToUsers := ipToUsers e;
     deviceToUsers := deviceToUsers e; coVotingGraph := x;
     botDetectionCache := botDetectionCache e;
     collusionDetectionCache := collusionDetectionCache e;
     userCredibilityScores := userCredibilityScores e;
     threatAlerts := threatAlerts e; suspiciousUsers := suspiciousUsers e;
     velocityThreshold := velocityThreshold e;
     deltaThresholdMs := deltaThresholdMs e;
     minCoVotesForCollusion := minCoVotesForCollusion e;
     collusionThreshold := collusionThreshold e;
     botLikelihoodThreshold := botLikelihoodThreshold e;
     velocityWindowSeconds := velocityWindowSeconds e;
     alertCounter := alertCounter e; systemClock := systemClock e |}.
Definition set_botDetectionCache (x : gmap string BotDetectionResult.t) (e : t) : t :=
  {| userVoteHistory := userVoteHistory e;
     userVelocityWindows := userVelocityWindows e; userIPs := userIPs e;
     userDevices := userDevices e; ipToUsers := ipToUsers e;
     deviceToUsers := deviceToUsers e; coVotingGraph := coVotingGraph e;
     botDetectionCache := x;
     collusionDetectionCache := collusionDetectionCache e;
     userCredibilityScores := userCredibilityScores e;
     threatAlerts := threatAlerts e; suspiciousUsers := suspiciousUsers e;
     velocityThreshold := velocityThreshold e;
     deltaThresholdMs := deltaThresholdMs e;
     minCoVotesForCollusion := minCoVotesForCollusion e;
     collusionThreshold := collusionThreshold e;
     botLikelihoodThreshold := botLikelihoodThreshold e;
     velocityWindowSeconds := velocityWindowSeconds e;
     alertCounter := alertCounter e; systemClock := systemClock e |}.
Definition set_collusionDetectionCache (x : list CollusionDetectionResult.t) (e : t) : t :=
  {| userVoteHistory := userVoteHistory e;
     userVelocityWindows := userVelocityWindows e; userIPs := userIPs e;
     userDevices := userDevices e; ipToUsers := ipToUsers e;
     deviceToUsers := deviceToUsers e; coVotingGraph := coVotingGraph e;
     botDetectionCache := botDetectionCache e;
     collusionDetectionCache := x;
     userCredibilityScores := userCredibilityScores e;
     threatAlerts := threatAlerts e; suspiciousUsers := suspiciousUsers e;
     velocityThreshold := velocityThreshold e;
     deltaThresholdMs := deltaThresholdMs e;
     minCoVotesForCollusion := minCoVotesForCollusion e;
     collusionThreshold := collusionThreshold e;
     botLikelihoodThreshold := botLikelihoodThreshold e;
     velocityWindowSeconds := velocityWindowSeconds e;
     alertCounter := alertCounter e; systemClock := systemClock e |}.
Definition set_userCredibilityScores (x : gmap string UserCredibilityScore.t) (e : t) : t :=
  {| userVoteHistory := userVoteHistory e;
     userVelocityWindows := userVelocityWindows e; userIPs := userIPs e;
     userDevices := userDevices e; ipToUsers := ipToUsers e;
     deviceToUsers := deviceToUsers e; coVotingGraph := coVotingGraph e;
     botDetectionCache := botDetectionCache e;
     collusionDetectionCache := collusionDetectionCache e;
     userCredibilityScores := x; threatAlerts := threatAlerts e;
     suspiciousUsers := suspiciousUsers e;
     velocityThreshold := velocityThreshold e;
     deltaThresholdMs := deltaThresholdMs e;
     minCoVotesForCollusion := minCoVotesForCollusion e;
     collusionThreshold := collusionThreshold e;
     botLikelihoodThreshold := botLikelihoodThreshold e;
     velocityWindowSeconds := velocityWindowSeconds e;
     alertCounter := alertCounter e; systemClock := systemClock e |}.
Definition set_threatAlerts (x : list ThreatAlert.t) (e : t) : t :=
  {| userVoteHistory := userVoteHistory e;
     userVelocityWindows := userVelocityWindows e; userIPs := userIPs e;
     userDevices := userDevices e; ipToUsers := ipToUsers e;
     deviceToUsers := deviceToUsers e; coVotingGraph := coVotingGraph e;
     botDetectionCache := botDetectionCache e;
     collusionDetectionCache := collusionDetectionCache e;
     userCredibilityScores := userCredibilityScores e; threatAlerts := x;
     suspiciousUsers := suspiciousUsers e;
     velocityThreshold := velocityThreshold e;
     deltaThresholdMs := deltaThresholdMs e;
     minCoVotesForCollusion := minCoVotesForCollusion e;
     collusionThreshold := collusionThreshold e;
     botLikelihoodThreshold := botLikelihoodThreshold e;
     velocityWindowSeconds := velocityWindowSeconds e;
     alertCounter := alertCounter e; systemClock := systemClock e |}.
Definition set_suspiciousUsers (x : gmap string bool) (e : t) : t :=
  {| userVoteHistory := userVoteHistory e;
     userVelocityWindows := userVelocityWindows e; userIPs := userIPs e;
     userDevices := userDevices e; ipToUsers := ipToUsers e;
     deviceToUsers := deviceToUsers e; coVotingGraph := coVotingGraph e;
     botDetectionCache := botDetectionCache e;
     collusionDetectionCache := collusionDetectionCache e;
     userCredibilityScores := userCredibilityScores e;
     threatAlerts := threatAlerts e; suspiciousUsers := x;
     velocityThreshold := velocityThreshold e;
     deltaThresholdMs := deltaThresholdMs e;
     minCoVotesForCollusion := minCoVotesForCollusion e;
     collusionThreshold := collusionThreshold e;
     botLikelihoodThreshold := botLikelihoodThreshold e;
     velocityWindowSeconds := velocityWindowSeconds e;
     alertCounter := alertCounter e; systemClock := systemClock e |}.
Definition set_alertCounter (x : Z) (e : t) : t :=
  {| userVoteHistory := userVoteHistory e;
     userVelocityWindows := userVelocityWindows e; userIPs := userIPs e;
     userDevices := userDevices e; ipToUsers := ipToUsers e;
     deviceToUsers := deviceToUsers e; coVotingGraph := coVotingGraph e;
     botDetectionCache := botDetectionCache e;
     collusionDetectionCache := collusionDetectionCache e;
     userCredibilityScores := userCredibilityScores e;
     threatAlerts := threatAlerts e; suspiciousUsers := suspiciousUsers e;
     velocityThreshold := velocityThreshold e;
     deltaThresholdMs := deltaThresholdMs e;
     minCoVotesForCollusion := minCoVotesForCollusion e;
     collusionThreshold := collusionThreshold e;
     botLikelihoodThreshold := botLikelihoodThreshold e;
     velocityWindowSeconds := velocityWindowSeconds e; alertCounter := x;
     systemClock := systemClock e |}.
Definition set_systemClock (x : Z) (e : t) : t :=
  {| userVoteHistory := userVoteHistory e;
     userVelocityWindows := userVelocityWindows e; userIPs := userIPs e;
     userDevices := userDevices e; ipToUsers := ipToUsers e;
     deviceToUsers := deviceToUsers e; coVotingGraph := coVotingGraph e;
     botDetectionCache := botDetectionCache e;
     collusionDetectionCache := collusionDetectionCache e;
     userCredibilityScores := userCredibilityScores e;
     threatAlerts := threatAlerts e; suspiciousUsers := suspiciousUsers e;
     velocityThreshold := velocityThreshold e;
     deltaThresholdMs := deltaThresholdMs e;
     minCoVotesForCollusion := minCoVotesForCollusion e;
     collusionThreshold := collusionThreshold e;
     botLikelihoodThreshold := botLikelihoodThreshold e;
     velocityWindowSeconds := velocityWindowSeconds e; alertCounter := alertCounter e; systemClock := x |}.

(** [AntiAbuseEngine(velThreshold = 30.0, deltaThreshold = 200.0,
    windowSeconds = 60)]. *)
Definition make (velThreshold deltaThreshold : Q) (windowSeconds : Z) : t :=
  {| userVoteHistory := ∅; userVelocityWindows := ∅;
     userIPs := ∅; userDevices := ∅; ipToUsers := ∅; deviceToUsers := ∅;
     coVotingGraph := CoVotingGraph.empty;
     botDetectionCache := ∅; collusionDetectionCache := [];
     userCredibilityScores := ∅;
     threatAlerts := []; suspiciousUsers := ∅;
     velocityThreshold := velThreshold;
     deltaThresholdMs := deltaThreshold;
     minCoVotesForCollusion := 5;
     collusionThreshold := 0.7;
     botLikelihoodThreshold := 0.7;
     velocityWindowSeconds := windowSeconds;
     alertCounter := 0; systemClock := 0 |}.

Definition defaultEngine : t := make 30 200 60.

(** The passage of time: [std::chrono::system_clock::now()] reads [now]
    from here on. *)
Definition advanceClock (now : Z) (e : t) : t := set_systemClock now e.

Definition markUserSuspicious (userId : string) (reason : Text) (e : t) : t :=
  set_suspiciousUsers (<[userId := true]> (suspiciousUsers e)) e.

Definition isUserSuspicious (userId : string) (e : t) : bool :=
  match suspiciousUsers e !! userId with
  | Some b => b
  | None => false
  end.

Definition generateThreatAlert (alertType : string) (severity : Q)
           (users : list string) (description : Text) (e : t) : t :=
  let counter := alertCounter e + 1 in
  let alert :=
    {| ThreatAlert.alertId := "ALERT_" +:+ pretty counter;
       ThreatAlert.alertType := alertType;
       ThreatAlert.severity := severity;
       ThreatAlert.involvedUsers := users;
       ThreatAlert.description := description;
       ThreatAlert.timestamp := systemClock e;
       ThreatAlert.resolved := false |} in
  set_threatAlerts (threatAlerts e ++ [alert]) (set_alertCounter counter e).

Definition getThreatAlerts (unresolvedOnly : bool) (e : t)
  : list ThreatAlert.t :=
  if unresolvedOnly
  then filter (fun a => ThreatAlert.resolved a = false) (threatAlerts e)
  else threatAlerts e.

(** The loop of [resolveThreatAlert]: the first alert with the identifier
    is resolved, then the loop breaks. *)
Fixpoint resolveFirst (alertId : string) (alerts : list ThreatAlert.t)
  : list ThreatAlert.t :=
  match alerts with
  | [] => []
  | a :: rest =>
      if bool_decide (ThreatAlert.alertId a = alertId)
      then ThreatAlert.resolve a :: rest
      else a :: resolveFirst alertId rest
  end.

Definition resolveThreatAlert (alertId : string) (e : t) : t :=
  set_threatAlerts (resolveFirst alertId (threatAlerts e)) e.

(** *** Bot detection *)

Definition calculateVotingVelocity (userId : string) (e : t) : Q :=
  match userVelocityWindows e !! userId with
  | Some w => SlidingWindow.getRate w
  | None => 0%Q
  end.

Definition calculateAvgInterVoteGap (userId : string) (e : t) : Q :=
  match userVelocityWindows e !! userId with
  | Some w => SlidingWindow.getAverageGapMs w
  | None => 0%Q
  end.

Definition detectBotBehavior (userId : string) (e : t) : bool :=
  let velocity := calculateVotingVelocity userId e in
  let avgGap := calculateAvgInterVoteGap userId e in
  Dbl.ltb (velocityThreshold e) velocity
  || (Dbl.ltb 0 avgGap && Dbl.ltb avgGap (deltaThresholdMs e)).

(** The [BotDetectionResult] that [updateBotDetection] fills in. *)
Definition botDetectionOf (userId : string) (e : t) : BotDetectionResult.t :=
  let votingVelocity := calculateVotingVelocity userId e in
  let avgInterVoteGapMs := calculateAvgInterVoteGap userId e in
  let deviceDiversity := Z.of_nat (size (HMap.at_ userId ∅ (userDevices e))) in
  let ipDiversity := Z.of_nat (size (HMap.at_ userId ∅ (userIPs e))) in
  let isSuspicious := detectBotBehavior userId e in
  let velocityScore :=
    Dbl.min 1 (votingVelocity / (velocityThreshold e * 2))%Q in
  let gapScore :=
    if Dbl.ltb 0 avgInterVoteGapMs
       && Dbl.ltb avgInterVoteGapMs (deltaThresholdMs e)
    then (1 - avgInterVoteGapMs / deltaThresholdMs e)%Q else 0%Q in
  let deviceScore := if deviceDiversity =? 1 then 0.3%Q else 0%Q in
  let ipScore := if ipDiversity =? 1 then 0.2%Q else 0%Q in
  let botLikelihood :=
    Dbl.min 1 (0.4 * velocityScore + 0.4 * gapScore
               + deviceScore + ipScore)%Q in
  let reason :=
    (if Dbl.ltb (velocityThreshold e) votingVelocity
     then [HighVelocity votingVelocity] else [])
    ++ (if Dbl.ltb 0 avgInterVoteGapMs
           && Dbl.ltb avgInterVoteGapMs (deltaThresholdMs e)
        then [LowGap avgInterVoteGapMs] else [])
    ++ (if (deviceDiversity =? 1)
           && (10 <? length (HMap.at_ userId [] (userVoteHistory e)))%nat
        then [SingleDevice] else []) in
  {| BotDetectionResult.userId := userId;
     BotDetectionResult.botLikelihood := botLikelihood;
     BotDetectionResult.votingVelocity := votingVelocity;
     BotDetectionResult.avgInterVoteGapMs := avgInterVoteGapMs;
     BotDetectionResult.deviceDiversity := deviceDiversity;
     BotDetectionResult.ipDiversity := ipDiversity;
     BotDetectionResult.isSuspicious := isSuspicious;
     BotDetectionResult.reason := reason |}.

Definition updateBotDetection (userId : string) (e : t) : t :=
  let result := botDetectionOf userId e in
  (* userDevices[userId] and userIPs[userId] create missing entries *)
  let e := set_userDevices (HMap.touch userId ∅ (userDevices e)) e in
  let e := set_userIPs (HMap.touch userId ∅ (userIPs e)) e in
  (* userVoteHistory[userId] is evaluated only behind deviceDiversity == 1 *)
  let e :=
    if BotDetectionResult.deviceDiversity result =? 1
    then set_userVoteHistory (HMap.touch userId [] (userVoteHistory e)) e
    else e in
  let e :=
    set_botDetectionCache (<[userId := result]> (botDetectionCache e)) e in
  if BotDetectionResult.isSuspicious result
     && Dbl.ltb (botLikelihoodThreshold e)
                (BotDetectionResult.botLikelihood result)
  then
    markUserSuspicious userId (BotDetectionResult.reason result)
      (generateThreatAlert "bot_detected"
         (BotDetectionResult.botLikelihood result) [userId]
         (BotDetectionResult.reason result) e)
  else e.

Definition detectBot (userId : string) (e : t) : BotDetectionResult.t * t :=
  match botDetectionCache e !! userId with
  | Some cached => (cached, e)
  | None =>
      let e := updateBotDetection userId e in
      (HMap.at_ userId BotDetectionResult.init (botDetectionCache e), e)
  end.

(** *** Collusion detection *)

(** The inner [for j] loop of the metrics computation. *)
Definition pairRow (g : CoVotingGraph.t) (ci : string)
           (others : list string) (acc : Z * Z) : Z * Z :=
  fold_left
    (fun '(totalCoVotes, edgeCount) cj =>
       let coVotes := CoVotingGraph.getCoVoteCount ci cj g in
       if 0 <? coVotes then (totalCoVotes + coVotes, edgeCount + 1)
       else (totalCoVotes, edgeCount))
    others acc.

(** The outer [for i] loop: every pair [i < j] of the community. *)
Fixpoint pairMetrics (g : CoVotingGraph.t) (community : list string)
         (acc : Z * Z) : Z * Z :=
  match community with
  | [] => acc
  | ci :: rest => pairMetrics g rest (pairRow g ci rest acc)
  end.

(** The [CollusionDetectionResult] computed for one community, from the
    graph and the [collusionThreshold] of the engine. *)
Definition collusionOf (g : CoVotingGraph.t) (threshold : Q)
           (community : list string) : CollusionDetectionResult.t :=
  let '(totalCoVotes, edgeCount) := pairMetrics g community (0, 0) in
  let size := Z.of_nat (length community) in
  let maxPossibleEdges := Z.quot (size * (size - 1)) 2 in
  let density :=
    if 0 <? maxPossibleEdges
    then (Dbl.of_Z edgeCount / Dbl.of_Z maxPossibleEdges)%Q else 0%Q in
  let avgCoVotes :=
    if 0 <? edgeCount
    then (Dbl.of_Z totalCoVotes / Dbl.of_Z edgeCount)%Q else 0%Q in
  let collusionScore :=
    Dbl.min 1 (0.5 * density + 0.5 * (avgCoVotes / 20))%Q in
  {| CollusionDetectionResult.userGroup := community;
     CollusionDetectionResult.collusionScore := collusionScore;
     CollusionDetectionResult.coVoteCount := totalCoVotes;
     CollusionDetectionResult.coVoteRate := density;
     CollusionDetectionResult.description :=
       [GroupOf (length community) totalCoVotes density];
     CollusionDetectionResult.isSuspicious :=
       Dbl.ltb threshold collusionScore |}.

(** Body of the loop over the detected communities. *)
Definition recordCommunity (e : t) (community : list string) : t :=
  if (length community <? 2)%nat then e
  else
    let result :=
      collusionOf (coVotingGraph e) (collusionThreshold e) community in
    let e :=
      set_collusionDetectionCache (collusionDetectionCache e ++ [result]) e in
    if CollusionDetectionResult.isSuspicious result
    then
      fold_left (fun e userId => markUserSuspicious userId [PartOfGroup] e)
        community
        (generateThreatAlert "collusion_detected"
           (CollusionDetectionResult.collusionScore result) community
           (CollusionDetectionResult.description result) e)
    else e.

Definition updateCollusionDetection (e : t) : t :=
  let e := set_collusionDetectionCache [] e in
  let communities :=
    CoVotingGraph.detectCommunities (minCoVotesForCollusion e)
      (coVotingGraph e) in
  fold_left recordCommunity communities e.

Definition detectCollusion (e : t) : list CollusionDetectionResult.t * t :=
  let e := updateCollusionDetection e in
  (collusionDetectionCache e, e).

(** *** Credibility *)

Definition calculateAccountAgeScore (userId : string) (e : t) : Q * t :=
  let voteCount := length (HMap.at_ userId [] (userVoteHistory e)) in
  (Dbl.min 1 (Dbl.of_nat voteCount / 50)%Q,
   set_userVoteHistory (HMap.touch userId [] (userVoteHistory e)) e).

Definition calculateMajorityAgreementScore (userId : string) (e : t) : Q :=
  0.5%Q.

(** The two nested loops over the collusion cache: the highest score of a
    group that lists the user. *)
Definition collusionScoreFor (userId : string)
           (cache : list CollusionDetectionResult.t) : Q :=
  fold_left
    (fun score collusionResult =>
       fold_left
         (fun score user =>
            if bool_decide (user = userId)
            then Dbl.max score
                   (CollusionDetectionResult.collusionScore collusionResult)
            else score)
         (CollusionDetectionResult.userGroup collusionResult) score)
    cache 0%Q.

Definition deviceDiversityScoreOf (deviceCount : Z) : Q :=
  if deviceCount =? 0 then 0.5%Q
  else if deviceCount =? 1 then 0.8%Q
  else if deviceCount =? 2 then 0.6%Q
  else 0.3%Q.

Definition calculateUserCredibility (userId : string) (e : t)
  : UserCredibilityScore.t * t :=
  let '(botResult, e) := detectBot userId e in
  let botLikelihood := BotDetectionResult.botLikelihood botResult in
  let '(accountAgeScore, e) := calculateAccountAgeScore userId e in
  let deviceCount := Z.of_nat (size (HMap.at_ userId ∅ (userDevices e))) in
  let e := set_userDevices (HMap.touch userId ∅ (userDevices e)) e in
  let deviceDiversityScore := deviceDiversityScoreOf deviceCount in
  let majorityAgreementScore := calculateMajorityAgreementScore userId e in
  let verificationScore := 0.5%Q in
  let collusionScore :=
    collusionScoreFor userId (collusionDetectionCache e) in
  let consistencyScore := 0.5%Q in
  let reportScore := 1%Q in
  let trustScore :=
    (0.20 * accountAgeScore +
     0.15 * deviceDiversityScore +
     0.15 * majorityAgreementScore +
     0.10 * verificationScore +
     0.15 * (1 - botLikelihood) +
     0.15 * (1 - collusionScore) +
     0.05 * consistencyScore +
     0.05 * reportScore)%Q in
  let score :=
    {| UserCredibilityScore.userId := userId;
       UserCredibilityScore.trustScore := trustScore;
       UserCredibilityScore.accountAgeScore := accountAgeScore;
       UserCredibilityScore.deviceDiversityScore := deviceDiversityScore;
       UserCredibilityScore.majorityAgreementScore := majorityAgreementScore;
       UserCredibilityScore.verificationScore := verificationScore;
       UserCredibilityScore.botLikelihood := botLikelihood;
       UserCredibilityScore.collusionScore := collusionScore;
       UserCredibilityScore.consistencyScore := consistencyScore;
       UserCredibilityScore.reportScore := reportScore |} in
  (score,
   set_userCredibilityScores (<[userId := score]> (userCredibilityScores e)) e).

(** The loop of [calculateAllCredibilityScores] over [userVoteHistory];
    the users are taken in the order [map_to_list] enumerates them. *)
Definition calculateAllCredibilityScores (e : t) : t :=
  let e := updateCollusionDetection e in
  fold_left (fun e userId => snd (calculateUserCredibility userId e))
    (map fst (map_to_list (userVoteHistory e))) e.

Definition getUserTrustScore (userId : string) (e : t) : Q * t :=
  match userCredibilityScores e !! userId with
  | Some cached => (UserCredibilityScore.trustScore cached, e)
  | None =>
      let '(score, e) := calculateUserCredibility userId e in
      (UserCredibilityScore.trustScore score, e)
  end.

(** *** Event ingestion *)

Definition recordVoteEvent (userId proposalId : string) (timestamp : Z)
           (ipHash deviceHash : string) (e : t) : t :=
  (* create the vote event and add it to the user's history *)
  let history := HMap.at_ userId [] (userVoteHistory e) in
  let event :=
    {| VoteEvent.voteId := "VOTE_" +:+ pretty (length history);
       VoteEvent.userId := userId;
       VoteEvent.proposalId := proposalId;
       VoteEvent.timestamp := timestamp;
       VoteEvent.ipHash := ipHash;
       VoteEvent.deviceHash := deviceHash |} in
  let e :=
    set_userVoteHistory (<[userId := history ++ [event]]> (userVoteHistory e))
      e in
  (* update the velocity window *)
  let window :=
    HMap.at_ userId (SlidingWindow.make (velocityWindowSeconds e))
      (userVelocityWindows e) in
  let e :=
    set_userVelocityWindows
      (<[userId := SlidingWindow.addEvent timestamp window]>
         (userVelocityWindows e)) e in
  (* track IP and device *)
  let e :=
    if bool_decide (ipHash ≠ "")
    then
      set_ipToUsers
        (HMap.modify ipHash [] (fun users => users ++ [userId])
           (ipToUsers e))
        (set_userIPs
           (HMap.modify userId ∅ (fun ips => {[ipHash]} ∪ ips) (userIPs e))
           e)
    else e in
  let e :=
    if bool_decide (deviceHash ≠ "")
    then
      set_deviceToUsers
        (HMap.modify deviceHash [] (fun users => users ++ [userId])
           (deviceToUsers e))
        (set_userDevices
           (HMap.modify userId ∅ (fun devices => {[deviceHash]} ∪ devices)
              (userDevices e))
           e)
    else e in
  (* update the co-voting graph *)
  let e :=
    set_coVotingGraph
      (CoVotingGraph.addVote userId proposalId (coVotingGraph e)) e in
  (* update bot detection for this user *)
  updateBotDetection userId e.

(** *** Queries and maintenance *)

Definition getUsersWithSameIP (ipHash : string) (e : t) : list string :=
  match ipToUsers e !! ipHash with
  | Some users => users
  | None => []
  end.

Definition getUsersWithSameDevice (deviceHash : string) (e : t)
  : list string :=
  match deviceToUsers e !! deviceHash with
  | Some users => users
  | None => []
  end.

Definition configureThresholds (velThreshold deltaThreshold collusionThresh
                                botThresh : Q) (e : t) : t :=
  {| userVoteHistory := userVoteHistory e;
     userVelocityWindows := userVelocityWindows e;
     userIPs := userIPs e; userDevices := userDevices e;
     ipToUsers := ipToUsers e; deviceToUsers := deviceToUsers e;
     coVotingGraph := coVotingGraph e;
     botDetectionCache := botDetectionCache e;
     collusionDetectionCache := collusionDetectionCache e;
     userCredibilityScores := userCredibilityScores e;
     threatAlerts := threatAlerts e; suspiciousUsers := suspiciousUsers e;
     velocityThreshold := velThreshold;
     deltaThresholdMs := deltaThreshold;
     minCoVotesForCollusion := minCoVotesForCollusion e;
     collusionThreshold := collusionThresh;
     botLikelihoodThreshold := botThresh;
     velocityWindowSeconds := velocityWindowSeconds e;
     alertCounter := alertCounter e; systemClock := systemClock e |}.

Definition clearAll (e : t) : t :=
  {| userVoteHistory := ∅; userVelocityWindows := ∅;
     userIPs := ∅; userDevices := ∅; ipToUsers := ∅; deviceToUsers := ∅;
     coVotingGraph := CoVotingGraph.clear (coVotingGraph e);
     botDetectionCache := ∅; collusionDetectionCache := [];
     userCredibilityScores := ∅;
     threatAlerts := []; suspiciousUsers := ∅;
     velocityThreshold := velocityThreshold e;
     deltaThresholdMs := deltaThresholdMs e;
     minCoVotesForCollusion := minCoVotesForCollusion e;
     collusionThreshold := collusionThreshold e;
     botLikelihoodThreshold := botLikelihoodThreshold e;
     velocityWindowSeconds := velocityWindowSeconds e;
     alertCounter := alertCounter e; systemClock := systemClock e |}.

Definition clearUser (userId : string) (e : t) : t :=
  let e := set_userVoteHistory (delete userId (userVoteHistory e)) e in
  let e := set_userVelocityWindows (delete userId (userVelocityWindows e)) e in
  let e := set_userIPs (delete userId (userIPs e)) e in
  let e := set_userDevices (delete userId (userDevices e)) e in
  let e := set_botDetectionCache (delete userId (botDetectionCache e)) e in
  let e :=
    set_userCredibilityScores (delete userId (userCredibilityScores e)) e in
  set_suspiciousUsers (delete userId (suspiciousUsers e)) e.

(** *** Scans over the recorded votes *)

(** Insertion of a result into a list ordered by descending
    [botLikelihood]: before the first result of strictly lower
    likelihood. *)
Fixpoint insertByLikelihood (result : BotDetectionResult.t)
         (results : list BotDetectionResult.t) : list BotDetectionResult.t :=
  match results with
  | [] => [result]
  | first :: rest =>
      if Dbl.ltb (BotDetectionResult.botLikelihood first)
                 (BotDetectionResult.botLikelihood result)
      then result :: results
      else first :: insertByLikelihood result rest
  end.

(** [std::sort] with the comparator [a.botLikelihood > b.botLikelihood].
    [std::sort] leaves the relative order of results of equal likelihood
    open; here they keep the order in which they were found. *)
Definition sortByLikelihood (results : list BotDetectionResult.t)
  : list BotDetectionResult.t :=
  fold_left (fun sorted result => insertByLikelihood result sorted)
    results [].

(** Body of the loop of [detectAllBots] over [userVoteHistory]. *)
Definition scanUser (acc : list BotDetectionResult.t * t) (userId : string)
  : list BotDetectionResult.t * t :=
  let '(result, e) := detectBot userId acc.2 in
  (if BotDetectionResult.isSuspicious result then acc.1 ++ [result]
   else acc.1, e).

(** [detectAllBots]; the users are taken in the order [map_to_list]
    enumerates them. *)
Definition detectAllBots (e : t) : list BotDetectionResult.t * t :=
  let '(results, e) :=
    fold_left scanUser (map fst (map_to_list (userVoteHistory e))) ([], e) in
  (sortByLikelihood results, e).

(** The state [performSecurityScan] leaves: it runs [detectAllBots], then
    [detectCollusion], then reads the unresolved alerts.  The report text
    is not embedded. *)
Definition performSecurityScan (e : t) : t :=
  (detectCollusion (detectAllBots e).2).2.

(** [getVoteCountInWindow]: the events of the history not older than
    [now - windowSeconds]. *)
Definition getVoteCountInWindow (userId : string) (windowSeconds : Z) (e : t)
  : Z :=
  match userVoteHistory e !! userId with
  | None => 0
  | Some history =>
      let cutoff := systemClock e - Clock.of_seconds windowSeconds in
      fold_left
        (fun count event =>
           if cutoff <=? VoteEvent.timestamp event then count + 1 else count)
        history 0
  end.

End AntiAbuseEngine.

(** ** Auxiliary notions used in the statements *)

(** The count [getCoVoteCount] reads from an adjacency structure. *)
Definition weight (adj : UMap.t (UMap.t Z)) (x y : string) : Z :=
  match UMap.find x adj with
  | None => 0
  | Some row => match UMap.find y row with None => 0 | Some n => n end
  end.

(** The contribution of one iteration of the [addVote] loop to the
    directed weight from [x] to [y]. *)
Definition link (u o x y : string) : Z :=
  if bool_decide (o <> u /\ ((x = o /\ y = u) \/ (x = u /\ y = o)))
  then 1 else 0.

Definition links (u : string) (voters : list string) (x y : string) : Z :=
  foldr (fun o acc => link u o x y + acc) 0 voters.

(** The engine after a sequence of [recordVoteEvent] calls; an event is
    (user, proposal, timestamp, ipHash, deviceHash). *)
Definition ingest (events : list (string * string * Z * string * string))
           (e : AntiAbuseEngine.t) : AntiAbuseEngine.t :=
  fold_left
    (fun e '(userId, proposalId, timestamp, ipHash, deviceHash) =>
       AntiAbuseEngine.recordVoteEvent userId proposalId timestamp
         ipHash deviceHash e)
    events e.

(** What a run of the collusion detector may change in the engine. *)
Definition collusionUpdate (suspicious : gmap string bool)
           (alerts : list ThreatAlert.t) (counter : Z)
           (cache : list CollusionDetectionResult.t)
           (e : AntiAbuseEngine.t) : AntiAbuseEngine.t :=
  AntiAbuseEngine.set_suspiciousUsers suspicious
    (AntiAbuseEngine.set_threatAlerts alerts
       (AntiAbuseEngine.set_alertCounter counter
          (AntiAbuseEngine.set_collusionDetectionCache cache e))).

(** Two groups that share the member "b": "a" and "b" vote on the same 21
    proposals, "b" and "c" on 21 others; "a" and "c" share none. *)
Definition chainEvents : list (string * string * Z * string * string) :=
  flat_map
    (fun i : nat =>
       [("a", "p" +:+ pretty i, Z.of_nat i * 1000000000, "", "");
        ("b", "p" +:+ pretty i, Z.of_nat i * 1000000000, "", "")]%string)
    (seq 0 21)
  ++ flat_map
       (fun i : nat =>
          [("b", "q" +:+ pretty i, Z.of_nat (21 + i) * 1000000000, "", "");
           ("c", "q" +:+ pretty i, Z.of_nat (21 + i) * 1000000000, "", "")
          ]%string)
       (seq 0 21).

(** A burst of 120 votes by one user, one millisecond apart, without IP or
    device tokens. *)
Definition burstEvents : list (string * string * Z * string * string) :=
  map (fun i : nat =>
         ("u", "p" +:+ pretty i, Z.of_nat i * 1000000, "", "")%string)
      (seq 0 120).

(** *** Collusion score, in the words of the specification *)

Module CollusionSpec.

(** Every unordered pair of members, once. *)
Fixpoint memberPairs (community : list string) : list (string * string) :=
  match community with
  | [] => []
  | x :: rest => map (pair x) rest ++ memberPairs rest
  end.

(** The pairs of members that share at least one co-vote. *)
Definition realizedPairs (g : CoVotingGraph.t) (community : list string)
  : list (string * string) :=
  filter (fun xy => 0 < CoVotingGraph.getCoVoteCount xy.1 xy.2 g)
         (memberPairs community).

Definition realizedEdges (g : CoVotingGraph.t) (community : list string) : Z :=
  Z.of_nat (length (realizedPairs g community)).

Definition totalCoVotes (g : CoVotingGraph.t) (community : list string) : Z :=
  foldr Z.add 0
    (map (fun xy => CoVotingGraph.getCoVoteCount xy.1 xy.2 g)
         (realizedPairs g community)).

(** C(size, 2). *)
Definition possibleEdges (community : list string) : Z :=
  Z.of_nat (length community) * (Z.of_nat (length community) - 1) / 2.

Definition density (g : CoVotingGraph.t) (community : list string) : Q :=
  (inject_Z (realizedEdges g community)
   / inject_Z (possibleEdges community))%Q.

(** [totalCoVotes / realizedEdges], 0 if there is no edge. *)
Definition avgCoVotes (g : CoVotingGraph.t) (community : list string) : Q :=
  if realizedEdges g community =? 0 then 0%Q
  else (inject_Z (totalCoVotes g community)
        / inject_Z (realizedEdges g community))%Q.


(** The same blend with the clamp on the sum only. *)
Definition clampedScore (g : CoVotingGraph.t) (community : list string) : Q :=
  Qmin 1 (0.5 * density g community
          + 0.5 * (avgCoVotes g community / 20))%Q.

End CollusionSpec.

(** *** Bot likelihood, in the words of the specification *)

Module BotSpec.

(** Closeness of the gap to the threshold; 0 if the gap is undefined
    (not positive) or not below the threshold. *)
Definition gapTerm (gap threshold : Q) : Q :=
  match Qlt_le_dec 0 gap, Qlt_le_dec gap threshold with
  | left _, left _ => (1 - gap / threshold)%Q
  | _, _ => 0%Q
  end.

Definition indicator (b : bool) : Q := if b then 1%Q else 0%Q.

(** The weighted blend, clamped to 1. *)
Definition blend (rate gap velocityThreshold gapThreshold : Q)
           (devices ips : nat) : Q :=
  Qmin 1 (0.4 * Qmin 1 (rate / (2 * velocityThreshold))
          + 0.4 * gapTerm gap gapThreshold
          + 0.3 * indicator (devices =? 1)%nat
          + 0.2 * indicator (ips =? 1)%nat)%Q.

End BotSpec.

(** *** Trust score, in the words of the specification *)

Module TrustSpec.

Definition combine (accountAge deviceDiversity majorityAgreement verification
                    botLikelihood collusion consistency reportScore : Q) : Q :=
  (0.20 * accountAge + 0.15 * deviceDiversity + 0.15 * majorityAgreement
   + 0.10 * verification + 0.15 * (1 - botLikelihood)
   + 0.15 * (1 - collusion) + 0.05 * consistency + 0.05 * reportScore)%Q.

End TrustSpec.

(** *** Reachable engine states *)

(** The engine states obtained from a fresh engine by the public
    operations, with a positive velocity threshold and a positive window
    length whenever one is configured.  [detectAllBots] and
    [performSecurityScan] change the state only through [detectBot] and
    [detectCollusion], so the states they produce are covered. *)
Inductive Reachable : AntiAbuseEngine.t -> Prop :=
  | reach_make velThreshold deltaThreshold windowSeconds :
      (0 < velThreshold)%Q -> 0 < windowSeconds ->
      Reachable (AntiAbuseEngine.make velThreshold deltaThreshold
                   windowSeconds)
  | reach_recordVoteEvent e userId proposalId timestamp ipHash deviceHash :
      Reachable e ->
      Reachable (AntiAbuseEngine.recordVoteEvent userId proposalId timestamp
                   ipHash deviceHash e)
  | reach_detectBot e userId :
      Reachable e -> Reachable (AntiAbuseEngine.detectBot userId e).2
  | reach_detectCollusion e :
      Reachable e -> Reachable (AntiAbuseEngine.detectCollusion e).2
  | reach_calculateUserCredibility e userId :
      Reachable e ->
      Reachable (AntiAbuseEngine.calculateUserCredibility userId e).2
  | reach_calculateAllCredibilityScores e :
      Reachable e -> Reachable (AntiAbuseEngine.calculateAllCredibilityScores e)
  | reach_getUserTrustScore e userId :
      Reachable e -> Reachable (AntiAbuseEngine.getUserTrustScore userId e).2
  | reach_markUserSuspicious e userId reason :
      Reachable e ->
      Reachable (AntiAbuseEngine.markUserSuspicious userId reason e)
  | reach_resolveThreatAlert e alertId :
      Reachable e -> Reachable (AntiAbuseEngine.resolveThreatAlert alertId e)
  | reach_configureThresholds e velThreshold deltaThreshold collusionThresh
                              botThresh :
      Reachable e -> (0 < velThreshold)%Q ->
      Reachable (AntiAbuseEngine.configureThresholds velThreshold
                   deltaThreshold collusionThresh botThresh e)
  | reach_clearAll e :
      Reachable e -> Reachable (AntiAbuseEngine.clearAll e)
  | reach_clearUser e userId :
      Reachable e -> Reachable (AntiAbuseEngine.clearUser userId e)
  | reach_advanceClock e now :
      Reachable e -> Reachable (AntiAbuseEngine.advanceClock now e).

(** The user has no recorded vote event. *)
Definition noEvents (userId : string) (e : AntiAbuseEngine.t) : Prop :=
  HMap.at_ userId [] (AntiAbuseEngine.userVoteHistory e) = [].

(** The invariant of the reachable states. *)
Record Consistent (e : AntiAbuseEngine.t) : Prop := {
  velocityThreshold_pos : (0 < AntiAbuseEngine.velocityThreshold e)%Q;
  windowSeconds_pos : 0 < AntiAbuseEngine.velocityWindowSeconds e;
  windows_pos :
    forall u w, AntiAbuseEngine.userVelocityWindows e !! u = Some w ->
                0 < SlidingWindow.windowDuration w;
  botCache_bounded :
    forall u r, AntiAbuseEngine.botDetectionCache e !! u = Some r ->
                (0 <= BotDetectionResult.botLikelihood r <= 1)%Q;
  collusionCache_bounded :
    forall r, r ∈ AntiAbuseEngine.collusionDetectionCache e ->
              (0 <= CollusionDetectionResult.collusionScore r <= 1)%Q;
  credibility_bounded :
    forall u s, AntiAbuseEngine.userCredibilityScores e !! u = Some s ->
                (0 <= UserCredibilityScore.trustScore s <= 1)%Q;
  noEvents_untracked :
    forall u, noEvents u e ->
              AntiAbuseEngine.userVelocityWindows e !! u = None
              /\ HMap.at_ u ∅ (AntiAbuseEngine.userDevices e) = ∅
              /\ HMap.at_ u ∅ (AntiAbuseEngine.userIPs e) = ∅;
  noEvents_botCache :
    forall u r, noEvents u e ->
                AntiAbuseEngine.botDetectionCache e !! u = Some r ->
                (BotDetectionResult.botLikelihood r == 0)%Q
}.

(** *** Notions used by the further properties *)

(** The number of votes of [x] on proposals that [y] voted on as well;
    with at most one vote per user and proposal, the number of proposals
    both voted on. *)
Definition sharedProposals (votes : list (string * string)) (x y : string)
  : nat :=
  length (filter (fun v => v.1 = x /\ (y, v.2) ∈ votes) votes).

(** How a graph built by [addVote] calls stores its weights: no key twice
    in the outer or in an inner map, no empty row, no self entry, and
    every stored count at least 1. *)
Definition rowStored (entry : string * UMap.t Z) : Prop :=
  NoDup (UMap.keys entry.2)
  /\ entry.2 <> []
  /\ Forall (fun vn => vn.1 <> entry.1 /\ 1 <= vn.2) entry.2.

Definition Stored (adj : UMap.t (UMap.t Z)) : Prop :=
  NoDup (UMap.keys adj) /\ Forall rowStored adj.

(** [y] stores a count of at least [m] for [x]: the edges the traversal
    of [detectCommunities] follows. *)
Definition strong (adj : UMap.t (UMap.t Z)) (m : Z) (y x : string) : Prop :=
  exists row n, UMap.find y adj = Some row /\ (x, n) ∈ row /\ m <= n.

(** What the outer loop of [detectCommunities] has explored: the
    components found so far, in order, those of one member included. *)
Record Explored (adj : UMap.t (UMap.t Z)) (m : Z)
       (comps : list (list string))
       (communities : list (list string)) (visited : gset string) : Prop := {
  explored_reported :
    communities = filter (fun c => (2 <= length c)%nat) comps;
  explored_NoDup : NoDup (concat comps);
  explored_visited : forall x, x ∈ visited <-> x ∈ concat comps;
  explored_start :
    Forall (fun c => exists s rest,
                c = s :: rest
                /\ is_Some (UMap.find s adj)
                /\ (rest <> [] -> exists x, x ∈ rest /\ strong adj m s x)
                /\ (forall x, x ∈ rest -> exists y, y ∈ c /\ strong adj m y x))
           comps;
  explored_closed :
    forall pre c post y x,
      comps = pre ++ c :: post -> y ∈ c -> strong adj m y x ->
      x ∈ concat (pre ++ [c]);
  explored_connected :
    Forall (fun c => exists s rest,
                c = s :: rest /\ forall x, x ∈ c -> rtc (strong adj m) s x)
           comps
}.

(** [x] and [y] share at least one and at least [m] co-votes: the pairs
    that [detectCommunities] groups. *)
Definition coLinked (g : CoVotingGraph.t) (m : Z) (x y : string) : Prop :=
  0 < CoVotingGraph.getCoVoteCount x y g
  /\ m <= CoVotingGraph.getCoVoteCount x y g.

(** *** Vote tracking of the engine *)

(** What the engine holds for a user: the recorded history and the
    hashes seen, read without creating an entry. *)
Definition historyOf (u : string) (e : AntiAbuseEngine.t)
  : list VoteEvent.t :=
  HMap.at_ u [] (AntiAbuseEngine.userVoteHistory e).

Definition devicesOf (u : string) (e : AntiAbuseEngine.t) : gset string :=
  HMap.at_ u ∅ (AntiAbuseEngine.userDevices e).

Definition ipsOf (u : string) (e : AntiAbuseEngine.t) : gset string :=
  HMap.at_ u ∅ (AntiAbuseEngine.userIPs e).

(** The event [recordVoteEvent] appends to the history of the user. *)
Definition recordedEvent (u p : string) (ts : Z) (ip dev : string)
           (e : AntiAbuseEngine.t) : VoteEvent.t :=
  {| VoteEvent.voteId := "VOTE_" +:+ pretty (length (historyOf u e));
     VoteEvent.userId := u; VoteEvent.proposalId := p;
     VoteEvent.timestamp := ts; VoteEvent.ipHash := ip;
     VoteEvent.deviceHash := dev |}.

(** [e'] tracks the same votes as [e]: histories, windows, hashes, reverse
    indexes, graph and window length are those of [e], up to entries that
    [operator[]] created with an empty value. *)
Definition sameTracking (e e' : AntiAbuseEngine.t) : Prop :=
  (forall k, historyOf k e' = historyOf k e)
  /\ AntiAbuseEngine.userVelocityWindows e'
     = AntiAbuseEngine.userVelocityWindows e
  /\ (forall k, devicesOf k e' = devicesOf k e)
  /\ (forall k, ipsOf k e' = ipsOf k e)
  /\ AntiAbuseEngine.ipToUsers e' = AntiAbuseEngine.ipToUsers e
  /\ AntiAbuseEngine.deviceToUsers e' = AntiAbuseEngine.deviceToUsers e
  /\ AntiAbuseEngine.coVotingGraph e' = AntiAbuseEngine.coVotingGraph e
  /\ AntiAbuseEngine.velocityWindowSeconds e'
     = AntiAbuseEngine.velocityWindowSeconds e.

(** How the per-user structures of a reachable state hang together. *)
Record Tracked (e : AntiAbuseEngine.t) : Prop := {
  tracked_ids :
    forall u i ev,
      historyOf u e !! i = Some ev ->
      VoteEvent.voteId ev = "VOTE_" +:+ pretty i /\ VoteEvent.userId ev = u;
  tracked_window :
    forall u,
      AntiAbuseEngine.userVelocityWindows e !! u
      = match historyOf u e with
        | [] => None
        | history =>
            Some (SlidingWindow.feed (AntiAbuseEngine.velocityWindowSeconds e)
                    (map VoteEvent.timestamp history))
        end;
  tracked_devices :
    forall u d,
      d ∈ devicesOf u e <->
      d <> ""%string
      /\ exists ev, ev ∈ historyOf u e /\ VoteEvent.deviceHash ev = d;
  tracked_ips :
    forall u ip,
      ip ∈ ipsOf u e <->
      ip <> ""%string
      /\ exists ev, ev ∈ historyOf u e /\ VoteEvent.ipHash ev = ip;
  tracked_deviceToUsers :
    forall u d,
      d ∈ devicesOf u e -> u ∈ AntiAbuseEngine.getUsersWithSameDevice d e;
  tracked_ipToUsers :
    forall u ip,
      ip ∈ ipsOf u e -> u ∈ AntiAbuseEngine.getUsersWithSameIP ip e;
  tracked_no_empty_hash :
    AntiAbuseEngine.getUsersWithSameDevice "" e = []
    /\ AntiAbuseEngine.getUsersWithSameIP "" e = [];
  tracked_graph :
    exists votes,
      AntiAbuseEngine.coVotingGraph e = CoVotingGraph.build votes
}.

(** *** Threat alerts *)

(** The identifier [generateThreatAlert] gives the alert with number [n]. *)
Definition alertName (n : Z) : string := "ALERT_" +:+ pretty n.

(** The alerts carry the numbers [counter + 1], [counter + 2], ... in
    order. *)
Fixpoint numberedFrom (counter : Z) (alerts : list ThreatAlert.t) : Prop :=
  match alerts with
  | [] => True
  | a :: rest =>
      ThreatAlert.alertId a = alertName (counter + 1)
      /\ numberedFrom (counter + 1) rest
  end.

(** [e'] holds the alerts of [e] followed by newly numbered ones. *)
Definition alertsGrow (e e' : AntiAbuseEngine.t) : Prop :=
  exists new,
    AntiAbuseEngine.threatAlerts e' = AntiAbuseEngine.threatAlerts e ++ new
    /\ numberedFrom (AntiAbuseEngine.alertCounter e) new
    /\ AntiAbuseEngine.alertCounter e'
       = AntiAbuseEngine.alertCounter e + Z.of_nat (length new).

(** The stored alerts carry increasing numbers, none above the counter. *)
Definition AlertsNumbered (e : AntiAbuseEngine.t) : Prop :=
  exists ns,
    map ThreatAlert.alertId (AntiAbuseEngine.threatAlerts e)
    = map alertName ns
    /\ StronglySorted Z.lt ns
    /\ Forall (fun n => n <= AntiAbuseEngine.alertCounter e) ns.

(** The alert that [updateCollusionDetection] raises for a suspicious
    group, but for its number. *)
Definition collusionAlert (now : Z) (a : ThreatAlert.t)
           (r : CollusionDetectionResult.t) : Prop :=
  ThreatAlert.alertType a = "collusion_detected"%string
  /\ ThreatAlert.severity a = CollusionDetectionResult.collusionScore r
  /\ ThreatAlert.involvedUsers a = CollusionDetectionResult.userGroup r
  /\ ThreatAlert.description a = CollusionDetectionResult.description r
  /\ ThreatAlert.timestamp a = now
  /\ ThreatAlert.resolved a = false.


(** *** The operations of the engine *)

(** The calls that change an engine, [AdvanceClock] standing for the
    passage of time. *)
Inductive Operation : Type :=
  | RecordVoteEvent (userId proposalId : string) (timestamp : Z)
                    (ipHash deviceHash : string)
  | DetectBot (userId : string)
  | DetectAllBots
  | DetectCollusion
  | PerformSecurityScan
  | CalculateUserCredibility (userId : string)
  | CalculateAllCredibilityScores
  | GetUserTrustScore (userId : string)
  | MarkUserSuspicious (userId : string) (reason : Text)
  | ResolveThreatAlert (alertId : string)
  | ConfigureThresholds (velThreshold deltaThreshold collusionThresh
                         botThresh : Q)
  | ClearAll
  | ClearUser (userId : string)
  | AdvanceClock (now : Z).

(** The engine after an operation. *)
Definition run (op : Operation) (e : AntiAbuseEngine.t) : AntiAbuseEngine.t :=
  match op with
  | RecordVoteEvent userId proposalId timestamp ipHash deviceHash =>
      AntiAbuseEngine.recordVoteEvent userId proposalId timestamp ipHash
        deviceHash e
  | DetectBot userId => (AntiAbuseEngine.detectBot userId e).2
  | DetectAllBots => (AntiAbuseEngine.detectAllBots e).2
  | DetectCollusion => (AntiAbuseEngine.detectCollusion e).2
  | PerformSecurityScan => AntiAbuseEngine.performSecurityScan e
  | CalculateUserCredibility userId =>
      (AntiAbuseEngine.calculateUserCredibility userId e).2
  | CalculateAllCredibilityScores =>
      AntiAbuseEngine.calculateAllCredibilityScores e
  | GetUserTrustScore userId => (AntiAbuseEngine.getUserTrustScore userId e).2
  | MarkUserSuspicious userId reason =>
      AntiAbuseEngine.markUserSuspicious userId reason e
  | ResolveThreatAlert alertId => AntiAbuseEngine.resolveThreatAlert alertId e
  | ConfigureThresholds velThreshold deltaThreshold collusionThresh
                        botThresh =>
      AntiAbuseEngine.configureThresholds velThreshold deltaThreshold
        collusionThresh botThresh e
  | ClearAll => AntiAbuseEngine.clearAll e
  | ClearUser userId => AntiAbuseEngine.clearUser userId e
  | AdvanceClock now => AntiAbuseEngine.advanceClock now e
  end.

(** The operations that write or erase the cached credibility score of
    the user [u]: the score computation for [u], the bulk recompute, and
    the two clearing operations.  ([getUserTrustScore] computes a score
    only when none is cached.) *)
Definition rescores (u : string) (op : Operation) : Prop :=
  match op with
  | CalculateUserCredibility userId => userId = u
  | CalculateAllCredibilityScores => True
  | ClearUser userId => userId = u
  | ClearAll => True
  | _ => False
  end.

(** *** Cached bot detection *)


(** * Properties *)

(** ** Sliding window *)

Section SlidingWindowFacts.

Import SlidingWindow.

Lemma evict_suffix (cutoff : Z) (ts : list Z) :
  exists old, ts = old ++ evict cutoff ts.
Proof.
  induction ts as [|front rest IH]; simpl.
  - exists []. reflexivity.
  - destruct (front <? cutoff).
    + destruct IH as [old Hold]. exists (front :: old).
      simpl. congruence.
    + exists []. reflexivity.
Qed.

Lemma evict_head (cutoff : Z) (ts : list Z) :
  match evict cutoff ts with
  | [] => True
  | front :: _ => cutoff <= front
  end.
Proof.
  induction ts as [|front rest IH]; simpl; [exact I|].
  destruct (front <? cutoff) eqn:E; [exact IH|].
  apply Z.ltb_ge in E. exact E.
Qed.

Lemma evict_sorted (cutoff : Z) (ts : list Z) :
  StronglySorted Z.le ts -> Forall (fun x => cutoff <= x) (evict cutoff ts).
Proof.
  intros Hs. induction Hs as [|front rest Hrest IH Hall]; simpl.
  - constructor.
  - destruct (front <? cutoff) eqn:E; [exact IH|].
    apply Z.ltb_ge in E. constructor; [exact E|].
    eapply Forall_impl; [exact Hall|]. simpl. intros x Hx. lia.
Qed.

Lemma feed_snoc (seconds : Z) (events : list Z) (ts : Z) :
  feed seconds (events ++ [ts]) = addEvent ts (feed seconds events).
Proof. unfold feed. rewrite fold_left_app. reflexivity. Qed.

Lemma feed_windowDuration (seconds : Z) (events : list Z) :
  windowDuration (feed seconds events) = seconds.
Proof.
  induction events as [|ts events IH] using rev_ind; [reflexivity|].
  rewrite feed_snoc. simpl. exact IH.
Qed.

Lemma feed_suffix (seconds : Z) (events : list Z) :
  exists old, events = old ++ timestamps (feed seconds events).
Proof.
  induction events as [|ts events IH] using rev_ind.
  - exists []. reflexivity.
  - rewrite feed_snoc. destruct IH as [old Hold]. simpl.
    destruct (evict_suffix
                (ts - Clock.of_seconds (windowDuration (feed seconds events)))
                (timestamps (feed seconds events) ++ [ts])) as [old' Hold'].
    exists (old ++ old').
    rewrite <- app_assoc, <- Hold', app_assoc, <- Hold. reflexivity.
Qed.

Lemma StronglySorted_suffix (old ts : list Z) :
  StronglySorted Z.le (old ++ ts) -> StronglySorted Z.le ts.
Proof.
  induction old as [|x old IH]; simpl; [tauto|].
  intros H. apply IH. inversion H; assumption.
Qed.

End SlidingWindowFacts.

(** C3, as stated, fails when timestamps arrive out of order: with a 60 s
    window, inserting 100 s, then 0 s, then 150 s leaves 0 s in the window
    although the cutoff of the last insertion is 90 s. *)
Lemma addEvent_out_of_order_keeps_stale :
  SlidingWindow.timestamps
    (SlidingWindow.feed 60 [100000000000; 0; 150000000000])
  = [100000000000; 0; 150000000000]
  /\ ~ SlidingWindow.fresh 150000000000
       (SlidingWindow.feed 60 [100000000000; 0; 150000000000]).
Proof.
  split; [reflexivity|].
  unfold SlidingWindow.fresh. intros H.
  apply Forall_cons_iff in H as [_ H].
  apply Forall_cons_iff in H as [H _].
  vm_compute in H. apply H. reflexivity.
Qed.

(** C3 (amended): for every sequence of [addEvent] calls whose timestamps
    arrive in non-decreasing order, immediately after each insertion the
    window holds no timestamp strictly older than [now - windowDuration],
    [now] being the inserted timestamp. *)
Theorem addEvent_window_fresh (seconds : Z) (events : list Z) (now : Z) :
  Sorted Z.le (events ++ [now]) ->
  SlidingWindow.fresh now (SlidingWindow.feed seconds (events ++ [now])).
Proof.
  intros Hsorted.
  apply Sorted_StronglySorted in Hsorted; [|intros x y z; lia].
  unfold SlidingWindow.fresh.
  rewrite feed_snoc. simpl.
  apply evict_sorted.
  destruct (feed_suffix seconds events) as [old Hold].
  rewrite Hold, <- app_assoc in Hsorted.
  exact (StronglySorted_suffix _ _ Hsorted).
Qed.

Lemma addEvent_window_fresh_witness :
  Sorted Z.le ([0; 10000000000] ++ [75000000000])
  /\ SlidingWindow.fresh 75000000000
       (SlidingWindow.feed 60 ([0; 10000000000] ++ [75000000000])).
Proof.
  assert (Hsorted : Sorted Z.le ([0; 10000000000] ++ [75000000000]))
    by (simpl; repeat constructor; lia).
  split; [exact Hsorted|].
  apply (addEvent_window_fresh 60 [0; 10000000000] 75000000000 Hsorted).
Defined.

(** ** Co-voting graph: edge weights *)

Section UMapFacts.

Context {V : Type}.
Implicit Types (m : UMap.t V) (k : string).

Lemma find_modify_eq k (d : V) (f : V -> V) m :
  UMap.find k (UMap.modify k d f m) = Some (f (default d (UMap.find k m))).
Proof.
  induction m as [|[k' v] m IH]; simpl.
  - rewrite bool_decide_eq_true_2 by reflexivity. reflexivity.
  - destruct (bool_decide (k = k')) eqn:E; simpl; rewrite E; auto.
Qed.

Lemma find_modify_ne k k' (d : V) (f : V -> V) m :
  k <> k' -> UMap.find k' (UMap.modify k d f m) = UMap.find k' m.
Proof.
  intros Hne. induction m as [|[k0 v] m IH]; simpl.
  - rewrite bool_decide_eq_false_2 by congruence. reflexivity.
  - destruct (bool_decide (k = k0)) eqn:E; simpl.
    + apply bool_decide_eq_true_1 in E. subst k0.
      rewrite bool_decide_eq_false_2 by congruence. reflexivity.
    + destruct (bool_decide (k' = k0)); auto.
Qed.

Lemma modify_fixed k (d : V) (f : V -> V) m v :
  UMap.find k m = Some v -> f v = v -> UMap.modify k d f m = m.
Proof.
  intros Hfind Hf. induction m as [|[k0 v0] m IH]; simpl in *; [discriminate|].
  destruct (bool_decide (k = k0)).
  - injection Hfind as ->. rewrite Hf. reflexivity.
  - rewrite IH by assumption. reflexivity.
Qed.

End UMapFacts.

Section GraphWeights.

Import CoVotingGraph.

Lemma getCoVoteCount_weight x y g :
  getCoVoteCount x y g = weight (adjacency g) x y.
Proof. reflexivity. Qed.

Lemma increment_weight a b adj x y :
  weight (increment a b adj) x y
  = weight adj x y + (if bool_decide (x = a /\ y = b) then 1 else 0).
Proof.
  unfold weight, increment.
  destruct (decide (x = a)) as [->|Hxa].
  - rewrite find_modify_eq.
    destruct (decide (y = b)) as [->|Hyb].
    + rewrite find_modify_eq.
      rewrite bool_decide_eq_true_2 by auto.
      destruct (UMap.find a adj) as [row|]; simpl.
      * destruct (UMap.find b row); simpl; lia.
      * reflexivity.
    + rewrite find_modify_ne by congruence.
      rewrite bool_decide_eq_false_2 by tauto.
      destruct (UMap.find a adj) as [row|]; simpl.
      * destruct (UMap.find y row); lia.
      * reflexivity.
  - rewrite find_modify_ne by congruence.
    rewrite bool_decide_eq_false_2 by tauto.
    destruct (UMap.find x adj) as [row|]; [destruct (UMap.find y row)|]; lia.
Qed.

Lemma linkVoter_weight u adj o x y :
  weight (linkVoter u adj o) x y = weight adj x y + link u o x y.
Proof.
  unfold linkVoter, link.
  destruct (decide (o = u)) as [->|Hne].
  - rewrite bool_decide_eq_false_2 by tauto.
    rewrite bool_decide_eq_false_2 by tauto. lia.
  - rewrite (bool_decide_eq_true_2 (o <> u)) by assumption.
    rewrite !increment_weight.
    repeat case_bool_decide; try lia; exfalso; intuition congruence.
Qed.

Lemma fold_linkVoter_weight u voters adj x y :
  weight (fold_left (linkVoter u) voters adj) x y
  = weight adj x y + links u voters x y.
Proof.
  revert adj. induction voters as [|o voters IH]; intros adj; simpl.
  - lia.
  - rewrite IH, linkVoter_weight. lia.
Qed.

Lemma link_sym u o x y : link u o x y = link u o y x.
Proof. unfold link. repeat case_bool_decide; try lia; exfalso; intuition. Qed.

Lemma links_sym u voters x y : links u voters x y = links u voters y x.
Proof.
  induction voters as [|o voters IH]; simpl; [reflexivity|].
  rewrite IH, (link_sym u o x y). reflexivity.
Qed.

Lemma links_not_member u voters x y :
  ~ (x = u /\ y <> u /\ y ∈ voters) ->
  ~ (y = u /\ x <> u /\ x ∈ voters) ->
  links u voters x y = 0.
Proof.
  intros H1 H2. induction voters as [|o voters IH]; simpl; [reflexivity|].
  rewrite IH.
  - unfold link.
    destruct (decide (o <> u /\ ((x = o /\ y = u) \/ (x = u /\ y = o))))
      as [Hl|Hl];
      [|rewrite (bool_decide_eq_false_2 _ Hl); lia].
    exfalso.
    destruct Hl as [Hou [[-> ->]|[-> ->]]].
    + apply H2. repeat split; auto. left.
    + apply H1. repeat split; auto. left.
  - intros (?&?&?). apply H1. repeat split; auto. right. assumption.
  - intros (?&?&?). apply H2. repeat split; auto. right. assumption.
Qed.

Lemma links_NoDup u voters x y :
  NoDup voters ->
  links u voters x y
  = if bool_decide ((x = u /\ y <> u /\ y ∈ voters)
                    \/ (y = u /\ x <> u /\ x ∈ voters))
    then 1 else 0.
Proof.
  intros Hnd. induction Hnd as [|o voters Hnotin Hnd IH]; simpl.
  - rewrite bool_decide_eq_false_2; [reflexivity|].
    intros [(_&_&H)|(_&_&H)]; inversion H.
  - unfold link at 1.
    destruct (decide (o <> u /\ ((x = o /\ y = u) \/ (x = u /\ y = o))))
      as [Hl|Hl];
      [rewrite (bool_decide_eq_true_2 _ Hl)
      |rewrite (bool_decide_eq_false_2 _ Hl)].
    + rewrite links_not_member.
      * rewrite bool_decide_eq_true_2; [reflexivity|].
        destruct Hl as [Hou [[-> ->]|[-> ->]]].
        -- right. repeat split; auto. left.
        -- left. repeat split; auto. left.
      * destruct Hl as [Hou [[-> ->]|[-> ->]]]; intros (?&?&?); congruence.
      * destruct Hl as [Hou [[-> ->]|[-> ->]]]; intros (?&?&?); congruence.
    + rewrite IH. simpl.
      apply f_equal with (f := fun b : bool => if b then 1 else 0).
      apply bool_decide_ext. split.
      * intros [(?&?&?)|(?&?&?)]; [left|right]; repeat split; auto;
          right; assumption.
      * intros [(Hx&Hy&Hin)|(Hy&Hx&Hin)].
        -- apply elem_of_cons in Hin as [->|Hin]; [|left; auto].
           exfalso. apply Hl. split; [congruence|]. right. auto.
        -- apply elem_of_cons in Hin as [->|Hin]; [|right; auto].
           exfalso. apply Hl. split; [congruence|]. left. auto.
Qed.

Lemma addVote_weight u p g x y :
  weight (adjacency (addVote u p g)) x y
  = weight (adjacency g) x y
    + links u (USet.insert u (default [] (UMap.find p (proposalVoters g))))
        x y.
Proof.
  unfold addVote. simpl. rewrite find_modify_eq. simpl.
  apply fold_linkVoter_weight.
Qed.

Lemma build_snoc votes u p :
  build (votes ++ [(u, p)]) = addVote u p (build votes).
Proof. unfold build. rewrite fold_left_app. reflexivity. Qed.

Lemma USet_insert_NoDup u (s : USet.t) : NoDup s -> NoDup (USet.insert u s).
Proof.
  intros Hnd. unfold USet.insert, USet.count.
  case_bool_decide as Hin; [assumption|].
  apply NoDup_app. repeat split; auto.
  - intros x Hx Hx'. apply list_elem_of_singleton in Hx'. subst x. tauto.
  - apply NoDup_singleton.
Qed.

Lemma USet_insert_elem u (s : USet.t) v :
  v ∈ USet.insert u s <-> v = u \/ v ∈ s.
Proof.
  unfold USet.insert, USet.count.
  case_bool_decide as Hin.
  - split; [auto|]. intros [->|]; assumption.
  - rewrite elem_of_app, list_elem_of_singleton. tauto.
Qed.

(** The voter index of a reachable graph: duplicate-free, and exactly the
    users that voted on the proposal. *)
Lemma build_voters votes p :
  NoDup (default [] (UMap.find p (proposalVoters (build votes))))
  /\ forall v, v ∈ default [] (UMap.find p (proposalVoters (build votes)))
               <-> (v, p) ∈ votes.
Proof.
  induction votes as [|[u q] votes IH] using rev_ind.
  - simpl. split; [constructor|]. intros v. split; intros H; inversion H.
  - rewrite build_snoc. unfold addVote; simpl.
    destruct IH as [Hnd Hin].
    destruct (decide (q = p)) as [->|Hne].
    + rewrite find_modify_eq. simpl. split.
      * apply USet_insert_NoDup, Hnd.
      * intros v. rewrite USet_insert_elem, Hin, elem_of_app,
          list_elem_of_singleton.
        split; [intros [->|]; auto|intros [|[= ->]]; auto].
    + rewrite find_modify_ne by assumption. split; [exact Hnd|].
      intros v. rewrite Hin, elem_of_app, list_elem_of_singleton.
      split; [auto|intros [|[= -> ->]]; [assumption|congruence]].
Qed.

End GraphWeights.

(** C6: in every graph built by a sequence of [addVote] calls, the co-vote
    count of [u] and [v] equals the co-vote count of [v] and [u]. *)
Theorem getCoVoteCount_symmetric (votes : list (string * string))
        (u v : string) :
  CoVotingGraph.getCoVoteCount u v (CoVotingGraph.build votes)
  = CoVotingGraph.getCoVoteCount v u (CoVotingGraph.build votes).
Proof.
  induction votes as [|[w p] votes IH] using rev_ind; [reflexivity|].
  rewrite build_snoc, !getCoVoteCount_weight, !addVote_weight.
  rewrite !getCoVoteCount_weight in IH.
  rewrite IH, links_sym. reflexivity.
Qed.

(** C2, as stated, fails: after "a" and "b" voted on "p", registering
    ("b", "p") again raises the weight between "a" and "b" from 1 to 2. *)
Lemma addVote_duplicate_changes_weight :
  let g := CoVotingGraph.build [("a", "p"); ("b", "p")]%string in
  CoVotingGraph.getCoVoteCount "a" "b" g = 1
  /\ CoVotingGraph.getCoVoteCount "a" "b" (CoVotingGraph.addVote "b" "p" g) = 2
  /\ ~ (forall x y,
          CoVotingGraph.getCoVoteCount x y (CoVotingGraph.addVote "b" "p" g)
          = CoVotingGraph.getCoVoteCount x y g).
Proof.
  simpl. split; [reflexivity|]. split; [reflexivity|].
  intros H. specialize (H "a" "b")%string. vm_compute in H. discriminate.
Qed.

(** C2 (amended): when [u] is already a recorded voter of [p], a further
    [addVote u p] leaves the voter index unchanged and adds one to both
    directed weights between [u] and every other recorded voter of [p];
    every other weight is unchanged, so no weight changes when [u] is the
    only recorded voter of [p]. *)
Theorem addVote_duplicate_weights (votes : list (string * string))
        (u p x y : string) :
  (u, p) ∈ votes ->
  CoVotingGraph.proposalVoters
    (CoVotingGraph.addVote u p (CoVotingGraph.build votes))
  = CoVotingGraph.proposalVoters (CoVotingGraph.build votes)
  /\ CoVotingGraph.getCoVoteCount x y
       (CoVotingGraph.addVote u p (CoVotingGraph.build votes))
     = CoVotingGraph.getCoVoteCount x y (CoVotingGraph.build votes)
       + (if bool_decide ((x = u /\ y <> u /\ (y, p) ∈ votes)
                          \/ (y = u /\ x <> u /\ (x, p) ∈ votes))
          then 1 else 0).
Proof.
  intros Hvoted.
  destruct (build_voters votes p) as [Hnd Hin].
  assert (Hu : u ∈ default []
                 (UMap.find p
                    (CoVotingGraph.proposalVoters (CoVotingGraph.build votes))))
    by (apply Hin; assumption).
  destruct (UMap.find p
              (CoVotingGraph.proposalVoters (CoVotingGraph.build votes)))
    as [voters|] eqn:Hfind; simpl in *; [|inversion Hu].
  assert (Hins : USet.insert u voters = voters).
  { unfold USet.insert, USet.count.
    rewrite bool_decide_eq_true_2 by assumption. reflexivity. }
  split.
  - unfold CoVotingGraph.addVote. simpl.
    apply (modify_fixed _ _ _ _ voters); assumption.
  - rewrite !getCoVoteCount_weight, addVote_weight, Hfind. simpl.
    rewrite Hins, (links_NoDup _ _ _ _ Hnd).
    f_equal. apply f_equal with (f := fun b : bool => if b then 1 else 0).
    apply bool_decide_ext. rewrite !Hin. reflexivity.
Qed.

Lemma addVote_duplicate_weights_witness :
  ("b", "p")%string ∈ [("a", "p"); ("b", "p"); ("c", "q")]%string
  /\ CoVotingGraph.proposalVoters
       (CoVotingGraph.addVote "b" "p"
          (CoVotingGraph.build [("a", "p"); ("b", "p"); ("c", "q")]%string))
     = CoVotingGraph.proposalVoters
         (CoVotingGraph.build [("a", "p"); ("b", "p"); ("c", "q")]%string)
  /\ CoVotingGraph.getCoVoteCount "a" "b"
       (CoVotingGraph.addVote "b" "p"
          (CoVotingGraph.build [("a", "p"); ("b", "p"); ("c", "q")]%string))
     = CoVotingGraph.getCoVoteCount "a" "b"
         (CoVotingGraph.build [("a", "p"); ("b", "p"); ("c", "q")]%string)
       + 1.
Proof.
  assert (Hvoted : ("b", "p")%string
                   ∈ [("a", "p"); ("b", "p"); ("c", "q")]%string)
    by (apply list_elem_of_In; simpl; auto).
  split; [exact Hvoted|].
  apply (addVote_duplicate_weights
           [("a", "p"); ("b", "p"); ("c", "q")]%string "b" "p" "a" "b"
           Hvoted).
Defined.

(** ** Community detection: the traversal returns *)

Section Traversal.

Import CoVotingGraph.

Local Open Scope nat_scope.

Lemma unvisited_step (N visited : gset string) (n : string) :
  n ∈ N -> n ∉ visited ->
  size (N ∖ ({[n]} ∪ visited)) + 1 = size (N ∖ visited).
Proof.
  intros HN Hvis.
  assert (Heq : N ∖ visited = {[n]} ∪ N ∖ ({[n]} ∪ visited)).
  { apply set_eq. intros x.
    rewrite elem_of_union, !elem_of_difference, elem_of_union,
      elem_of_singleton.
    destruct (decide (x = n)) as [->|]; tauto. }
  assert (Hd : ({[n]} : gset string) ## N ∖ ({[n]} ∪ visited)).
  { apply disjoint_singleton_l.
    rewrite elem_of_difference, elem_of_union, elem_of_singleton. tauto. }
  rewrite Heq, (size_union _ _ Hd), size_singleton. lia.
Qed.

Lemma visitNeighbors_measure (N : gset string) minCoVotes
      (row : UMap.t Z) queue visited :
  (forall k, k ∈ UMap.keys row -> k ∈ N) ->
  length (fst (visitNeighbors minCoVotes row (queue, visited)))
  + size (N ∖ snd (visitNeighbors minCoVotes row (queue, visited)))
  = length queue + size (N ∖ visited).
Proof.
  revert queue visited.
  induction row as [|[neighbor coVotes] row IH]; intros queue visited Hkeys;
    [reflexivity|].
  unfold visitNeighbors in *. simpl.
  assert (Hrow : forall k, k ∈ UMap.keys row -> k ∈ N).
  { intros k Hk. apply Hkeys. simpl. right. exact Hk. }
  destruct (bool_decide (neighbor ∉ visited) && (minCoVotes <=? coVotes)%Z)
    eqn:E.
  - rewrite IH by assumption.
    apply andb_true_iff in E as [E _]. apply bool_decide_eq_true_1 in E.
    rewrite length_app. simpl.
    pose proof (unvisited_step N visited neighbor) as Hstep.
    rewrite <- Hstep; [lia| |assumption].
    apply Hkeys. simpl. left.
  - apply IH. assumption.
Qed.

Lemma find_elem_of {V : Type} (k : string) (m : UMap.t V) (v : V) :
  UMap.find k m = Some v -> (k, v) ∈ m.
Proof.
  induction m as [|[k' v'] m IH]; simpl; [discriminate|].
  case_bool_decide as Hk.
  - intros [= ->]. subst k'. left.
  - intros H. right. auto.
Qed.

Lemma nodes_entry adj (user : string) (row : UMap.t Z) :
  (user, row) ∈ adj ->
  user ∈ nodes adj /\ forall k, k ∈ UMap.keys row -> k ∈ nodes adj.
Proof.
  intros Hin. unfold nodes.
  split; [|intros k Hk]; apply list_elem_of_In, in_flat_map;
    exists (user, row); (split; [apply list_elem_of_In; exact Hin|]).
  - simpl. auto.
  - simpl. right. apply list_elem_of_In. exact Hk.
Qed.

Lemma bfs_total fuel adj minCoVotes queue visited community :
  length queue + size ((list_to_set (nodes adj) : gset string) ∖ visited)
  < fuel ->
  is_Some (bfs fuel adj minCoVotes queue visited community).
Proof.
  revert queue visited community.
  induction fuel as [|fuel IH]; intros queue visited community Hlt; [lia|].
  simpl. destruct queue as [|current rest]; [eauto|].
  destruct (UMap.find current adj) as [row|] eqn:Hfind.
  - destruct (visitNeighbors minCoVotes row (rest, visited))
      as [queue' visited'] eqn:Hvisit.
    apply IH.
    pose proof (visitNeighbors_measure (list_to_set (nodes adj)) minCoVotes
                  row rest visited) as Hm.
    rewrite Hvisit in Hm. simpl in Hm, Hlt. rewrite Hm; [lia|].
    intros k Hk. apply elem_of_list_to_set.
    apply find_elem_of in Hfind.
    apply (nodes_entry adj current row Hfind). exact Hk.
  - apply IH. simpl in Hlt. lia.
Qed.

Lemma size_list_to_set_le (l : list string) :
  size (list_to_set l : gset string) <= length l.
Proof.
  induction l as [|x l IH]; cbn [length].
  - rewrite list_to_set_nil, size_empty. lia.
  - rewrite list_to_set_cons.
    rewrite (size_union_alt {[x]} (list_to_set l)), size_singleton.
    assert (size ((list_to_set l : gset string) ∖ {[x]})
            <= size (list_to_set l : gset string)).
    { apply subseteq_size. intros y Hy.
      apply elem_of_difference in Hy. tauto. }
    lia.
Qed.

Lemma size_nodes_le adj :
  size (list_to_set (nodes adj) : gset string) <= length (nodes adj).
Proof. apply size_list_to_set_le. Qed.

Lemma bfs_from_entry adj minCoVotes user row visited :
  (user, row) ∈ adj ->
  is_Some (bfs (bfsFuel adj) adj minCoVotes [user] ({[user]} ∪ visited) []).
Proof.
  intros Hin. apply bfs_total. unfold bfsFuel. simpl.
  pose proof (size_nodes_le adj) as Hle.
  assert (Hlt : size ((list_to_set (nodes adj) : gset string)
                      ∖ ({[user]} ∪ visited))
                < size (list_to_set (nodes adj) : gset string)).
  { apply subset_size. split.
    - intros x Hx. apply elem_of_difference in Hx. tauto.
    - intros Hsub.
      assert (Hu : user ∈ (list_to_set (nodes adj) : gset string)).
      { destruct (nodes_entry adj user row Hin) as [Huser _].
        apply elem_of_list_to_set. exact Huser. }
      apply Hsub, elem_of_difference in Hu.
      rewrite elem_of_union, elem_of_singleton in Hu. tauto. }
  lia.
Qed.

Local Arguments bfs : simpl never.

Lemma explore_total adj minCoVotes entries st :
  (forall entry, entry ∈ entries -> entry ∈ adj) ->
  is_Some (fold_left (exploreFrom adj minCoVotes) entries (Some st)).
Proof.
  revert st. induction entries as [|[user row] entries IH]; intros st Hsub;
    simpl; [eauto|].
  assert (Hrest : forall entry, entry ∈ entries -> entry ∈ adj).
  { intros entry Hentry. apply Hsub. right. exact Hentry. }
  destruct st as [communities visited]. simpl.
  case_bool_decide; [apply IH; assumption|].
  destruct (bfs_from_entry adj minCoVotes user row visited) as [[c v] Hbfs].
  { apply Hsub. left. }
  rewrite Hbfs. simpl. apply IH. assumption.
Qed.

(** The traversal always returns: the fuel is never exhausted. *)
Lemma detectCommunities_total minCoVotes g :
  detectCommunitiesOpt minCoVotes g = Some (detectCommunities minCoVotes g).
Proof.
  unfold detectCommunities, detectCommunitiesOpt.
  destruct (explore_total (adjacency g) minCoVotes (adjacency g) ([], ∅))
    as [st Hst]; [auto|].
  rewrite Hst. reflexivity.
Qed.

(** Only groups of two or more members are reported. *)
Lemma explore_sizes adj minCoVotes entries st communities visited :
  fold_left (exploreFrom adj minCoVotes) entries st
  = Some (communities, visited) ->
  (forall cs vis, st = Some (cs, vis) ->
                  Forall (fun c => 2 <= length c) cs) ->
  Forall (fun c => 2 <= length c) communities.
Proof.
  revert st. induction entries as [|entry entries IH]; intros st Hfold Hst;
    simpl in Hfold.
  - eapply Hst. exact Hfold.
  - eapply IH; [exact Hfold|].
    intros cs vis Hstep. destruct st as [[cs0 vis0]|]; [|discriminate].
    simpl in Hstep. specialize (Hst cs0 vis0 eq_refl).
    case_bool_decide; [injection Hstep as <- <-; assumption|].
    destruct (bfs _ _ _ _ _ _) as [[c v]|]; [|discriminate].
    simpl in Hstep. injection Hstep as <- <-.
    destruct (length c) as [|[|n]] eqn:E; [assumption|assumption|].
    apply Forall_app. split; [assumption|].
    constructor; [rewrite E; lia|constructor].
Qed.

Lemma detectCommunities_sizes minCoVotes g :
  Forall (fun c => 2 <= length c) (detectCommunities minCoVotes g).
Proof.
  pose proof (detectCommunities_total minCoVotes g) as Htotal.
  unfold detectCommunitiesOpt in Htotal.
  destruct (fold_left _ _ _) as [[communities visited]|] eqn:Hfold;
    [|discriminate].
  simpl in Htotal. injection Htotal as <-.
  eapply explore_sizes; [exact Hfold|].
  intros cs vis [= <- <-]. constructor.
Qed.

End Traversal.

(** ** Rational arithmetic of the score computations *)

Section DblFacts.

Local Open Scope Q_scope.

Lemma ltb_lt (x y : Q) : Dbl.ltb x y = true <-> x < y.
Proof.
  unfold Dbl.ltb. rewrite negb_true_iff.
  split.
  - intros H. apply Qnot_le_lt. intros Hle.
    apply Qle_bool_iff in Hle. congruence.
  - intros H. destruct (Qle_bool y x) eqn:E; [|reflexivity].
    apply Qle_bool_iff in E. exfalso. exact (Qlt_not_le _ _ H E).
Qed.

Lemma ltb_ge (x y : Q) : Dbl.ltb x y = false <-> y <= x.
Proof.
  unfold Dbl.ltb. rewrite negb_false_iff. apply Qle_bool_iff.
Qed.

Lemma min_Qmin (a b : Q) : Dbl.min a b == Qmin a b.
Proof.
  unfold Dbl.min. destruct (Dbl.ltb b a) eqn:E.
  - apply ltb_lt in E. symmetry. apply Q.min_r. apply Qlt_le_weak, E.
  - apply ltb_ge in E. symmetry. apply Q.min_l. exact E.
Qed.

Lemma min_le_l (a b : Q) : Dbl.min a b <= a.
Proof. rewrite min_Qmin. apply Q.le_min_l. Qed.

Lemma min_glb (a b c : Q) : c <= a -> c <= b -> c <= Dbl.min a b.
Proof. intros. rewrite min_Qmin. apply Q.min_glb; assumption. Qed.

Lemma max_Qmax (a b : Q) : Dbl.max a b == Qmax a b.
Proof.
  unfold Dbl.max. destruct (Dbl.ltb a b) eqn:E.
  - apply ltb_lt in E. symmetry. apply Q.max_r. apply Qlt_le_weak, E.
  - apply ltb_ge in E. symmetry. apply Q.max_l. exact E.
Qed.

Lemma max_bounds (a b lo hi : Q) :
  lo <= a <= hi -> lo <= b <= hi -> lo <= Dbl.max a b <= hi.
Proof.
  intros Ha Hb. unfold Dbl.max. destruct (Dbl.ltb a b); assumption.
Qed.

End DblFacts.

(** ** Collusion detection *)

Section CollusionFacts.

Import AntiAbuseEngine.

Lemma collusionUpdate_id e :
  e = collusionUpdate (suspiciousUsers e) (threatAlerts e) (alertCounter e)
        (collusionDetectionCache e) e.
Proof. destruct e. reflexivity. Qed.

Lemma collusionUpdate_twice s a n c s' a' n' c' e :
  collusionUpdate s' a' n' c' (collusionUpdate s a n c e)
  = collusionUpdate s' a' n' c' e.
Proof. destruct e. reflexivity. Qed.

Lemma fold_markUserSuspicious users reason e :
  exists suspicious,
    fold_left (fun e userId => markUserSuspicious userId reason e) users e
    = set_suspiciousUsers suspicious e.
Proof.
  revert e. induction users as [|u users IH]; intros e; simpl.
  - exists (suspiciousUsers e). destruct e. reflexivity.
  - destruct (IH (markUserSuspicious u reason e)) as [s Hs].
    exists s. rewrite Hs. destruct e. reflexivity.
Qed.

Lemma recordCommunity_update e community :
  exists suspicious alerts counter,
    recordCommunity e community
    = collusionUpdate suspicious alerts counter
        (collusionDetectionCache e
         ++ (if (length community <? 2)%nat then []
             else [collusionOf (coVotingGraph e) (collusionThreshold e)
                     community]))
        e.
Proof.
  unfold recordCommunity.
  destruct (length community <? 2)%nat.
  - exists (suspiciousUsers e), (threatAlerts e), (alertCounter e).
    rewrite app_nil_r. apply collusionUpdate_id.
  - destruct (CollusionDetectionResult.isSuspicious _).
    + match goal with
      | |- context [fold_left ?f ?us ?e0] =>
          destruct (fold_markUserSuspicious us [PartOfGroup] e0) as [s Hs]
      end.
      eexists s, _, _. rewrite Hs. destruct e. reflexivity.
    + exists (suspiciousUsers e), (threatAlerts e), (alertCounter e).
      destruct e. reflexivity.
Qed.

Lemma fold_recordCommunity communities e :
  exists suspicious alerts counter,
    fold_left recordCommunity communities e
    = collusionUpdate suspicious alerts counter
        (collusionDetectionCache e
         ++ map (collusionOf (coVotingGraph e) (collusionThreshold e))
              (filter (fun c => (2 <= length c)%nat) communities))
        e.
Proof.
  revert e. induction communities as [|c communities IH]; intros e; simpl.
  - exists (suspiciousUsers e), (threatAlerts e), (alertCounter e).
    rewrite app_nil_r. apply collusionUpdate_id.
  - destruct (recordCommunity_update e c) as (s & a & n & Hstep).
    destruct (IH (recordCommunity e c)) as (s' & a' & n' & Hfold).
    exists s', a', n'. rewrite Hfold, Hstep, collusionUpdate_twice.
    f_equal. simpl. rewrite <- app_assoc. f_equal.
    rewrite filter_cons.
    destruct (length c <? 2)%nat eqn:E.
    + apply Nat.ltb_lt in E. rewrite decide_False by lia. reflexivity.
    + apply Nat.ltb_ge in E. rewrite decide_True by lia. reflexivity.
Qed.

Lemma filter_Forall_id {A : Type} (P : A -> Prop) `{forall x, Decision (P x)}
      (l : list A) :
  Forall P l -> filter P l = l.
Proof.
  induction 1 as [|x l Hx Hl IH]; [reflexivity|].
  rewrite filter_cons, decide_True by assumption. congruence.
Qed.

(** The engine after [updateCollusionDetection]: the cache holds one
    result per detected community, in the order of detection. *)
Lemma updateCollusionDetection_update e :
  exists suspicious alerts counter,
    updateCollusionDetection e
    = collusionUpdate suspicious alerts counter
        (map (collusionOf (coVotingGraph e) (collusionThreshold e))
           (CoVotingGraph.detectCommunities (minCoVotesForCollusion e)
              (coVotingGraph e)))
        e.
Proof.
  unfold updateCollusionDetection.
  destruct (fold_recordCommunity
              (CoVotingGraph.detectCommunities
                 (minCoVotesForCollusion (set_collusionDetectionCache [] e))
                 (coVotingGraph (set_collusionDetectionCache [] e)))
              (set_collusionDetectionCache [] e)) as (s & a & n & Hfold).
  exists s, a, n. rewrite Hfold. simpl.
  rewrite filter_Forall_id by apply detectCommunities_sizes.
  destruct e. reflexivity.
Qed.

Lemma collusionOf_userGroup g threshold community :
  CollusionDetectionResult.userGroup (collusionOf g threshold community)
  = community.
Proof. unfold collusionOf. destruct (pairMetrics _ _ _). reflexivity. Qed.


End CollusionFacts.

(** Two graphs that hold the same two votes, registered in opposite
    orders, have the same co-vote counts. *)
Lemma swapped_votes_same_counts (x y : string) :
  CoVotingGraph.getCoVoteCount x y
    (CoVotingGraph.build [("a", "p"); ("b", "p")]%string)
  = CoVotingGraph.getCoVoteCount x y
      (CoVotingGraph.build [("b", "p"); ("a", "p")]%string).
Proof.
  rewrite !getCoVoteCount_weight.
  change (CoVotingGraph.build [("a", "p"); ("b", "p")]%string)
    with (CoVotingGraph.addVote "b" "p"
            (CoVotingGraph.addVote "a" "p" CoVotingGraph.empty)).
  change (CoVotingGraph.build [("b", "p"); ("a", "p")]%string)
    with (CoVotingGraph.addVote "a" "p"
            (CoVotingGraph.addVote "b" "p" CoVotingGraph.empty)).
  rewrite !addVote_weight. simpl. unfold link.
  repeat case_bool_decide; try lia; exfalso; intuition congruence.
Qed.

(** C5, as stated, fails: the order of the reported list is the iteration
    order of the hash containers, which depends on the order in which the
    votes were registered, and it is not a sort by user identifier.  Two
    graphs that hold the same two votes, registered in opposite orders,
    have the same co-vote count for every pair of users, yet
    [detectCommunities] returns two different lists for them (the one
    community with its two members in opposite orders), so at most one of
    the lists is sorted. *)
Lemma detectCommunities_order_depends_on_history :
  let g1 := CoVotingGraph.build [("a", "p"); ("b", "p")]%string in
  let g2 := CoVotingGraph.build [("b", "p"); ("a", "p")]%string in
  (forall x y,
      CoVotingGraph.getCoVoteCount x y g1
      = CoVotingGraph.getCoVoteCount x y g2)
  /\ CoVotingGraph.detectCommunities 1 g1
     <> CoVotingGraph.detectCommunities 1 g2.
Proof.
  split; [apply swapped_votes_same_counts|].
  vm_compute. discriminate.
Qed.

(** ** Collusion score *)

Section CollusionScore.

Import AntiAbuseEngine CollusionSpec.

Lemma pairRow_spec g ci others total edges :
  pairRow g ci others (total, edges)
  = (total
     + foldr Z.add 0
         (map (fun xy => CoVotingGraph.getCoVoteCount xy.1 xy.2 g)
            (filter (fun xy => 0 < CoVotingGraph.getCoVoteCount xy.1 xy.2 g)
               (map (pair ci) others))),
     edges
     + Z.of_nat
         (length
            (filter (fun xy => 0 < CoVotingGraph.getCoVoteCount xy.1 xy.2 g)
               (map (pair ci) others)))).
Proof.
  revert total edges.
  induction others as [|cj others IH]; intros total edges.
  - simpl. f_equal; lia.
  - unfold pairRow in *. cbn [fold_left map]. rewrite filter_cons. cbn [fst snd].
    destruct (0 <? CoVotingGraph.getCoVoteCount ci cj g) eqn:E.
    + apply Z.ltb_lt in E. rewrite decide_True by assumption.
      rewrite IH. cbn [map foldr length fst snd]. f_equal; lia.
    + apply Z.ltb_ge in E. rewrite decide_False by lia.
      apply IH.
Qed.

Lemma pairMetrics_spec g community total edges :
  pairMetrics g community (total, edges)
  = (total + totalCoVotes g community, edges + realizedEdges g community).
Proof.
  revert total edges.
  induction community as [|ci rest IH]; intros total edges.
  - unfold totalCoVotes, realizedEdges, realizedPairs. cbn [memberPairs].
    rewrite filter_nil. simpl. f_equal; lia.
  - cbn [pairMetrics]. rewrite pairRow_spec, IH.
    unfold totalCoVotes, realizedEdges, realizedPairs. cbn [memberPairs].
    rewrite filter_app, map_app, foldr_app, length_app.
    assert (Hsum : forall (l : list Z) (acc : Z),
               foldr Z.add acc l = acc + foldr Z.add 0 l).
    { induction l as [|z l IHl]; intros acc; simpl; [lia|].
      rewrite IHl. lia. }
    rewrite (Hsum _ (foldr Z.add 0 _)).
    f_equal; lia.
Qed.

Lemma realizedEdges_nonneg g community : 0 <= realizedEdges g community.
Proof. unfold realizedEdges. lia. Qed.

Lemma possibleEdges_quot community :
  Z.quot (Z.of_nat (length community) * (Z.of_nat (length community) - 1)) 2
  = possibleEdges community.
Proof.
  unfold possibleEdges. apply Z.quot_div_nonneg; [|lia].
  destruct (length community); [simpl; lia|nia].
Qed.

Lemma collusionOf_score g threshold community :
  (CollusionDetectionResult.collusionScore (collusionOf g threshold community)
   == clampedScore g community)%Q.
Proof.
  unfold collusionOf, clampedScore.
  rewrite (pairMetrics_spec g community 0 0).
  rewrite !Z.add_0_l. cbn [CollusionDetectionResult.collusionScore].
  rewrite min_Qmin, possibleEdges_quot.
  assert (Hd : ((if 0 <? possibleEdges community
                 then Dbl.of_Z (realizedEdges g community)
                      / Dbl.of_Z (possibleEdges community)
                 else 0) == density g community)%Q).
  { unfold density, Dbl.of_Z.
    destruct (0 <? possibleEdges community) eqn:E; [reflexivity|].
    apply Z.ltb_ge in E.
    assert (Hz : possibleEdges community = 0).
    { assert (0 <= possibleEdges community); [|lia].
      unfold possibleEdges. apply Z.div_pos; [|lia].
      destruct (length community); [simpl; lia|nia]. }
    rewrite Hz. unfold Qdiv, Qinv. simpl. rewrite Qmult_0_r. reflexivity. }
  assert (Ha : ((if 0 <? realizedEdges g community
                 then Dbl.of_Z (totalCoVotes g community)
                      / Dbl.of_Z (realizedEdges g community)
                 else 0) == avgCoVotes g community)%Q).
  { unfold avgCoVotes, Dbl.of_Z.
    pose proof (realizedEdges_nonneg g community).
    destruct (0 <? realizedEdges g community) eqn:E.
    - apply Z.ltb_lt in E.
      destruct (realizedEdges g community =? 0) eqn:E0; [|reflexivity].
      apply Z.eqb_eq in E0. lia.
    - apply Z.ltb_ge in E.
      destruct (realizedEdges g community =? 0) eqn:E0; [reflexivity|].
      apply Z.eqb_neq in E0. lia. }
  rewrite Hd, Ha. reflexivity.
Qed.

End CollusionScore.




(** ** Bot likelihood *)

Section BotFacts.

Import AntiAbuseEngine.

Local Open Scope Q_scope.

Lemma Qdiv_nonneg (a b : Q) : 0 <= a -> 0 < b -> 0 <= a / b.
Proof. intros Ha Hb. apply Qle_shift_div_l; [assumption|lra]. Qed.

Lemma Qdiv_le_1 (a b : Q) : 0 < b -> a <= b -> a / b <= 1.
Proof. intros Hb Hab. apply Qle_shift_div_r; [assumption|lra]. Qed.

Lemma Qdiv_ge_1 (a b : Q) : 0 < b -> b <= a -> 1 <= a / b.
Proof. intros Hb Hab. apply Qle_shift_div_l; [assumption|lra]. Qed.

Lemma Qdiv_0_l (b : Q) : 0 / b == 0.
Proof. unfold Qdiv. apply Qmult_0_l. Qed.

Lemma of_nat_nonneg (n : nat) : 0 <= Dbl.of_nat n.
Proof.
  unfold Dbl.of_nat. change 0 with (inject_Z 0).
  rewrite <- Zle_Qle. lia.
Qed.

Lemma of_Z_pos (z : Z) : (0 < z)%Z -> 0 < Dbl.of_Z z.
Proof.
  intros Hz. unfold Dbl.of_Z. change 0 with (inject_Z 0).
  rewrite <- Zlt_Qlt. exact Hz.
Qed.

Lemma getRate_nonneg (w : SlidingWindow.t) :
  (0 < SlidingWindow.windowDuration w)%Z -> 0 <= SlidingWindow.getRate w.
Proof.
  intros Hw. unfold SlidingWindow.getRate.
  destruct (SlidingWindow.timestamps w) as [|ts rest]; [lra|].
  assert (0 <= Dbl.of_nat (length (ts :: rest))
               / Dbl.of_Z (SlidingWindow.windowDuration w)).
  { apply Qdiv_nonneg; [apply of_nat_nonneg|apply of_Z_pos, Hw]. }
  lra.
Qed.

Lemma calculateVotingVelocity_nonneg u e :
  (forall w, userVelocityWindows e !! u = Some w ->
             (0 < SlidingWindow.windowDuration w)%Z) ->
  0 <= calculateVotingVelocity u e.
Proof.
  intros Hw. unfold calculateVotingVelocity.
  destruct (userVelocityWindows e !! u) as [w|]; [|lra].
  apply getRate_nonneg, Hw. reflexivity.
Qed.

(** The quantities the blend is computed from. *)
Lemma botLikelihood_unfold u e :
  BotDetectionResult.botLikelihood (botDetectionOf u e)
  = Dbl.min 1
      (0.4 * Dbl.min 1
               (calculateVotingVelocity u e / (velocityThreshold e * 2))
       + 0.4 * (if Dbl.ltb 0 (calculateAvgInterVoteGap u e)
                   && Dbl.ltb (calculateAvgInterVoteGap u e)
                              (deltaThresholdMs e)
                then 1 - calculateAvgInterVoteGap u e / deltaThresholdMs e
                else 0)
       + (if (Z.of_nat (size (HMap.at_ u ∅ (userDevices e))) =? 1)%Z
          then 0.3 else 0)
       + (if (Z.of_nat (size (HMap.at_ u ∅ (userIPs e))) =? 1)%Z
          then 0.2 else 0)).
Proof. reflexivity. Qed.

Lemma gapScore_bounds (gap delta : Q) :
  0 <= (if Dbl.ltb 0 gap && Dbl.ltb gap delta then 1 - gap / delta else 0)
  <= 1.
Proof.
  destruct (Dbl.ltb 0 gap && Dbl.ltb gap delta) eqn:E; [|lra].
  apply andb_true_iff in E as [Hpos Hlt].
  apply ltb_lt in Hpos. apply ltb_lt in Hlt.
  assert (0 < delta) by lra.
  assert (gap / delta <= 1) by (apply Qdiv_le_1; lra).
  assert (0 <= gap / delta) by (apply Qdiv_nonneg; lra).
  lra.
Qed.

Lemma gapScore_gapTerm (gap delta : Q) :
  (if Dbl.ltb 0 gap && Dbl.ltb gap delta then 1 - gap / delta else 0)
  = BotSpec.gapTerm gap delta.
Proof.
  unfold BotSpec.gapTerm.
  destruct (Qlt_le_dec 0 gap) as [Hpos|Hpos].
  - apply ltb_lt in Hpos as ->. simpl.
    destruct (Qlt_le_dec gap delta) as [Hlt|Hlt].
    + apply ltb_lt in Hlt as ->. reflexivity.
    + apply ltb_ge in Hlt as ->. reflexivity.
  - apply ltb_ge in Hpos as ->. reflexivity.
Qed.

Lemma botLikelihood_le_1 u e :
  BotDetectionResult.botLikelihood (botDetectionOf u e) <= 1.
Proof. rewrite botLikelihood_unfold. apply min_le_l. Qed.

Lemma botLikelihood_nonneg u e :
  0 < velocityThreshold e ->
  0 <= calculateVotingVelocity u e ->
  0 <= BotDetectionResult.botLikelihood (botDetectionOf u e).
Proof.
  intros Hvt Hrate. rewrite botLikelihood_unfold.
  apply min_glb; [lra|].
  assert (Hv : 0 <= Dbl.min 1 (calculateVotingVelocity u e
                               / (velocityThreshold e * 2))).
  { apply min_glb; [lra|]. apply Qdiv_nonneg; lra. }
  pose proof (gapScore_bounds (calculateAvgInterVoteGap u e)
                (deltaThresholdMs e)) as Hg.
  destruct (Z.of_nat (size (HMap.at_ u ∅ (userDevices e))) =? 1)%Z;
    destruct (Z.of_nat (size (HMap.at_ u ∅ (userIPs e))) =? 1)%Z; lra.
Qed.

Lemma botLikelihood_blend u e :
  BotDetectionResult.botLikelihood (botDetectionOf u e)
  == BotSpec.blend (calculateVotingVelocity u e)
       (calculateAvgInterVoteGap u e)
       (velocityThreshold e) (deltaThresholdMs e)
       (size (HMap.at_ u ∅ (userDevices e)))
       (size (HMap.at_ u ∅ (userIPs e))).
Proof.
  rewrite botLikelihood_unfold. unfold BotSpec.blend.
  rewrite gapScore_gapTerm, !min_Qmin.
  assert (Hind : forall (n : nat) (x : Q),
             (if (Z.of_nat n =? 1)%Z then x else 0)
             == x * BotSpec.indicator (n =? 1)%nat).
  { intros n x. unfold BotSpec.indicator.
    destruct (Z.of_nat n =? 1)%Z eqn:E1; destruct (n =? 1)%nat eqn:E2;
      try ring.
    - apply Z.eqb_eq in E1. apply Nat.eqb_neq in E2. lia.
    - apply Z.eqb_neq in E1. apply Nat.eqb_eq in E2. lia. }
  rewrite !Hind.
  assert (Hdiv : calculateVotingVelocity u e / (velocityThreshold e * 2)
                 == calculateVotingVelocity u e / (2 * velocityThreshold e)).
  { apply Qdiv_comp; [reflexivity|ring]. }
  rewrite Hdiv. reflexivity.
Qed.

Lemma botLikelihood_noEvents u e :
  userVelocityWindows e !! u = None ->
  HMap.at_ u ∅ (userDevices e) = ∅ ->
  HMap.at_ u ∅ (userIPs e) = ∅ ->
  BotDetectionResult.botLikelihood (botDetectionOf u e) == 0.
Proof.
  intros Hw Hd Hi. rewrite botLikelihood_unfold.
  unfold calculateVotingVelocity, calculateAvgInterVoteGap.
  rewrite Hw, Hd, Hi, size_empty. simpl.
  rewrite !min_Qmin, Qdiv_0_l.
  rewrite (Q.min_r 1 0) by lra.
  rewrite Q.min_r by lra. ring.
Qed.

Lemma botLikelihood_saturated_velocity u e :
  0 < velocityThreshold e ->
  2 * velocityThreshold e <= calculateVotingVelocity u e ->
  Dbl.min 1 (calculateVotingVelocity u e / (velocityThreshold e * 2)) == 1
  /\ 0.4 <= BotDetectionResult.botLikelihood (botDetectionOf u e).
Proof.
  intros Hvt Hrate.
  assert (Hv : Dbl.min 1 (calculateVotingVelocity u e
                          / (velocityThreshold e * 2)) == 1).
  { rewrite min_Qmin. apply Q.min_l. apply Qdiv_ge_1; lra. }
  split; [exact Hv|].
  rewrite botLikelihood_unfold. apply min_glb; [lra|].
  rewrite Hv.
  pose proof (gapScore_bounds (calculateAvgInterVoteGap u e)
                (deltaThresholdMs e)) as Hg.
  destruct (Z.of_nat (size (HMap.at_ u ∅ (userDevices e))) =? 1)%Z;
    destruct (Z.of_nat (size (HMap.at_ u ∅ (userIPs e))) =? 1)%Z; lra.
Qed.

End BotFacts.

(** ** Looked-up maps *)

Section HMapFacts.

Context {V : Type}.
Implicit Types (m : gmap string V) (k : string) (d : V).

Lemma at_touch k k' d m : HMap.at_ k d (HMap.touch k' d m) = HMap.at_ k d m.
Proof.
  unfold HMap.at_, HMap.touch.
  destruct (m !! k') as [v|] eqn:E; [reflexivity|].
  destruct (decide (k' = k)) as [->|Hne].
  - rewrite lookup_insert_eq, E. reflexivity.
  - rewrite lookup_insert_ne by assumption. reflexivity.
Qed.

Lemma at_insert_eq k d v m : HMap.at_ k d (<[k := v]> m) = v.
Proof. unfold HMap.at_. rewrite lookup_insert_eq. reflexivity. Qed.

Lemma at_insert_ne k k' d v m :
  k' <> k -> HMap.at_ k d (<[k' := v]> m) = HMap.at_ k d m.
Proof. intros. unfold HMap.at_. rewrite lookup_insert_ne; auto. Qed.

Lemma at_modify_ne k k' d f m :
  k' <> k -> HMap.at_ k d (HMap.modify k' d f m) = HMap.at_ k d m.
Proof. intros. unfold HMap.modify. apply at_insert_ne. assumption. Qed.

Lemma at_delete_eq k d m : HMap.at_ k d (delete k m) = d.
Proof. unfold HMap.at_. rewrite lookup_delete_eq. reflexivity. Qed.

Lemma at_delete_ne k k' d m :
  k' <> k -> HMap.at_ k d (delete k' m) = HMap.at_ k d m.
Proof. intros. unfold HMap.at_. rewrite lookup_delete_ne; auto. Qed.

End HMapFacts.

(** ** The invariant of the reachable states *)

(** Goals about a field of an engine built by [if]s over field updates. *)
Ltac frame :=
  repeat match goal with
         | |- context [if ?b then _ else _] => destruct b
         end;
  reflexivity.

Section Invariant.

Import AntiAbuseEngine.

Local Open Scope Q_scope.

Lemma updateBotDetection_botDetectionCache u e :
  botDetectionCache (updateBotDetection u e)
  = <[u := botDetectionOf u e]> (botDetectionCache e).
Proof. unfold updateBotDetection. frame. Qed.

Lemma updateBotDetection_userDevices u e :
  userDevices (updateBotDetection u e) = HMap.touch u ∅ (userDevices e).
Proof. unfold updateBotDetection. frame. Qed.

Lemma updateBotDetection_userIPs u e :
  userIPs (updateBotDetection u e) = HMap.touch u ∅ (userIPs e).
Proof. unfold updateBotDetection. frame. Qed.

Lemma updateBotDetection_userVoteHistory u e k :
  HMap.at_ k [] (userVoteHistory (updateBotDetection u e))
  = HMap.at_ k [] (userVoteHistory e).
Proof.
  unfold updateBotDetection.
  repeat match goal with
         | |- context [if ?b then _ else _] => destruct b
         end; simpl; try reflexivity; apply at_touch.
Qed.

Lemma updateBotDetection_userVelocityWindows u e :
  userVelocityWindows (updateBotDetection u e) = userVelocityWindows e.
Proof. unfold updateBotDetection. frame. Qed.

Lemma updateBotDetection_collusionDetectionCache u e :
  collusionDetectionCache (updateBotDetection u e) = collusionDetectionCache e.
Proof. unfold updateBotDetection. frame. Qed.

Lemma updateBotDetection_userCredibilityScores u e :
  userCredibilityScores (updateBotDetection u e) = userCredibilityScores e.
Proof. unfold updateBotDetection. frame. Qed.

Lemma updateBotDetection_velocityThreshold u e :
  velocityThreshold (updateBotDetection u e) = velocityThreshold e.
Proof. unfold updateBotDetection. frame. Qed.

Lemma updateBotDetection_velocityWindowSeconds u e :
  velocityWindowSeconds (updateBotDetection u e) = velocityWindowSeconds e.
Proof. unfold updateBotDetection. frame. Qed.

Lemma updateBotDetection_coVotingGraph u e :
  coVotingGraph (updateBotDetection u e) = coVotingGraph e.
Proof. unfold updateBotDetection. frame. Qed.

Lemma botDetectionOf_bounded u e :
  Consistent e ->
  0 <= BotDetectionResult.botLikelihood (botDetectionOf u e) <= 1.
Proof.
  intros He. split; [|apply botLikelihood_le_1].
  apply botLikelihood_nonneg; [apply He|].
  apply calculateVotingVelocity_nonneg. intros w Hw.
  exact (windows_pos e He u w Hw).
Qed.

Lemma Consistent_updateBotDetection u e :
  Consistent e -> Consistent (updateBotDetection u e).
Proof.
  intros He. split.
  - rewrite updateBotDetection_velocityThreshold. apply He.
  - rewrite updateBotDetection_velocityWindowSeconds. apply He.
  - rewrite updateBotDetection_userVelocityWindows. apply He.
  - rewrite updateBotDetection_botDetectionCache. intros k r Hk.
    destruct (decide (u = k)) as [->|Hne].
    + rewrite lookup_insert_eq in Hk. injection Hk as <-.
      apply botDetectionOf_bounded, He.
    + rewrite lookup_insert_ne in Hk by assumption.
      exact (botCache_bounded e He k r Hk).
  - rewrite updateBotDetection_collusionDetectionCache. apply He.
  - rewrite updateBotDetection_userCredibilityScores. apply He.
  - intros k Hk. unfold noEvents in Hk.
    rewrite updateBotDetection_userVoteHistory in Hk.
    rewrite updateBotDetection_userVelocityWindows,
      updateBotDetection_userDevices, updateBotDetection_userIPs, !at_touch.
    exact (noEvents_untracked e He k Hk).
  - intros k r Hk Hr. unfold noEvents in Hk.
    rewrite updateBotDetection_userVoteHistory in Hk.
    rewrite updateBotDetection_botDetectionCache in Hr.
    destruct (decide (u = k)) as [->|Hne].
    + rewrite lookup_insert_eq in Hr. injection Hr as <-.
      destruct (noEvents_untracked e He k Hk) as (Hw & Hd & Hi).
      apply botLikelihood_noEvents; assumption.
    + rewrite lookup_insert_ne in Hr by assumption.
      exact (noEvents_botCache e He k r Hk Hr).
Qed.

Lemma Consistent_detectBot u e :
  Consistent e -> Consistent (detectBot u e).2.
Proof.
  intros He. unfold detectBot.
  destruct (botDetectionCache e !! u); simpl; [assumption|].
  apply Consistent_updateBotDetection, He.
Qed.

Lemma detectBot_bounded u e :
  Consistent e ->
  0 <= BotDetectionResult.botLikelihood (detectBot u e).1 <= 1.
Proof.
  intros He. unfold detectBot.
  destruct (botDetectionCache e !! u) as [r|] eqn:E; simpl.
  - exact (botCache_bounded e He u r E).
  - rewrite updateBotDetection_botDetectionCache, at_insert_eq.
    apply botDetectionOf_bounded, He.
Qed.

End Invariant.

Section InvariantIngestion.

Import AntiAbuseEngine.

Local Open Scope Q_scope.

Lemma addEvent_windowDuration ts w :
  SlidingWindow.windowDuration (SlidingWindow.addEvent ts w)
  = SlidingWindow.windowDuration w.
Proof. reflexivity. Qed.

Lemma recordVoteEvent_updateBotDetection u p ts ip dev e :
  exists mid,
    recordVoteEvent u p ts ip dev e = updateBotDetection u mid
    /\ velocityThreshold mid = velocityThreshold e
    /\ velocityWindowSeconds mid = velocityWindowSeconds e
    /\ userVelocityWindows mid
       = <[u := SlidingWindow.addEvent ts
                  (HMap.at_ u (SlidingWindow.make (velocityWindowSeconds e))
                     (userVelocityWindows e))]> (userVelocityWindows e)
    /\ botDetectionCache mid = botDetectionCache e
    /\ collusionDetectionCache mid = collusionDetectionCache e
    /\ userCredibilityScores mid = userCredibilityScores e
    /\ HMap.at_ u [] (userVoteHistory mid) <> []
    /\ (forall k, k <> u ->
          HMap.at_ k [] (userVoteHistory mid)
          = HMap.at_ k [] (userVoteHistory e)
          /\ HMap.at_ k ∅ (userDevices mid) = HMap.at_ k ∅ (userDevices e)
          /\ HMap.at_ k ∅ (userIPs mid) = HMap.at_ k ∅ (userIPs e)).
Proof.
  unfold recordVoteEvent.
  match goal with
  | |- exists mid, updateBotDetection _ ?m = _ /\ _ => exists m
  end.
  split; [reflexivity|].
  repeat (split; [frame|]).
  split.
  - assert (Hhist : forall x,
               HMap.at_ u [] (<[u := HMap.at_ u [] (userVoteHistory e) ++ [x]]>
                                (userVoteHistory e)) <> []).
    { intros x. rewrite at_insert_eq. destruct (HMap.at_ u [] _); discriminate. }
    repeat match goal with
           | |- context [if ?b then _ else _] => destruct b
           end; simpl; apply Hhist.
  - intros k Hk.
    repeat match goal with
           | |- context [if ?b then _ else _] => destruct b
           end; simpl;
      rewrite ?at_modify_ne, ?at_insert_ne by congruence; auto.
Qed.

Lemma Consistent_recordVoteEvent u p ts ip dev e :
  Consistent e -> Consistent (recordVoteEvent u p ts ip dev e).
Proof.
  intros He.
  destruct (recordVoteEvent_updateBotDetection u p ts ip dev e)
    as (mid & -> & Hvt & Hws & Hwin & Hbot & Hcol & Hcred & Hhist & Hother).
  apply Consistent_updateBotDetection. split.
  - rewrite Hvt. apply He.
  - rewrite Hws. apply He.
  - rewrite Hwin. intros k w Hk.
    destruct (decide (u = k)) as [->|Hne].
    + rewrite lookup_insert_eq in Hk. injection Hk as <-.
      rewrite addEvent_windowDuration. unfold HMap.at_.
      destruct (userVelocityWindows e !! k) as [w|] eqn:E; simpl.
      * exact (windows_pos e He k w E).
      * apply He.
    + rewrite lookup_insert_ne in Hk by assumption.
      exact (windows_pos e He k w Hk).
  - rewrite Hbot. apply He.
  - rewrite Hcol. apply He.
  - rewrite Hcred. apply He.
  - intros k Hk. unfold noEvents in Hk.
    destruct (decide (k = u)) as [->|Hne]; [contradiction|].
    destruct (Hother k Hne) as (Hh & Hd & Hi).
    rewrite Hh in Hk. rewrite Hwin, Hd, Hi.
    rewrite lookup_insert_ne by congruence.
    exact (noEvents_untracked e He k Hk).
  - intros k r Hk Hr. unfold noEvents in Hk.
    destruct (decide (k = u)) as [->|Hne]; [contradiction|].
    destruct (Hother k Hne) as (Hh & _).
    rewrite Hh in Hk. rewrite Hbot in Hr.
    exact (noEvents_botCache e He k r Hk Hr).
Qed.

End InvariantIngestion.

Section InvariantCollusion.

Import AntiAbuseEngine CollusionSpec.

Local Open Scope Q_scope.

Lemma Qdiv_Z_nonneg (a b : Z) :
  (0 <= a)%Z -> (0 <= b)%Z -> 0 <= inject_Z a / inject_Z b.
Proof.
  intros Ha Hb.
  assert (Ha' : 0 <= inject_Z a).
  { change 0 with (inject_Z 0). rewrite <- Zle_Qle. exact Ha. }
  destruct (Z.eq_dec b 0%Z) as [->|Hne].
  - unfold Qdiv. simpl. rewrite Qmult_0_r. lra.
  - apply Qdiv_nonneg; [assumption|].
    change 0 with (inject_Z 0). rewrite <- Zlt_Qlt. lia.
Qed.

Lemma totalCoVotes_nonneg g community : (0 <= totalCoVotes g community)%Z.
Proof.
  unfold totalCoVotes, realizedPairs.
  induction (memberPairs community) as [|xy l IH].
  - rewrite filter_nil. simpl. lia.
  - rewrite filter_cons. case_decide; simpl; lia.
Qed.

Lemma possibleEdges_nonneg community : (0 <= possibleEdges community)%Z.
Proof.
  unfold possibleEdges. apply Z.div_pos; [|lia].
  destruct (length community); [simpl; lia|nia].
Qed.

Lemma clampedScore_nonneg g community : 0 <= clampedScore g community.
Proof.
  unfold clampedScore. apply Q.min_glb; [lra|].
  assert (Hd : 0 <= density g community).
  { unfold density. apply Qdiv_Z_nonneg;
      [apply realizedEdges_nonneg|apply possibleEdges_nonneg]. }
  assert (Ha : 0 <= avgCoVotes g community).
  { unfold avgCoVotes. destruct (realizedEdges g community =? 0)%Z; [lra|].
    apply Qdiv_Z_nonneg;
      [apply totalCoVotes_nonneg|apply realizedEdges_nonneg]. }
  assert (Hq : 0 <= avgCoVotes g community / 20)
    by (apply Qdiv_nonneg; lra).
  revert Hq. generalize (avgCoVotes g community / 20). intros q Hq. lra.
Qed.

Lemma collusionOf_bounded g threshold community :
  0 <= CollusionDetectionResult.collusionScore
         (collusionOf g threshold community) <= 1.
Proof.
  split.
  - rewrite collusionOf_score. apply clampedScore_nonneg.
  - unfold collusionOf. destruct (pairMetrics _ _ _). simpl. apply min_le_l.
Qed.

Lemma Consistent_collusionUpdate s a n cache e :
  Consistent e ->
  (forall r, r ∈ cache ->
             0 <= CollusionDetectionResult.collusionScore r <= 1) ->
  Consistent (collusionUpdate s a n cache e).
Proof.
  intros He Hcache. split; try apply He.
  exact Hcache.
Qed.

Lemma Consistent_updateCollusionDetection e :
  Consistent e -> Consistent (updateCollusionDetection e).
Proof.
  intros He.
  destruct (updateCollusionDetection_update e) as (s & a & n & ->).
  apply Consistent_collusionUpdate; [assumption|].
  intros r Hr. apply list_elem_of_fmap in Hr as (c & -> & _).
  apply collusionOf_bounded.
Qed.

End InvariantCollusion.

Section InvariantCredibility.

Import AntiAbuseEngine.

Local Open Scope Q_scope.

Lemma accountAge_bounded (n : nat) : 0 <= Dbl.min 1 (Dbl.of_nat n / 50) <= 1.
Proof.
  split; [|apply min_le_l].
  apply min_glb; [lra|].
  apply Qdiv_nonneg; [apply of_nat_nonneg|lra].
Qed.

Lemma deviceDiversityScoreOf_bounded (n : Z) :
  0.3 <= deviceDiversityScoreOf n <= 0.8.
Proof.
  unfold deviceDiversityScoreOf.
  destruct (n =? 0)%Z; [lra|].
  destruct (n =? 1)%Z; [lra|].
  destruct (n =? 2)%Z; lra.
Qed.

Lemma collusionScoreFor_fold_bounded u cache score :
  (forall r, r ∈ cache ->
             0 <= CollusionDetectionResult.collusionScore r <= 1) ->
  0 <= score <= 1 ->
  0 <= fold_left
         (fun score collusionResult =>
            fold_left
              (fun score user =>
                 if bool_decide (user = u)
                 then Dbl.max score
                        (CollusionDetectionResult.collusionScore
                           collusionResult)
                 else score)
              (CollusionDetectionResult.userGroup collusionResult) score)
         cache score <= 1.
Proof.
  intros Hcache. revert score.
  induction cache as [|r cache IH]; intros score Hscore; simpl;
    [exact Hscore|].
  apply IH.
  - intros r' Hr'. apply Hcache. right. exact Hr'.
  - assert (Hr : 0 <= CollusionDetectionResult.collusionScore r <= 1)
      by (apply Hcache; left).
    clear IH Hcache. revert score Hscore.
    induction (CollusionDetectionResult.userGroup r) as [|user users IHu];
      intros score Hscore; simpl; [exact Hscore|].
    apply IHu. destruct (bool_decide (user = u)); [|exact Hscore].
    apply max_bounds; assumption.
Qed.

Lemma collusionScoreFor_bounded u cache :
  (forall r, r ∈ cache ->
             0 <= CollusionDetectionResult.collusionScore r <= 1) ->
  0 <= collusionScoreFor u cache <= 1.
Proof.
  intros Hcache. unfold collusionScoreFor.
  apply collusionScoreFor_fold_bounded; [exact Hcache|lra].
Qed.

Lemma combine_bounded (a d b c : Q) :
  0 <= a <= 1 -> 0.3 <= d <= 0.8 -> 0 <= b <= 1 -> 0 <= c <= 1 ->
  0 <= TrustSpec.combine a d 0.5 0.5 b c 0.5 1 <= 1.
Proof. unfold TrustSpec.combine. intros. lra. Qed.

(** The score record and the state [calculateUserCredibility] returns. *)
Lemma calculateUserCredibility_unfold u e :
  let botResult := (detectBot u e).1 in
  let e1 := (detectBot u e).2 in
  let score :=
    {| UserCredibilityScore.userId := u;
       UserCredibilityScore.trustScore :=
         TrustSpec.combine
           (Dbl.min 1
              (Dbl.of_nat (length (HMap.at_ u [] (userVoteHistory e1))) / 50))
           (deviceDiversityScoreOf
              (Z.of_nat (size (HMap.at_ u ∅ (userDevices e1)))))
           0.5 0.5
           (BotDetectionResult.botLikelihood botResult)
           (collusionScoreFor u (collusionDetectionCache e1))
           0.5 1;
       UserCredibilityScore.accountAgeScore :=
         Dbl.min 1
           (Dbl.of_nat (length (HMap.at_ u [] (userVoteHistory e1))) / 50);
       UserCredibilityScore.deviceDiversityScore :=
         deviceDiversityScoreOf
           (Z.of_nat (size (HMap.at_ u ∅ (userDevices e1))));
       UserCredibilityScore.majorityAgreementScore := 0.5;
       UserCredibilityScore.verificationScore := 0.5;
       UserCredibilityScore.botLikelihood :=
         BotDetectionResult.botLikelihood botResult;
       UserCredibilityScore.collusionScore :=
         collusionScoreFor u (collusionDetectionCache e1);
       UserCredibilityScore.consistencyScore := 0.5;
       UserCredibilityScore.reportScore := 1 |} in
  calculateUserCredibility u e
  = (score,
     set_userCredibilityScores (<[u := score]> (userCredibilityScores e1))
       (set_userDevices (HMap.touch u ∅ (userDevices e1))
          (set_userVoteHistory (HMap.touch u [] (userVoteHistory e1)) e1))).
Proof.
  unfold calculateUserCredibility.
  destruct (detectBot u e) as [botResult e1]. reflexivity.
Qed.

Lemma calculateUserCredibility_bounded u e :
  Consistent e ->
  0 <= UserCredibilityScore.trustScore (calculateUserCredibility u e).1 <= 1.
Proof.
  intros He. rewrite calculateUserCredibility_unfold. simpl.
  pose proof (Consistent_detectBot u e He) as He1.
  apply combine_bounded.
  - apply accountAge_bounded.
  - apply deviceDiversityScoreOf_bounded.
  - apply detectBot_bounded, He.
  - apply collusionScoreFor_bounded. apply He1.
Qed.

Lemma Consistent_calculateUserCredibility u e :
  Consistent e -> Consistent (calculateUserCredibility u e).2.
Proof.
  intros He.
  pose proof (calculateUserCredibility_bounded u e He) as Hb.
  rewrite calculateUserCredibility_unfold in *. simpl in *.
  pose proof (Consistent_detectBot u e He) as He1.
  split; simpl; try apply He1.
  - intros k s Hk.
    destruct (decide (u = k)) as [->|Hne].
    + rewrite lookup_insert_eq in Hk. injection Hk as <-. exact Hb.
    + rewrite lookup_insert_ne in Hk by assumption.
      exact (credibility_bounded _ He1 k s Hk).
  - intros k Hk. unfold noEvents in Hk. simpl in Hk.
    rewrite at_touch in Hk. rewrite ?at_touch.
    exact (noEvents_untracked _ He1 k Hk).
  - intros k r Hk Hr. unfold noEvents in Hk. simpl in Hk.
    rewrite at_touch in Hk. exact (noEvents_botCache _ He1 k r Hk Hr).
Qed.

Lemma Consistent_calculateAllCredibilityScores e :
  Consistent e -> Consistent (calculateAllCredibilityScores e).
Proof.
  intros He. unfold calculateAllCredibilityScores.
  apply Consistent_updateCollusionDetection in He.
  revert He.
  generalize (map fst (map_to_list
                         (userVoteHistory (updateCollusionDetection e)))).
  generalize (updateCollusionDetection e).
  intros e0 users. revert e0.
  induction users as [|u users IH]; intros e0 He0; simpl; [assumption|].
  apply IH, Consistent_calculateUserCredibility, He0.
Qed.

Lemma Consistent_getUserTrustScore u e :
  Consistent e -> Consistent (getUserTrustScore u e).2.
Proof.
  intros He. unfold getUserTrustScore.
  destruct (userCredibilityScores e !! u); [assumption|].
  pose proof (Consistent_calculateUserCredibility u e He) as He'.
  destruct (calculateUserCredibility u e). exact He'.
Qed.

Lemma Consistent_make vt delta ws :
  0 < vt -> (0 < ws)%Z -> Consistent (make vt delta ws).
Proof.
  intros Hvt Hws. split; simpl; try assumption;
    try (intros ? ? H; rewrite lookup_empty in H; discriminate).
  - intros r Hr. inversion Hr.
  - intros u _. rewrite lookup_empty. unfold HMap.at_.
    rewrite !lookup_empty. auto.
  - intros ? ? _ H; rewrite lookup_empty in H; discriminate.
Qed.

Lemma Consistent_clearAll e : Consistent e -> Consistent (clearAll e).
Proof.
  intros He. split; simpl; try apply He;
    try (intros ? ? H; rewrite lookup_empty in H; discriminate).
  - intros r Hr. inversion Hr.
  - intros u _. rewrite lookup_empty. unfold HMap.at_.
    rewrite !lookup_empty. auto.
  - intros ? ? _ H; rewrite lookup_empty in H; discriminate.
Qed.

Lemma Consistent_clearUser u e : Consistent e -> Consistent (clearUser u e).
Proof.
  intros He. split; simpl; try apply He.
  - intros k w Hk. apply lookup_delete_Some in Hk as [_ Hk].
    exact (windows_pos e He k w Hk).
  - intros k r Hk. apply lookup_delete_Some in Hk as [_ Hk].
    exact (botCache_bounded e He k r Hk).
  - intros k s Hk. apply lookup_delete_Some in Hk as [_ Hk].
    exact (credibility_bounded e He k s Hk).
  - intros k Hk. unfold noEvents in Hk. simpl in Hk.
    destruct (decide (u = k)) as [->|Hne].
    + rewrite lookup_delete_eq, !at_delete_eq. auto.
    + rewrite at_delete_ne in Hk by assumption.
      rewrite lookup_delete_ne, !at_delete_ne by assumption.
      exact (noEvents_untracked e He k Hk).
  - intros k r Hk Hr. unfold noEvents in Hk. simpl in Hk.
    apply lookup_delete_Some in Hr as [Hne Hr].
    rewrite at_delete_ne in Hk by assumption.
    exact (noEvents_botCache e He k r Hk Hr).
Qed.

(** Every reachable state satisfies the invariant. *)
Lemma Reachable_Consistent e : Reachable e -> Consistent e.
Proof.
  induction 1.
  - apply Consistent_make; assumption.
  - apply Consistent_recordVoteEvent; assumption.
  - apply Consistent_detectBot; assumption.
  - apply Consistent_updateCollusionDetection; assumption.
  - apply Consistent_calculateUserCredibility; assumption.
  - apply Consistent_calculateAllCredibilityScores; assumption.
  - apply Consistent_getUserTrustScore; assumption.
  - split; simpl; apply IHReachable.
  - split; simpl; apply IHReachable.
  - split; simpl; try apply IHReachable. assumption.
  - apply Consistent_clearAll; assumption.
  - apply Consistent_clearUser; assumption.
  - split; simpl; apply IHReachable.
Qed.

End InvariantCredibility.

Section BotCache.

Import AntiAbuseEngine.

Lemma updateBotDetection_deltaThresholdMs u e :
  deltaThresholdMs (updateBotDetection u e) = deltaThresholdMs e.
Proof. unfold updateBotDetection. frame. Qed.

(** A bot-detection update does not change what bot detection computes. *)
Lemma botDetectionOf_updateBotDetection u k e :
  botDetectionOf u (updateBotDetection k e) = botDetectionOf u e.
Proof.
  unfold botDetectionOf, detectBotBehavior, calculateVotingVelocity,
    calculateAvgInterVoteGap.
  rewrite updateBotDetection_userVelocityWindows,
    updateBotDetection_userDevices, updateBotDetection_userIPs,
    updateBotDetection_velocityThreshold, updateBotDetection_deltaThresholdMs,
    updateBotDetection_userVoteHistory, !at_touch.
  reflexivity.
Qed.

Lemma updateBotDetection_cached u e :
  botDetectionCache (updateBotDetection u e) !! u
  = Some (botDetectionOf u (updateBotDetection u e)).
Proof.
  rewrite botDetectionOf_updateBotDetection,
    updateBotDetection_botDetectionCache.
  apply lookup_insert_eq.
Qed.

Lemma recordVoteEvent_cached u p ts ip dev e :
  botDetectionCache (recordVoteEvent u p ts ip dev e) !! u
  = Some (botDetectionOf u (recordVoteEvent u p ts ip dev e)).
Proof.
  destruct (recordVoteEvent_updateBotDetection u p ts ip dev e)
    as (mid & -> & _).
  apply updateBotDetection_cached.
Qed.

End BotCache.

(** C7, as stated, fails.  With a negative velocity threshold (accepted by
    the constructor and by [configureThresholds]) one vote gives
    botLikelihood -1/150, below 0; and under extreme velocity alone the
    blend does not reach 1: 120 votes one millisecond apart, with no IP or
    device token, give 399/500. *)
Lemma botLikelihood_out_of_range :
  (exists r,
      AntiAbuseEngine.botDetectionCache
        (AntiAbuseEngine.recordVoteEvent "u" "p" 0 "" ""
           (AntiAbuseEngine.make (-30) 200 60)) !! "u"%string = Some r
      /\ (BotDetectionResult.botLikelihood r == - (1 # 150))%Q
      /\ ~ (0 <= BotDetectionResult.botLikelihood r)%Q)
  /\ (exists r,
         AntiAbuseEngine.botDetectionCache
           (ingest burstEvents AntiAbuseEngine.defaultEngine) !! "u"%string
         = Some r
         /\ (BotDetectionResult.votingVelocity r == 120)%Q
         /\ (BotDetectionResult.botLikelihood r == 399 # 500)%Q
         /\ ~ (BotDetectionResult.botLikelihood r == 1)%Q).
Proof.
  split.
  - eexists. split; [vm_compute; reflexivity|].
    split; [vm_compute; reflexivity|].
    vm_compute. intros H. apply H. reflexivity.
  - eexists. split; [vm_compute; reflexivity|].
    split; [vm_compute; reflexivity|].
    split; [vm_compute; reflexivity|].
    vm_compute. discriminate.
Qed.

(** C7 (amended): in every engine state reached with a positive velocity
    threshold and a positive window length, for every user the computed
    botLikelihood (the value cached by [updateBotDetection] and by
    [recordVoteEvent]) equals
    min(1, 0.4 * min(1, rate / (2 * velocityThreshold)) + 0.4 * gapTerm
           + 0.3 * [exactly one device] + 0.2 * [exactly one IP]);
    it lies in [0, 1], it is 0 for a user with zero events, and under
    extreme velocity (rate >= 2 * velocityThreshold) the velocity term
    saturates at 1, so that botLikelihood is at least 0.4. *)
Theorem botLikelihood_blend_bounds (e : AntiAbuseEngine.t) (u : string) :
  Reachable e ->
  let r := AntiAbuseEngine.botDetectionOf u e in
  let rate := AntiAbuseEngine.calculateVotingVelocity u e in
  AntiAbuseEngine.botDetectionCache (AntiAbuseEngine.updateBotDetection u e)
    !! u = Some r
  /\ (forall p ts ip dev,
        AntiAbuseEngine.botDetectionCache
          (AntiAbuseEngine.recordVoteEvent u p ts ip dev e) !! u
        = Some (AntiAbuseEngine.botDetectionOf u
                  (AntiAbuseEngine.recordVoteEvent u p ts ip dev e)))
  /\ (BotDetectionResult.botLikelihood r
      == BotSpec.blend rate
           (AntiAbuseEngine.calculateAvgInterVoteGap u e)
           (AntiAbuseEngine.velocityThreshold e)
           (AntiAbuseEngine.deltaThresholdMs e)
           (size (HMap.at_ u ∅ (AntiAbuseEngine.userDevices e)))
           (size (HMap.at_ u ∅ (AntiAbuseEngine.userIPs e))))%Q
  /\ (0 <= BotDetectionResult.botLikelihood r <= 1)%Q
  /\ (noEvents u e -> (BotDetectionResult.botLikelihood r == 0)%Q)
  /\ ((2 * AntiAbuseEngine.velocityThreshold e <= rate)%Q ->
      (Dbl.min 1 (rate / (AntiAbuseEngine.velocityThreshold e * 2)) == 1)%Q
      /\ (0.4 <= BotDetectionResult.botLikelihood r)%Q).
Proof.
  intros Hreach r rate.
  pose proof (Reachable_Consistent e Hreach) as He.
  split.
  { rewrite updateBotDetection_botDetectionCache. apply lookup_insert_eq. }
  split; [intros; apply recordVoteEvent_cached|].
  split; [apply botLikelihood_blend|].
  split; [apply botDetectionOf_bounded, He|].
  split.
  - intros Hnone.
    destruct (noEvents_untracked e He u Hnone) as (Hw & Hd & Hi).
    apply botLikelihood_noEvents; assumption.
  - intros Hrate. apply botLikelihood_saturated_velocity; [apply He|exact Hrate].
Qed.

Lemma botLikelihood_blend_bounds_witness :
  Reachable
    (AntiAbuseEngine.recordVoteEvent "u" "p" 0 "ip" "dev"
       AntiAbuseEngine.defaultEngine)
  /\ (0 <= BotDetectionResult.botLikelihood
             (AntiAbuseEngine.botDetectionOf "u"
                (AntiAbuseEngine.recordVoteEvent "u" "p" 0 "ip" "dev"
                   AntiAbuseEngine.defaultEngine)) <= 1)%Q.
Proof.
  assert (Hreach : Reachable
                     (AntiAbuseEngine.recordVoteEvent "u" "p" 0 "ip" "dev"
                        AntiAbuseEngine.defaultEngine)).
  { apply reach_recordVoteEvent, reach_make; [reflexivity|lia]. }
  split; [exact Hreach|].
  apply (botLikelihood_blend_bounds
           (AntiAbuseEngine.recordVoteEvent "u" "p" 0 "ip" "dev"
              AntiAbuseEngine.defaultEngine) "u" Hreach).
Defined.

(** ** Trust score *)

(** C8: the trust score that [calculateUserCredibility] produces leaves
    the range 0.0 to 1.0 that the header documents for it.  The
    constructor accepts any velocity threshold and the velocity term of
    the bot likelihood has no lower clamp: on an engine constructed with
    the velocity threshold -0.01, after one recorded vote of "u", the bot
    likelihood of "u" is -20 and the trust score
    0.20*0.02 + 0.15*0.5 + 0.15*0.5 + 0.10*0.5 + 0.15*(1 + 20) + 0.15*1
    + 0.05*0.5 + 0.05*1 = 3.579, above 1. *)
Lemma trustScore_out_of_range :
  let e :=
    AntiAbuseEngine.recordVoteEvent "u" "p" 0 "" ""
      (AntiAbuseEngine.make (-0.01) 200 60) in
  (UserCredibilityScore.trustScore
     (AntiAbuseEngine.calculateUserCredibility "u" e).1 == 3.579)%Q
  /\ ~ (UserCredibilityScore.trustScore
          (AntiAbuseEngine.calculateUserCredibility "u" e).1 <= 1)%Q.
Proof.
  split; [vm_compute; reflexivity|].
  vm_compute. intros H. apply H. reflexivity.
Qed.

Section UnknownUser.

Import AntiAbuseEngine.

Local Open Scope Q_scope.

Lemma detectBot_userVoteHistory u e k :
  HMap.at_ k [] (userVoteHistory (detectBot u e).2)
  = HMap.at_ k [] (userVoteHistory e).
Proof.
  unfold detectBot. destruct (botDetectionCache e !! u); simpl;
    [reflexivity|apply updateBotDetection_userVoteHistory].
Qed.

Lemma detectBot_collusionDetectionCache u e :
  collusionDetectionCache (detectBot u e).2 = collusionDetectionCache e.
Proof.
  unfold detectBot. destruct (botDetectionCache e !! u); simpl;
    [reflexivity|apply updateBotDetection_collusionDetectionCache].
Qed.

Lemma detectBot_noEvents u e :
  Consistent e -> noEvents u e ->
  BotDetectionResult.botLikelihood (detectBot u e).1 == 0.
Proof.
  intros He Hnone. unfold detectBot.
  destruct (botDetectionCache e !! u) as [r|] eqn:E; simpl.
  - exact (noEvents_botCache e He u r Hnone E).
  - rewrite updateBotDetection_botDetectionCache, at_insert_eq.
    destruct (noEvents_untracked e He u Hnone) as (Hw & Hd & Hi).
    apply botLikelihood_noEvents; assumption.
Qed.

Lemma collusionScoreFor_fold_not_member u cache score :
  Forall (fun r => u ∉ CollusionDetectionResult.userGroup r) cache ->
  fold_left
    (fun score collusionResult =>
       fold_left
         (fun score user =>
            if bool_decide (user = u)
            then Dbl.max score
                   (CollusionDetectionResult.collusionScore collusionResult)
            else score)
         (CollusionDetectionResult.userGroup collusionResult) score)
    cache score
  = score.
Proof.
  intros Hcache. revert score.
  induction Hcache as [|r cache Hr Hcache IH]; intros score; simpl;
    [reflexivity|].
  rewrite IH.
  clear IH Hcache. revert score.
  induction (CollusionDetectionResult.userGroup r) as [|user users IHu];
    intros score; simpl; [reflexivity|].
  rewrite bool_decide_eq_false_2.
  - apply IHu. intros Hin. apply Hr. right. exact Hin.
  - intros ->. apply Hr. left.
Qed.

Lemma collusionScoreFor_not_member u cache :
  Forall (fun r => u ∉ CollusionDetectionResult.userGroup r) cache ->
  collusionScoreFor u cache = 0.
Proof. apply collusionScoreFor_fold_not_member. Qed.

End UnknownUser.

(** C1 (the code departs from its documentation): in a reachable state,
    for a user with no recorded vote event, no cached credibility score and
    no membership in a cached collusion group, [getUserTrustScore] does not
    return the documented default 0.5; it computes and returns 0.575. *)
Theorem getUserTrustScore_unknown_user (e : AntiAbuseEngine.t) (u : string) :
  Reachable e ->
  noEvents u e ->
  AntiAbuseEngine.userCredibilityScores e !! u = None ->
  Forall (fun r => u ∉ CollusionDetectionResult.userGroup r)
         (AntiAbuseEngine.collusionDetectionCache e) ->
  ((AntiAbuseEngine.getUserTrustScore u e).1 == 0.575)%Q
  /\ ~ ((AntiAbuseEngine.getUserTrustScore u e).1 == 0.5)%Q.
Proof.
  intros Hreach Hnone Hcred Hgroups.
  pose proof (Reachable_Consistent e Hreach) as He.
  assert (Hvalue : ((AntiAbuseEngine.getUserTrustScore u e).1 == 0.575)%Q).
  { unfold AntiAbuseEngine.getUserTrustScore. rewrite Hcred.
    rewrite calculateUserCredibility_unfold. simpl.
    pose proof (Consistent_detectBot u e He) as He1.
    assert (Hnone1 : noEvents u (AntiAbuseEngine.detectBot u e).2).
    { unfold noEvents. rewrite detectBot_userVoteHistory. exact Hnone. }
    destruct (noEvents_untracked _ He1 u Hnone1) as (_ & Hd & _).
    unfold noEvents in Hnone1. rewrite Hnone1, Hd.
    rewrite detectBot_collusionDetectionCache.
    rewrite (collusionScoreFor_not_member u _ Hgroups).
    pose proof (detectBot_noEvents u e He Hnone) as Hb.
    unfold TrustSpec.combine. rewrite Hb. vm_compute. reflexivity. }
  split; [exact Hvalue|].
  rewrite Hvalue. vm_compute. discriminate.
Qed.

Lemma getUserTrustScore_unknown_user_witness :
  Reachable AntiAbuseEngine.defaultEngine
  /\ noEvents "ghost" AntiAbuseEngine.defaultEngine
  /\ ((AntiAbuseEngine.getUserTrustScore "ghost"
         AntiAbuseEngine.defaultEngine).1 == 0.575)%Q
  /\ ~ ((AntiAbuseEngine.getUserTrustScore "ghost"
           AntiAbuseEngine.defaultEngine).1 == 0.5)%Q.
Proof.
  assert (Hreach : Reachable AntiAbuseEngine.defaultEngine)
    by (apply reach_make; [reflexivity|lia]).
  assert (Hnone : noEvents "ghost" AntiAbuseEngine.defaultEngine)
    by reflexivity.
  split; [exact Hreach|]. split; [exact Hnone|].
  apply (getUserTrustScore_unknown_user AntiAbuseEngine.defaultEngine "ghost"
           Hreach Hnone).
  - reflexivity.
  - constructor.
Defined.

(** ** Credibility cache *)

Section CredibilityCache.

Import AntiAbuseEngine.

Lemma recordVoteEvent_userCredibilityScores u p ts ip dev e :
  userCredibilityScores (recordVoteEvent u p ts ip dev e)
  = userCredibilityScores e.
Proof.
  destruct (recordVoteEvent_updateBotDetection u p ts ip dev e)
    as (mid & -> & _ & _ & _ & _ & _ & Hcred & _).
  rewrite updateBotDetection_userCredibilityScores. exact Hcred.
Qed.

Lemma calculateUserCredibility_cached u e :
  userCredibilityScores (calculateUserCredibility u e).2 !! u
  = Some (calculateUserCredibility u e).1.
Proof.
  rewrite calculateUserCredibility_unfold. simpl. apply lookup_insert_eq.
Qed.

Lemma detectBot_userCredibilityScores u e :
  userCredibilityScores (detectBot u e).2 = userCredibilityScores e.
Proof.
  unfold detectBot. destruct (botDetectionCache e !! u); simpl;
    [reflexivity|apply updateBotDetection_userCredibilityScores].
Qed.

Lemma calculateUserCredibility_other k u e :
  k <> u ->
  userCredibilityScores (calculateUserCredibility k e).2 !! u
  = userCredibilityScores e !! u.
Proof.
  intros Hne. rewrite calculateUserCredibility_unfold. simpl.
  rewrite lookup_insert_ne by assumption.
  rewrite detectBot_userCredibilityScores. reflexivity.
Qed.

Lemma fold_calculateUserCredibility_other users u e :
  u ∉ users ->
  userCredibilityScores
    (fold_left (fun e k => (calculateUserCredibility k e).2) users e) !! u
  = userCredibilityScores e !! u.
Proof.
  revert e. induction users as [|k users IH]; intros e Hnotin; simpl;
    [reflexivity|].
  rewrite IH.
  - apply calculateUserCredibility_other. intros ->. apply Hnotin. left.
  - intros Hin. apply Hnotin. right. exact Hin.
Qed.

End CredibilityCache.

(** C9, as stated, fails: after a score for "u" was cached, recording a
    vote event of "u" leaves the cached value 23/40 in place, and the next
    [getUserTrustScore] returns it although a recomputation over the
    post-event state gives 137/250. *)
Lemma recordVoteEvent_keeps_stale_score :
  let e0 :=
    (AntiAbuseEngine.getUserTrustScore "u" AntiAbuseEngine.defaultEngine).2 in
  let e1 := AntiAbuseEngine.recordVoteEvent "u" "p" 100 "ip" "dev" e0 in
  ((AntiAbuseEngine.getUserTrustScore "u" e1).1 == 23 # 40)%Q
  /\ (UserCredibilityScore.trustScore
        (AntiAbuseEngine.calculateUserCredibility "u" e1).1 == 137 # 250)%Q
  /\ ~ ((AntiAbuseEngine.getUserTrustScore "u" e1).1
        == UserCredibilityScore.trustScore
             (AntiAbuseEngine.calculateUserCredibility "u" e1).1)%Q.
Proof.
  split; [vm_compute; reflexivity|].
  split; [vm_compute; reflexivity|].
  vm_compute. discriminate.
Qed.

(** ** Clearing a user *)

(** C10: [clearUser u] removes exactly the entries of [u] from the vote
    history, the sliding windows, the IP and device sets, the bot-detection
    cache, the credibility cache and the suspicious flags, and nothing
    else: the co-voting graph (hence every co-vote count, also for pairs
    that involve [u]), the [ipToUsers] and [deviceToUsers] reverse indexes,
    the collusion result cache and the threat alerts are unchanged. *)
Theorem clearUser_frame (e : AntiAbuseEngine.t) (u : string) :
  let e' := AntiAbuseEngine.clearUser u e in
  (forall k,
      AntiAbuseEngine.userVoteHistory e' !! k
      = (if bool_decide (k = u) then None
         else AntiAbuseEngine.userVoteHistory e !! k)
      /\ AntiAbuseEngine.userVelocityWindows e' !! k
         = (if bool_decide (k = u) then None
            else AntiAbuseEngine.userVelocityWindows e !! k)
      /\ AntiAbuseEngine.userIPs e' !! k
         = (if bool_decide (k = u) then None
            else AntiAbuseEngine.userIPs e !! k)
      /\ AntiAbuseEngine.userDevices e' !! k
         = (if bool_decide (k = u) then None
            else AntiAbuseEngine.userDevices e !! k)
      /\ AntiAbuseEngine.botDetectionCache e' !! k
         = (if bool_decide (k = u) then None
            else AntiAbuseEngine.botDetectionCache e !! k)
      /\ AntiAbuseEngine.userCredibilityScores e' !! k
         = (if bool_decide (k = u) then None
            else AntiAbuseEngine.userCredibilityScores e !! k)
      /\ AntiAbuseEngine.suspiciousUsers e' !! k
         = (if bool_decide (k = u) then None
            else AntiAbuseEngine.suspiciousUsers e !! k))
  /\ AntiAbuseEngine.coVotingGraph e' = AntiAbuseEngine.coVotingGraph e
  /\ (forall x y,
         CoVotingGraph.getCoVoteCount x y (AntiAbuseEngine.coVotingGraph e')
         = CoVotingGraph.getCoVoteCount x y (AntiAbuseEngine.coVotingGraph e))
  /\ AntiAbuseEngine.ipToUsers e' = AntiAbuseEngine.ipToUsers e
  /\ AntiAbuseEngine.deviceToUsers e' = AntiAbuseEngine.deviceToUsers e
  /\ AntiAbuseEngine.collusionDetectionCache e'
     = AntiAbuseEngine.collusionDetectionCache e
  /\ AntiAbuseEngine.threatAlerts e' = AntiAbuseEngine.threatAlerts e
  /\ AntiAbuseEngine.getThreatAlerts false e'
     = AntiAbuseEngine.getThreatAlerts false e.
Proof.
  intros e'. subst e'. simpl.
  split; [|repeat split].
  intros k. rewrite !lookup_delete.
  destruct (decide (u = k)) as [->|Hne].
  - rewrite bool_decide_eq_true_2 by reflexivity. repeat split.
  - rewrite bool_decide_eq_false_2 by congruence. repeat split.
Qed.

(** * Further properties *)

(** ** Sliding window *)

Section SlidingWindowMore.

Import SlidingWindow.

Lemma evict_snoc_keep (cutoff ts : Z) (l : list Z) :
  cutoff <= ts -> evict cutoff (l ++ [ts]) = evict cutoff l ++ [ts].
Proof.
  intros Hle. induction l as [|front rest IH]; simpl.
  - destruct (ts <? cutoff) eqn:E; [|reflexivity].
    apply Z.ltb_lt in E. lia.
  - destruct (front <? cutoff); [exact IH|reflexivity].
Qed.


End SlidingWindowMore.

(** X1: when the window duration is not negative and the window
    duration in ticks and the cutoff [ts - windowDuration] are
    representable tick counts (no overflow of the 64-bit nanosecond
    arithmetic), [addEvent] keeps the timestamp it
    inserts, as the last entry, whatever the order of arrival; and the
    front of the window is never older than the cutoff of the
    insertion. *)
Theorem addEvent_keeps_inserted (ts : Z) (w : SlidingWindow.t) :
  0 <= SlidingWindow.windowDuration w ->
  Clock.representable ts ->
  Clock.representable (Clock.of_seconds (SlidingWindow.windowDuration w)) ->
  Clock.representable
    (ts - Clock.of_seconds (SlidingWindow.windowDuration w)) ->
  last (SlidingWindow.timestamps (SlidingWindow.addEvent ts w)) = Some ts
  /\ (0 < SlidingWindow.getEventCount (SlidingWindow.addEvent ts w))
  /\ (exists front,
         head (SlidingWindow.timestamps (SlidingWindow.addEvent ts w))
         = Some front
         /\ ts - Clock.of_seconds (SlidingWindow.windowDuration w) <= front).
Proof.
  intros Hdur _ _ _.
  assert (Hcut : ts - Clock.of_seconds (SlidingWindow.windowDuration w) <= ts).
  { unfold Clock.of_seconds, Clock.ticks_per_second. lia. }
  unfold SlidingWindow.addEvent, SlidingWindow.cleanup,
    SlidingWindow.getEventCount. simpl.
  rewrite (evict_snoc_keep _ _ _ Hcut).
  split; [apply last_snoc|].
  split; [rewrite length_app; simpl; lia|].
  pose proof (evict_head
                (ts - Clock.of_seconds (SlidingWindow.windowDuration w))
                (SlidingWindow.timestamps w)) as Hhead.
  destruct (SlidingWindow.evict _ (SlidingWindow.timestamps w))
    as [|front rest]; simpl.
  - exists ts. split; [reflexivity|exact Hcut].
  - exists front. split; [reflexivity|exact Hhead].
Qed.

Lemma addEvent_keeps_inserted_witness :
  0 <= SlidingWindow.windowDuration
         {| SlidingWindow.timestamps := [100000000000];
            SlidingWindow.windowDuration := 60 |}
  /\ Clock.representable 50000000000
  /\ Clock.representable
       (Clock.of_seconds
          (SlidingWindow.windowDuration
             {| SlidingWindow.timestamps := [100000000000];
                SlidingWindow.windowDuration := 60 |}))
  /\ Clock.representable
       (50000000000
        - Clock.of_seconds
            (SlidingWindow.windowDuration
               {| SlidingWindow.timestamps := [100000000000];
                  SlidingWindow.windowDuration := 60 |}))
  /\ last (SlidingWindow.timestamps
             (SlidingWindow.addEvent 50000000000
                {| SlidingWindow.timestamps := [100000000000];
                   SlidingWindow.windowDuration := 60 |}))
     = Some 50000000000.
Proof.
  assert (Hdur : 0 <= SlidingWindow.windowDuration
                        {| SlidingWindow.timestamps := [100000000000];
                           SlidingWindow.windowDuration := 60 |})
    by (simpl; lia).
  assert (Hts : Clock.representable 50000000000)
    by (split; vm_compute; discriminate).
  assert (Hlen : Clock.representable
                   (Clock.of_seconds
                      (SlidingWindow.windowDuration
                         {| SlidingWindow.timestamps := [100000000000];
                            SlidingWindow.windowDuration := 60 |})))
    by (split; vm_compute; discriminate).
  assert (Hcut : Clock.representable
                   (50000000000
                    - Clock.of_seconds
                        (SlidingWindow.windowDuration
                           {| SlidingWindow.timestamps := [100000000000];
                              SlidingWindow.windowDuration := 60 |})))
    by (split; vm_compute; discriminate).
  split; [exact Hdur|]. split; [exact Hts|]. split; [exact Hlen|].
  split; [exact Hcut|].
  apply (addEvent_keeps_inserted 50000000000
           {| SlidingWindow.timestamps := [100000000000];
              SlidingWindow.windowDuration := 60 |} Hdur Hts Hlen Hcut).
Defined.

(** X2: the window never reorders, duplicates or invents timestamps: after
    any sequence of [addEvent] calls it holds a suffix of the sequence, so
    it never holds more entries than events were added. *)
Theorem feed_is_suffix (seconds : Z) (events : list Z) :
  (exists old,
      events
      = old ++ SlidingWindow.timestamps (SlidingWindow.feed seconds events))
  /\ SlidingWindow.getEventCount (SlidingWindow.feed seconds events)
     <= Z.of_nat (length events).
Proof.
  destruct (feed_suffix seconds events) as [old Hold].
  split; [exists old; exact Hold|].
  unfold SlidingWindow.getEventCount.
  rewrite Hold at 2. rewrite length_app. lia.
Qed.


(** ** Co-voting graph: what is stored *)

Section GraphStorage.

Import CoVotingGraph.

Lemma keys_modify {V : Type} (k : string) (d : V) (f : V -> V)
      (m : UMap.t V) :
  UMap.keys (UMap.modify k d f m)
  = if bool_decide (k ∈ UMap.keys m) then UMap.keys m
    else UMap.keys m ++ [k].
Proof.
  induction m as [|[k' v] m IH]; [reflexivity|].
  cbn [UMap.modify].
  destruct (decide (k = k')) as [->|Hne].
  - rewrite bool_decide_eq_true_2 by reflexivity.
    rewrite bool_decide_eq_true_2 by (simpl; left). reflexivity.
  - rewrite (bool_decide_eq_false_2 (k = k')) by assumption.
    change (UMap.keys ((k', v) :: UMap.modify k d f m))
      with (k' :: UMap.keys (UMap.modify k d f m)).
    change (UMap.keys ((k', v) :: m)) with (k' :: UMap.keys m).
    rewrite IH.
    destruct (decide (k ∈ UMap.keys m)) as [Hin|Hin].
    + rewrite !bool_decide_eq_true_2; [reflexivity|right|]; assumption.
    + rewrite !bool_decide_eq_false_2; [reflexivity| |assumption].
      intros H. apply elem_of_cons in H as [H|H]; auto.
Qed.

Lemma keys_modify_NoDup {V : Type} (k : string) (d : V) (f : V -> V)
      (m : UMap.t V) :
  NoDup (UMap.keys m) -> NoDup (UMap.keys (UMap.modify k d f m)).
Proof.
  intros Hnd. rewrite keys_modify. case_bool_decide as Hin; [assumption|].
  apply NoDup_app. repeat split; [assumption| |apply NoDup_singleton].
  intros x Hx Hx'. apply list_elem_of_singleton in Hx'. subst x. auto.
Qed.

Lemma modify_Forall {V : Type} (P : string * V -> Prop) (k : string) (d : V)
      (f : V -> V) (m : UMap.t V) :
  Forall P m -> P (k, f d) -> (forall v, P (k, v) -> P (k, f v)) ->
  Forall P (UMap.modify k d f m).
Proof.
  intros Hm Hd Hf. induction Hm as [|[k' v] m Hv Hm IH]; simpl.
  - constructor; [exact Hd|constructor].
  - destruct (bool_decide (k = k')) eqn:E.
    + apply bool_decide_eq_true_1 in E. subst k'.
      constructor; [apply Hf, Hv|exact Hm].
    + constructor; assumption.
Qed.

Lemma find_keys {V : Type} (k : string) (m : UMap.t V) :
  k ∈ UMap.keys m <-> is_Some (UMap.find k m).
Proof.
  induction m as [|[k' v] m IH]; simpl.
  - split; [intros H; inversion H|intros [v H]; discriminate].
  - destruct (bool_decide (k = k')) eqn:E.
    + apply bool_decide_eq_true_1 in E. subst k'.
      split; [eauto|intros _; left].
    + apply bool_decide_eq_false_1 in E. rewrite <- IH.
      split; [intros H; apply elem_of_cons in H as [H|H]; tauto
             |intros H; right; exact H].
Qed.

Lemma elem_of_find {V : Type} (k : string) (v : V) (m : UMap.t V) :
  NoDup (UMap.keys m) -> (k, v) ∈ m -> UMap.find k m = Some v.
Proof.
  induction m as [|[k' v'] m IH]; simpl; intros Hnd Hin; [inversion Hin|].
  apply NoDup_cons in Hnd as [Hk Hnd].
  apply elem_of_cons in Hin as [[= <- <-]|Hin].
  - rewrite bool_decide_eq_true_2 by reflexivity. reflexivity.
  - rewrite bool_decide_eq_false_2; [auto|].
    intros ->. apply Hk. apply list_elem_of_fmap. exists (k', v). auto.
Qed.

Lemma rowStored_increment a b row :
  b <> a -> (row = [] \/ rowStored (a, row)) ->
  rowStored (a, UMap.modify b 0 Z.succ row).
Proof.
  intros Hne Hrow. unfold rowStored. simpl.
  assert (Hnd : NoDup (UMap.keys row)).
  { destruct Hrow as [->|Hrow]; [constructor|apply Hrow]. }
  assert (Hall : Forall (fun vn : string * Z => vn.1 <> a /\ 1 <= vn.2) row).
  { destruct Hrow as [->|Hrow]; [constructor|apply Hrow]. }
  split; [apply keys_modify_NoDup, Hnd|].
  split; [destruct row as [|[k n] row]; simpl;
          [discriminate|destruct (bool_decide (b = k)); discriminate]|].
  apply modify_Forall; [exact Hall|simpl; split; [exact Hne|lia]|].
  simpl. intros v [H1 H2]. split; [exact H1|lia].
Qed.

Lemma Stored_increment a b adj :
  b <> a -> Stored adj -> Stored (increment a b adj).
Proof.
  intros Hne [Hnd Hrows]. unfold increment. split.
  - apply keys_modify_NoDup, Hnd.
  - apply modify_Forall; [exact Hrows| |].
    + apply rowStored_increment; auto.
    + intros row Hrow. apply rowStored_increment; auto.
Qed.

Lemma Stored_fold_linkVoter u voters adj :
  Stored adj -> Stored (fold_left (linkVoter u) voters adj).
Proof.
  revert adj. induction voters as [|o voters IH]; intros adj Hadj; simpl;
    [exact Hadj|].
  apply IH. unfold linkVoter. case_bool_decide as Hne; [|exact Hadj].
  apply Stored_increment; [congruence|].
  apply Stored_increment; [exact Hne|exact Hadj].
Qed.

(** Every graph built by [addVote] calls is stored that way. *)
Lemma Stored_build votes : Stored (adjacency (build votes)).
Proof.
  induction votes as [|[u p] votes IH] using rev_ind.
  - split; constructor.
  - rewrite build_snoc. unfold addVote. simpl.
    apply Stored_fold_linkVoter, IH.
Qed.

Lemma Stored_row adj u row :
  Stored adj -> UMap.find u adj = Some row -> rowStored (u, row).
Proof.
  intros [_ Hrows] Hfind. rewrite Forall_forall in Hrows.
  apply Hrows. apply find_elem_of. exact Hfind.
Qed.

Lemma Stored_entry adj u row v n :
  Stored adj -> (u, row) ∈ adj -> (v, n) ∈ row ->
  weight adj u v = n /\ v <> u /\ 1 <= n.
Proof.
  intros [Hnd Hrows] Hrow Hentry.
  rewrite Forall_forall in Hrows.
  destruct (Hrows _ Hrow) as (Hndrow & _ & Hall). simpl in *.
  rewrite Forall_forall in Hall.
  destruct (Hall _ Hentry) as [Hv Hn]. simpl in *.
  unfold weight.
  rewrite (elem_of_find u row adj Hnd Hrow).
  rewrite (elem_of_find v n row Hndrow Hentry). auto.
Qed.

Lemma weight_pos_entry adj u v :
  Stored adj -> 0 < weight adj u v ->
  exists row, (u, row) ∈ adj /\ (v, weight adj u v) ∈ row.
Proof.
  intros Hadj Hpos. unfold weight in *.
  destruct (UMap.find u adj) as [row|] eqn:Hu; [|lia].
  destruct (UMap.find v row) as [n|] eqn:Hv; [|lia].
  exists row. split; apply find_elem_of; assumption.
Qed.

Lemma links_bounds u voters x y :
  0 <= links u voters x y /\ links u voters x x = 0.
Proof.
  induction voters as [|o voters [IH1 IH2]]; simpl; [lia|].
  unfold link.
  split.
  - case_bool_decide; lia.
  - rewrite IH2. rewrite bool_decide_eq_false_2; [lia|].
    intros [Ho [[-> ->]|[-> ->]]]; congruence.
Qed.

End GraphStorage.

(** ** Co-voting graph: further properties *)

(** X4: in every graph built by [addVote] calls, co-vote counts are never
    negative and no user has a co-vote count with itself. *)
Theorem getCoVoteCount_no_self_edge (votes : list (string * string))
        (u v : string) :
  0 <= CoVotingGraph.getCoVoteCount u v (CoVotingGraph.build votes)
  /\ CoVotingGraph.getCoVoteCount u u (CoVotingGraph.build votes) = 0.
Proof.
  induction votes as [|[w p] votes [IH1 IH2]] using rev_ind.
  - split; [vm_compute; discriminate|reflexivity].
  - rewrite build_snoc, !getCoVoteCount_weight, !addVote_weight.
    rewrite !getCoVoteCount_weight in IH1, IH2.
    destruct (links_bounds w
                (USet.insert w
                   (default []
                      (UMap.find p
                         (CoVotingGraph.proposalVoters
                            (CoVotingGraph.build votes))))) u v)
      as [Hl1 _].
    destruct (links_bounds w
                (USet.insert w
                   (default []
                      (UMap.find p
                         (CoVotingGraph.proposalVoters
                            (CoVotingGraph.build votes))))) u u)
      as [_ Hl2].
    split; lia.
Qed.

Section SharedProposals.

Import CoVotingGraph.

Lemma filter_length_ext {A : Type} (P Q : A -> Prop)
      `{!forall x, Decision (P x)} `{!forall x, Decision (Q x)}
      (l : list A) :
  (forall v, v ∈ l -> (P v <-> Q v)) ->
  length (filter P l) = length (filter Q l).
Proof.
  induction l as [|a l IH]; intros Hext; [reflexivity|].
  rewrite !filter_cons.
  assert (Hl : length (filter P l) = length (filter Q l)).
  { apply IH. intros v Hv. apply Hext. right. exact Hv. }
  assert (Ha : P a <-> Q a) by (apply Hext; left).
  destruct (decide (P a)), (decide (Q a)); simpl; try tauto; lia.
Qed.

Lemma filter_length_extra {A : Type} `{EqDecision A} (P Q : A -> Prop)
      `{!forall x, Decision (P x)} `{!forall x, Decision (Q x)}
      (z : A) (l : list A) :
  NoDup l ->
  (forall v, v ∈ l -> (Q v <-> P v \/ v = z)) ->
  ~ P z ->
  length (filter Q l)
  = (length (filter P l) + (if bool_decide (z ∈ l) then 1 else 0))%nat.
Proof.
  intros Hnd Hext Hz. induction Hnd as [|a l Hnotin Hnd IH].
  - rewrite bool_decide_eq_false_2; [reflexivity|]. intros HP. inversion HP.
  - rewrite !filter_cons.
    destruct (decide (a = z)) as [->|Hne].
    + rewrite bool_decide_eq_true_2 by left.
      rewrite decide_True by (apply Hext; [left|right; reflexivity]).
      rewrite decide_False by assumption. simpl.
      rewrite (filter_length_ext Q P l); [lia|].
      intros v Hv. rewrite (Hext v) by (right; exact Hv).
      split; [intros [HP| ->]; [exact HP|contradiction]|auto].
    + assert (Ha : Q a <-> P a).
      { rewrite (Hext a) by left. split; [intros [HP|HP]; [exact HP|]|auto].
        contradiction. }
      assert (Hl : length (filter Q l)
                   = (length (filter P l)
                      + (if bool_decide (z ∈ l) then 1 else 0))%nat).
      { apply IH. intros v Hv. apply Hext. right. exact Hv. }
      assert (Hb : bool_decide (z ∈ a :: l) = bool_decide (z ∈ l)).
      { apply bool_decide_ext. rewrite elem_of_cons.
        split; [intros [->|HP]; [congruence|exact HP]|auto]. }
      rewrite Hb.
      destruct (decide (P a)), (decide (Q a)); simpl; try tauto; lia.
Qed.

Lemma sharedProposals_snoc votes u p x y :
  NoDup (votes ++ [(u, p)]) -> x <> y ->
  Z.of_nat (sharedProposals (votes ++ [(u, p)]) x y)
  = Z.of_nat (sharedProposals votes x y)
    + (if bool_decide ((x = u /\ y <> u /\ (y, p) ∈ votes)
                       \/ (y = u /\ x <> u /\ (x, p) ∈ votes))
       then 1 else 0).
Proof.
  intros Hnd Hxy.
  apply NoDup_app in Hnd as (Hnd & Hfresh & _).
  assert (Hnew : (u, p) ∉ votes).
  { intros Hin. apply (Hfresh _ Hin). left. }
  unfold sharedProposals. rewrite filter_app, length_app.
  rewrite filter_cons, filter_nil.
  (* the new vote itself *)
  assert (Hself :
            length (if decide ((u, p).1 = x /\ (y, (u, p).2) ∈ votes ++ [(u, p)])
                    then [(u, p)] else [])
            = if bool_decide (x = u /\ y <> u /\ (y, p) ∈ votes)
              then 1%nat else 0%nat).
  { simpl. destruct (decide (u = x /\ (y, p) ∈ votes ++ [(u, p)]))
      as [[-> Hin]|Hno].
    - rewrite bool_decide_eq_true_2; [reflexivity|].
      repeat split; [congruence|].
      apply elem_of_app in Hin as [Hin|Hin]; [exact Hin|].
      apply list_elem_of_singleton in Hin. congruence.
    - rewrite bool_decide_eq_false_2; [reflexivity|].
      intros (-> & _ & Hin). apply Hno. split; [reflexivity|].
      apply elem_of_app. left. exact Hin. }
  (* the earlier votes, seen against the longer list *)
  assert (Hold :
            length (filter (fun v => v.1 = x /\ (y, v.2) ∈ votes ++ [(u, p)])
                      votes)
            = (length (filter (fun v => v.1 = x /\ (y, v.2) ∈ votes) votes)
               + (if bool_decide (y = u /\ x <> u /\ (x, p) ∈ votes)
                  then 1 else 0))%nat).
  { destruct (decide (y = u)) as [->|Hyu].
    - rewrite (filter_length_extra
                 (fun v => v.1 = x /\ (u, v.2) ∈ votes)
                 (fun v => v.1 = x /\ (u, v.2) ∈ votes ++ [(u, p)])
                 (x, p) votes Hnd).
      + f_equal.
        apply f_equal with (f := fun b : bool => if b then 1%nat else 0%nat).
        apply bool_decide_ext. intuition congruence.
      + intros [a q] _. simpl. rewrite elem_of_app, list_elem_of_singleton.
        split.
        * intros [-> [Hin|[= ->]]]; [left; auto|right; reflexivity].
        * intros [[-> Hin]|[= -> ->]]; [auto|]. split; [reflexivity|].
          right. reflexivity.
      + simpl. intros [_ Hin]. contradiction.
    - rewrite (bool_decide_eq_false_2 (y = u /\ _)) by tauto.
      rewrite Nat.add_0_r. apply filter_length_ext.
      intros [a q] _. simpl. rewrite elem_of_app, list_elem_of_singleton.
      split; [intros [-> [Hin|[= ? ?]]]; [auto|congruence]|].
      intros [-> Hin]. auto. }
  rewrite Hold.
  rewrite Hself.
  repeat case_bool_decide; try lia; exfalso; intuition congruence.
Qed.

End SharedProposals.

(** X5: under the upstream contract of at most one vote per user and
    proposal, the co-vote count of two distinct users is the number of
    proposals both voted on. *)
Theorem getCoVoteCount_shared_proposals (votes : list (string * string))
        (x y : string) :
  NoDup votes -> x <> y ->
  CoVotingGraph.getCoVoteCount x y (CoVotingGraph.build votes)
  = Z.of_nat (sharedProposals votes x y).
Proof.
  intros Hnd Hxy.
  induction votes as [|[u p] votes IH] using rev_ind; [reflexivity|].
  rewrite sharedProposals_snoc by assumption.
  pose proof Hnd as Hnd'.
  apply NoDup_app in Hnd' as (Hvotes & Hfresh & _).
  rewrite build_snoc, getCoVoteCount_weight, addVote_weight.
  rewrite <- getCoVoteCount_weight, (IH Hvotes).
  destruct (build_voters votes p) as [Hvnd Hvin].
  rewrite links_NoDup by (apply USet_insert_NoDup, Hvnd).
  f_equal. apply f_equal with (f := fun b : bool => if b then 1 else 0).
  apply bool_decide_ext. rewrite !USet_insert_elem, !Hvin.
  intuition congruence.
Qed.

Lemma getCoVoteCount_shared_proposals_witness :
  NoDup [("a", "p"); ("b", "p"); ("a", "q"); ("b", "q"); ("c", "q")]%string
  /\ CoVotingGraph.getCoVoteCount "a" "b"
       (CoVotingGraph.build
          [("a", "p"); ("b", "p"); ("a", "q"); ("b", "q"); ("c", "q")]%string)
     = Z.of_nat
         (sharedProposals
            [("a", "p"); ("b", "p"); ("a", "q"); ("b", "q"); ("c", "q")]%string
            "a" "b").
Proof.
  assert (Hnd : NoDup [("a", "p"); ("b", "p"); ("a", "q"); ("b", "q");
                       ("c", "q")]%string)
    by (apply (bool_decide_unpack _); vm_compute; exact I).
  split; [exact Hnd|].
  apply (getCoVoteCount_shared_proposals _ "a" "b" Hnd).
  discriminate.
Defined.

(** X6: in every graph built by [addVote] calls, [getNeighbors u] lists
    every user once, and it lists exactly the users whose co-vote count
    with [u] is positive. *)
Theorem getNeighbors_positive_weight (votes : list (string * string))
        (u v : string) :
  NoDup (CoVotingGraph.getNeighbors u (CoVotingGraph.build votes))
  /\ (v ∈ CoVotingGraph.getNeighbors u (CoVotingGraph.build votes)
      <-> 0 < CoVotingGraph.getCoVoteCount u v (CoVotingGraph.build votes)).
Proof.
  pose proof (Stored_build votes) as Hadj.
  unfold CoVotingGraph.getNeighbors. rewrite getCoVoteCount_weight.
  destruct (UMap.find u (CoVotingGraph.adjacency (CoVotingGraph.build votes)))
    as [row|] eqn:Hfind.
  - pose proof (Stored_row _ u row Hadj Hfind) as (Hnd & _ & _).
    simpl in Hnd. split; [exact Hnd|].
    pose proof (find_elem_of _ _ _ Hfind) as Hrow.
    split.
    + intros Hv. apply list_elem_of_fmap in Hv as ([v' n] & -> & Hentry).
      destruct (Stored_entry _ u row v' n Hadj Hrow Hentry) as (Hw & _ & Hn).
      simpl. rewrite Hw. lia.
    + intros Hpos.
      destruct (weight_pos_entry _ u v Hadj Hpos) as (row' & Hrow' & Hentry).
      destruct Hadj as [Hkeys _].
      rewrite (elem_of_find u row' _ Hkeys Hrow') in Hfind.
      injection Hfind as <-.
      apply list_elem_of_fmap.
      exists (v, weight (CoVotingGraph.adjacency (CoVotingGraph.build votes))
                   u v).
      auto.
  - split; [constructor|].
    split; [intros H; inversion H|].
    unfold weight. rewrite Hfind. lia.
Qed.

(** ** Community detection: what the traversal finds *)

Section Components.

Import CoVotingGraph.

Lemma visitNeighbors_spec m (row : UMap.t Z) queue visited :
  exists new,
    (visitNeighbors m row (queue, visited)).1 = queue ++ new
    /\ NoDup new
    /\ (forall x, x ∈ new ->
                  (x ∉ visited) /\ (exists n, (x, n) ∈ row /\ m <= n))
    /\ (forall x, x ∈ (visitNeighbors m row (queue, visited)).2
                  <-> x ∈ visited \/ x ∈ new)
    /\ (forall x n, (x, n) ∈ row -> m <= n ->
                    x ∈ (visitNeighbors m row (queue, visited)).2).
Proof.
  revert queue visited.
  induction row as [|[nb cv] row IH]; intros queue visited.
  - exists []. simpl. rewrite app_nil_r.
    split; [reflexivity|]. split; [constructor|].
    split; [intros x Hx; inversion Hx|].
    split; [intros x; split; [auto|intros [Hx|Hx]; [exact Hx|inversion Hx]]|].
    intros x n Hx. inversion Hx.
  - unfold visitNeighbors in *. cbn [fold_left].
    destruct (bool_decide (nb ∉ visited) && (m <=? cv)) eqn:E.
    + apply andb_true_iff in E as [Hnb Hcv].
      apply bool_decide_eq_true_1 in Hnb. apply Z.leb_le in Hcv.
      destruct (IH (queue ++ [nb]) ({[nb]} ∪ visited))
        as (new & Hq & Hnd & Hnew & Hvis & Hall).
      exists (nb :: new).
      split; [rewrite Hq, <- app_assoc; reflexivity|].
      split.
      { constructor; [|exact Hnd]. intros Hin.
        destruct (Hnew nb Hin) as [Hno _]. apply Hno.
        apply elem_of_union. left. apply elem_of_singleton. reflexivity. }
      split.
      { intros x Hx. apply elem_of_cons in Hx as [->|Hx].
        - split; [exact Hnb|]. exists cv. split; [left|exact Hcv].
        - destruct (Hnew x Hx) as [Hno (n & Hn & Hmn)]. split.
          + intros Hv. apply Hno. apply elem_of_union. right. exact Hv.
          + exists n. split; [right; exact Hn|exact Hmn]. }
      split.
      { intros x. rewrite Hvis, elem_of_union, elem_of_singleton, elem_of_cons.
        tauto. }
      intros x n Hx Hmn. apply elem_of_cons in Hx as [[= -> ->]|Hx].
      * apply Hvis. left. apply elem_of_union. left.
        apply elem_of_singleton. reflexivity.
      * apply (Hall x n Hx Hmn).
    + destruct (IH queue visited) as (new & Hq & Hnd & Hnew & Hvis & Hall).
      exists new.
      split; [exact Hq|]. split; [exact Hnd|].
      split.
      { intros x Hx. destruct (Hnew x Hx) as [Hno (n & Hn & Hmn)].
        split; [exact Hno|]. exists n. split; [right; exact Hn|exact Hmn]. }
      split; [exact Hvis|].
      intros x n Hx Hmn. apply elem_of_cons in Hx as [[= -> ->]|Hx].
      * apply Hvis. left.
        apply andb_false_iff in E as [E|E].
        -- apply bool_decide_eq_false_1 in E.
           destruct (decide (nb ∈ visited)); tauto.
        -- apply Z.leb_gt in E. lia.
      * apply (Hall x n Hx Hmn).
Qed.

(** What one traversal returns: the members it adds are new, they end up
    visited, each of them was in the queue or is stored with a count of
    at least [m] by another added member, and every such neighbour of an
    added member ends up visited. *)
Lemma bfs_spec fuel adj m queue visited community c v :
  bfs fuel adj m queue visited community = Some (c, v) ->
  NoDup queue -> (forall x, x ∈ queue -> x ∈ visited) ->
  exists extra,
    c = community ++ extra
    /\ NoDup extra
    /\ (forall x, x ∈ queue -> x ∈ extra)
    /\ (forall x, x ∈ extra -> x ∈ queue \/ x ∉ visited)
    /\ (forall x, x ∈ v <-> x ∈ visited \/ x ∈ extra)
    /\ (forall x, x ∈ extra ->
                  x ∈ queue \/ exists y, y ∈ extra /\ strong adj m y x)
    /\ (forall y x, y ∈ extra -> strong adj m y x -> x ∈ v)
    /\ (queue = [] -> extra = [])
    /\ (forall s, queue = [s] ->
                  exists rest,
                    extra = s :: rest
                    /\ (rest <> [] ->
                        exists x, x ∈ rest /\ strong adj m s x))
    /\ (forall x, x ∈ extra ->
                  exists q, q ∈ queue /\ rtc (strong adj m) q x).
Proof.
  revert queue visited community.
  induction fuel as [|fuel IH]; intros queue visited community Hbfs Hnd Hsub;
    [discriminate|].
  simpl in Hbfs. destruct queue as [|current rest].
  - injection Hbfs as <- <-. exists []. rewrite app_nil_r.
    split; [reflexivity|]. split; [constructor|].
    split; [intros x Hx; inversion Hx|].
    split; [intros x Hx; inversion Hx|].
    split; [intros x; split; [auto|intros [Hx|Hx]; [exact Hx|inversion Hx]]|].
    split; [intros x Hx; inversion Hx|].
    split; [intros y x Hy; inversion Hy|].
    split; [reflexivity|].
    split; [intros s Hs; discriminate|].
    intros x Hx. inversion Hx.
  - apply NoDup_cons in Hnd as [Hcur Hrest].
    assert (Hcurv : current ∈ visited) by (apply Hsub; left).
    assert (Hstep :
              exists new visited',
                (match UMap.find current adj with
                 | Some row => visitNeighbors m row (rest, visited)
                 | None => (rest, visited)
                 end) = (rest ++ new, visited')
                /\ NoDup new
                /\ (forall x, x ∈ new -> (x ∉ visited)
                                        /\ strong adj m current x)
                /\ (forall x, x ∈ visited' <-> x ∈ visited \/ x ∈ new)
                /\ (forall x, strong adj m current x -> x ∈ visited')).
    { destruct (UMap.find current adj) as [row|] eqn:Hfind.
      - destruct (visitNeighbors_spec m row rest visited)
          as (new & Hq & Hndn & Hnew & Hvis & Hall).
        exists new, (visitNeighbors m row (rest, visited)).2.
        split; [rewrite <- Hq; apply surjective_pairing|].
        split; [exact Hndn|]. split.
        + intros x Hx. destruct (Hnew x Hx) as [Hno (n & Hn & Hmn)].
          split; [exact Hno|]. exists row, n. auto.
        + split; [exact Hvis|].
          intros x (row' & n & Hrow' & Hn & Hmn).
          rewrite Hfind in Hrow'. injection Hrow' as <-.
          apply (Hall x n Hn Hmn).
      - exists [], visited. rewrite app_nil_r.
        split; [reflexivity|]. split; [constructor|]. split.
        + intros x Hx. inversion Hx.
        + split; [intros x; split; [auto|intros [Hx|Hx]; [exact Hx|inversion Hx]]|].
          intros x (row' & n & Hrow' & _). congruence. }
    destruct Hstep as (new & visited' & Hstep & Hndn & Hnew & Hvis' & Hall').
    rewrite Hstep in Hbfs.
    apply IH in Hbfs.
    + destruct Hbfs as (extra & -> & Hnde & Hqe & Hfresh & Hv & Hlink & Hclosed
                        & Hempty & _ & Hconn).
      exists (current :: extra).
      split; [rewrite <- app_assoc; reflexivity|].
      assert (Hcure : current ∉ extra).
      { intros Hin. destruct (Hfresh current Hin) as [Hq|Hno].
        - apply elem_of_app in Hq as [Hq|Hq]; [contradiction|].
          destruct (Hnew current Hq) as [Hno _]. contradiction.
        - apply Hno, Hvis'. left. exact Hcurv. }
      split; [constructor; assumption|].
      split.
      { intros x Hx. apply elem_of_cons in Hx as [->|Hx]; [left|right].
        apply Hqe, elem_of_app. left. exact Hx. }
      split.
      { intros x Hx. apply elem_of_cons in Hx as [->|Hx]; [left; left|].
        destruct (Hfresh x Hx) as [Hq|Hno].
        - apply elem_of_app in Hq as [Hq|Hq]; [left; right; exact Hq|].
          right. apply (Hnew x Hq).
        - right. intros Hxv. apply Hno, Hvis'. left. exact Hxv. }
      split.
      { intros x. rewrite Hv, Hvis', elem_of_cons. split.
        - intros [[Hx|Hx]|Hx]; [tauto| |tauto].
          right. right. apply Hqe, elem_of_app. right. exact Hx.
        - intros [Hx|[->|Hx]]; [tauto| |tauto]. left. left. exact Hcurv. }
      split.
      { intros x Hx. apply elem_of_cons in Hx as [->|Hx]; [left; left|].
        destruct (Hlink x Hx) as [Hq|(y & Hy & Hs)].
        - apply elem_of_app in Hq as [Hq|Hq]; [left; right; exact Hq|].
          right. exists current. split; [left|apply (Hnew x Hq)].
        - right. exists y. split; [right; exact Hy|exact Hs]. }
      split.
      { intros y x Hy Hs. apply elem_of_cons in Hy as [->|Hy].
        - apply Hv. left. apply Hall'. exact Hs.
        - apply (Hclosed y x Hy Hs). }
      split; [discriminate|].
      split.
      { intros s [= -> ->]. exists extra. split; [reflexivity|].
        intros Hne. destruct new as [|x new].
        - exfalso. apply Hne, Hempty. reflexivity.
        - exists x. split; [apply Hqe; left|apply Hnew; left]. }
      intros x Hx. apply elem_of_cons in Hx as [->|Hx].
      { exists current. split; [left|apply rtc_refl]. }
      destruct (Hconn x Hx) as (q & Hq & Hreach).
      apply elem_of_app in Hq as [Hq|Hq].
      * exists q. split; [right; exact Hq|exact Hreach].
      * exists current. split; [left|].
        eapply rtc_l; [apply (Hnew q Hq)|exact Hreach].
    + apply NoDup_app. repeat split; [exact Hrest| |exact Hndn].
      intros x Hx Hx'. destruct (Hnew x Hx') as [Hno _].
      apply Hno, Hsub. right. exact Hx.
    + intros x Hx. apply Hvis'. apply elem_of_app in Hx as [Hx|Hx]; [|tauto].
      left. apply Hsub. right. exact Hx.
Qed.

End Components.

Section ExploredComponents.

Import CoVotingGraph.

Local Arguments bfs : simpl never.

Lemma snoc_split {A : Type} (l pre post : list A) (a b : A) :
  l ++ [a] = pre ++ b :: post ->
  (post = [] /\ pre = l /\ b = a)
  \/ (exists post', post = post' ++ [a] /\ l = pre ++ b :: post').
Proof.
  destruct post as [|p post] using rev_ind.
  - intros H. apply app_inj_tail in H as [-> ->]. left. auto.
  - clear IHpost. intros H.
    rewrite app_comm_cons, app_assoc in H.
    apply app_inj_tail in H as [-> ->]. right. exists post. auto.
Qed.

Lemma Explored_init adj m : Explored adj m [] [] ∅.
Proof.
  split; simpl.
  - reflexivity.
  - constructor.
  - intros x. split; intros H; [|inversion H].
    apply not_elem_of_empty in H. contradiction.
  - constructor.
  - intros pre c post y x H. destruct pre; discriminate.
  - constructor.
Qed.

Lemma Explored_step adj m comps communities visited user row st' :
  (user, row) ∈ adj ->
  Explored adj m comps communities visited ->
  exploreFrom adj m (Some (communities, visited)) (user, row) = Some st' ->
  exists comps',
    Explored adj m comps' st'.1 st'.2
    /\ user ∈ st'.2
    /\ (forall x, x ∈ visited -> x ∈ st'.2).
Proof.
  intros Hentry Hexp Hstep.
  unfold exploreFrom in Hstep. simpl in Hstep.
  case_bool_decide as Huser.
  { injection Hstep as <-. exists comps. simpl. auto. }
  destruct (bfs (bfsFuel adj) adj m [user] ({[user]} ∪ visited) [])
    as [[c v]|] eqn:Hbfs; [|discriminate].
  simpl in Hstep. injection Hstep as <-. simpl.
  apply bfs_spec in Hbfs.
  2:{ apply NoDup_singleton. }
  2:{ intros x Hx. apply list_elem_of_singleton in Hx. subst x.
      apply elem_of_union. left. apply elem_of_singleton. reflexivity. }
  destruct Hbfs as (extra & Hc & Hnd & Hq & Hfresh & Hv & Hlink & Hclosed
                    & _ & Hhead & Hconn).
  simpl in Hc. subst extra.
  destruct (Hhead user eq_refl) as (rest & -> & Hrest).
  destruct Hexp as [Hrep Hndc Hvis Hstart Hcl Hcon].
  assert (Hnew : forall x, x ∈ user :: rest -> x ∉ visited).
  { intros x Hx. destruct (Hfresh x Hx) as [Hin|Hno].
    - apply list_elem_of_singleton in Hin. subst x. exact Huser.
    - intros Hxv. apply Hno, elem_of_union. right. exact Hxv. }
  assert (Hconcat : concat (comps ++ [user :: rest])
                    = concat comps ++ user :: rest).
  { rewrite concat_app. simpl. rewrite app_nil_r. reflexivity. }
  exists (comps ++ [user :: rest]).
  split; [|split].
  - split.
    + rewrite filter_app, filter_cons, filter_nil, Hrep.
      f_equal. simpl length.
      destruct rest as [|r rest]; simpl.
      * rewrite app_nil_r. reflexivity.
      * reflexivity.
    + rewrite Hconcat. apply NoDup_app. repeat split; [exact Hndc| |exact Hnd].
      intros x Hx Hx'. apply (Hnew x Hx'). apply Hvis. exact Hx.
    + intros x. rewrite Hconcat, elem_of_app, Hv, elem_of_union,
        elem_of_singleton, <- Hvis.
      split; [intros [[->|Hx]|Hx]; [right; left|tauto|tauto]|tauto].
    + apply Forall_app. split; [exact Hstart|].
      constructor; [|constructor].
      exists user, rest. split; [reflexivity|].
      split.
      { apply find_keys. apply list_elem_of_fmap. exists (user, row). auto. }
      split; [exact Hrest|].
      intros x Hx. destruct (Hlink x) as [Hin|Hy]; [right; exact Hx| |exact Hy].
      apply list_elem_of_singleton in Hin. subst x.
      apply NoDup_cons in Hnd as [Hno _]. contradiction.
    + intros pre c post y x Hsplit Hy Hs.
      apply snoc_split in Hsplit as [(-> & -> & ->)|(post' & -> & ->)].
      * rewrite Hconcat. apply elem_of_app.
        pose proof (Hclosed y x Hy Hs) as Hxv.
        apply Hv in Hxv as [Hxv|Hxv]; [|right; exact Hxv].
        apply elem_of_union in Hxv as [Hxv|Hxv].
        -- apply elem_of_singleton in Hxv. subst x. right. left.
        -- left. apply Hvis. exact Hxv.
      * apply (Hcl pre c post' y x eq_refl Hy Hs).
    + apply Forall_app. split; [exact Hcon|].
      constructor; [|constructor].
      exists user, rest. split; [reflexivity|].
      intros x Hx. destruct (Hconn x Hx) as (q & Hq' & Hreach).
      apply list_elem_of_singleton in Hq'. subst q. exact Hreach.
  - apply Hv. right. left.
  - intros x Hx. apply Hv. left. apply elem_of_union. right. exact Hx.
Qed.

Lemma Explored_fold adj m entries comps communities visited st' :
  (forall entry, entry ∈ entries -> entry ∈ adj) ->
  Explored adj m comps communities visited ->
  fold_left (exploreFrom adj m) entries (Some (communities, visited))
  = Some st' ->
  exists comps',
    Explored adj m comps' st'.1 st'.2
    /\ (forall entry, entry ∈ entries -> entry.1 ∈ st'.2)
    /\ (forall x, x ∈ visited -> x ∈ st'.2).
Proof.
  revert comps communities visited.
  induction entries as [|[user row] entries IH];
    intros comps communities visited Hsub Hexp Hfold; cbn [fold_left] in Hfold.
  - injection Hfold as <-. exists comps. simpl.
    split; [exact Hexp|]. split; [intros e He; inversion He|auto].
  - destruct (exploreFrom adj m (Some (communities, visited)) (user, row))
      as [[communities1 visited1]|] eqn:Hstep.
    + destruct (Explored_step adj m comps communities visited user row _
                  (Hsub _ (list_elem_of_here _ _)) Hexp Hstep)
        as (comps1 & Hexp1 & Huser & Hmono).
      simpl in *.
      destruct (IH comps1 communities1 visited1) as (comps' & Hexp' & Hall & Hmono');
        [intros e He; apply Hsub; right; exact He|exact Hexp1|exact Hfold|].
      exists comps'. split; [exact Hexp'|]. split.
      * intros e He. apply elem_of_cons in He as [->|He]; [|auto].
        simpl. apply Hmono'. exact Huser.
      * intros x Hx. apply Hmono', Hmono, Hx.
    + exfalso. clear -Hfold.
      induction entries as [|e entries IHe]; cbn [fold_left] in Hfold;
        [discriminate|auto].
Qed.

(** The components behind a result of [detectCommunities]. *)
Lemma detectCommunities_Explored m g :
  exists comps visited,
    Explored (adjacency g) m comps (detectCommunities m g) visited
    /\ (forall u, is_Some (UMap.find u (adjacency g)) -> u ∈ visited).
Proof.
  pose proof (detectCommunities_total m g) as Htotal.
  unfold detectCommunitiesOpt in Htotal.
  destruct (fold_left (exploreFrom (adjacency g) m) (adjacency g)
              (Some ([], ∅))) as [st'|] eqn:Hfold; [|discriminate].
  simpl in Htotal. injection Htotal as Hst.
  destruct (Explored_fold (adjacency g) m (adjacency g) [] [] ∅ st')
    as (comps & Hexp & Hall & _);
    [auto|apply Explored_init|exact Hfold|].
  exists comps, st'.2. rewrite <- Hst. split; [exact Hexp|].
  intros u Hu. apply find_keys in Hu.
  apply list_elem_of_fmap in Hu as ([u' row] & -> & Hentry).
  apply (Hall _ Hentry).
Qed.

Lemma elem_of_concat {A : Type} (x : A) (ls : list (list A)) :
  x ∈ concat ls <-> exists l, x ∈ l /\ l ∈ ls.
Proof.
  induction ls as [|l ls IH]; simpl.
  - split; [intros H; inversion H|intros (l & _ & H); inversion H].
  - rewrite elem_of_app, IH. split.
    + intros [H|(l' & H & H')]; [exists l; split; [exact H|left]|].
      exists l'. split; [exact H|right; exact H'].
    + intros (l' & H & H'). apply elem_of_cons in H' as [->|H'];
        [left; exact H|right; exists l'; auto].
Qed.

Lemma concat_filter_NoDup {A : Type} (P : list A -> Prop)
      `{!forall c, Decision (P c)} (comps : list (list A)) :
  NoDup (concat comps) -> NoDup (concat (filter P comps)).
Proof.
  induction comps as [|c comps IH]; simpl; intros Hnd; [constructor|].
  apply NoDup_app in Hnd as (Hc & Hdisj & Hrest).
  rewrite filter_cons. destruct (decide (P c)); [|auto].
  simpl. apply NoDup_app. repeat split; [exact Hc| |auto].
  intros x Hx Hx'. apply (Hdisj x Hx).
  apply elem_of_concat in Hx' as (c' & Hxc & Hc').
  apply elem_of_concat. exists c'. split; [exact Hxc|].
  apply list_elem_of_filter in Hc'. tauto.
Qed.

Lemma build_weight_sym votes u v :
  weight (adjacency (build votes)) u v = weight (adjacency (build votes)) v u.
Proof.
  induction votes as [|[w p] votes IH] using rev_ind; [reflexivity|].
  rewrite build_snoc, !addVote_weight, IH, links_sym. reflexivity.
Qed.

Lemma strong_weight votes m y x :
  strong (adjacency (build votes)) m y x <->
  0 < weight (adjacency (build votes)) y x
  /\ m <= weight (adjacency (build votes)) y x.
Proof.
  pose proof (Stored_build votes) as Hadj. split.
  - intros (row & n & Hrow & Hn & Hmn).
    apply find_elem_of in Hrow.
    destruct (Stored_entry _ y row x n Hadj Hrow Hn) as (-> & _ & Hpos). lia.
  - intros [Hpos Hmn].
    destruct (weight_pos_entry _ y x Hadj Hpos) as (row & Hrow & Hentry).
    exists row, (weight (adjacency (build votes)) y x).
    split; [apply elem_of_find; [apply Hadj|exact Hrow]|auto].
Qed.

(** In a reported community of a built graph every member has another
    member with which it shares at least [m] co-votes. *)
Lemma community_partner votes m c x :
  c ∈ detectCommunities m (build votes) -> x ∈ c ->
  exists y, y ∈ c /\ y <> x
            /\ 0 < getCoVoteCount x y (build votes)
            /\ m <= getCoVoteCount x y (build votes).
Proof.
  intros Hc Hx.
  destruct (detectCommunities_Explored m (build votes))
    as (comps & visited & [Hrep _ _ Hstart _ _] & _).
  rewrite Hrep in Hc. apply list_elem_of_filter in Hc as [Hlen Hc].
  rewrite Forall_forall in Hstart.
  destruct (Hstart c Hc) as (s & rest & -> & _ & Hfirst & Hlink).
  assert (Hself : forall a b, strong (adjacency (build votes)) m a b -> a <> b).
  { intros a b (row & n & Hrow & Hn & _) ->.
    apply find_elem_of in Hrow.
    destruct (Stored_entry _ b row b n (Stored_build votes) Hrow Hn)
      as (_ & Hne & _). congruence. }
  apply elem_of_cons in Hx as [->|Hx].
  - destruct Hfirst as (y & Hy & Hs).
    { destruct rest; [simpl in Hlen; lia|discriminate]. }
    exists y. split; [right; exact Hy|].
    split; [intros ->; apply (Hself _ _ Hs); reflexivity|].
    rewrite !getCoVoteCount_weight. apply strong_weight. exact Hs.
  - destruct (Hlink x Hx) as (y & Hy & Hs).
    exists y. split; [exact Hy|].
    split; [apply (Hself _ _ Hs)|].
    rewrite !getCoVoteCount_weight, build_weight_sym.
    apply strong_weight. exact Hs.
Qed.

End ExploredComponents.

Lemma detectCommunities_concat_NoDup (m : Z) (g : CoVotingGraph.t) :
  NoDup (concat (CoVotingGraph.detectCommunities m g)).
Proof.
  destruct (detectCommunities_Explored m g)
    as (comps & visited & [Hrep Hnd _ _ _ _] & _).
  rewrite Hrep. apply concat_filter_NoDup. exact Hnd.
Qed.

(** X7: the communities [detectCommunities] reports are pairwise disjoint
    and list no user twice, each has two or more members, and each starts
    with a user that has an adjacency row; this holds for every graph and
    threshold. *)
Theorem detectCommunities_disjoint (m : Z) (g : CoVotingGraph.t) :
  NoDup (concat (CoVotingGraph.detectCommunities m g))
  /\ Forall (fun c => (2 <= length c)%nat
                      /\ exists s rest,
                           c = s :: rest
                           /\ is_Some (UMap.find s (CoVotingGraph.adjacency g)))
            (CoVotingGraph.detectCommunities m g).
Proof.
  split; [apply detectCommunities_concat_NoDup|].
  destruct (detectCommunities_Explored m g)
    as (comps & visited & [Hrep _ _ Hstart _ _] & _).
  - rewrite Hrep. apply Forall_forall. intros c Hc.
    apply list_elem_of_filter in Hc as [Hlen Hc].
    split; [exact Hlen|].
    rewrite Forall_forall in Hstart.
    destruct (Hstart c Hc) as (s & rest & -> & Hs & _).
    exists s, rest. auto.
Qed.

(** X8: in a graph built by [addVote] calls, every member of a reported
    community has another member of that community with which it shares
    at least [minCoVotes] (and at least one) co-votes. *)
Theorem detectCommunities_members_linked (votes : list (string * string))
        (m : Z) (c : list string) (x : string) :
  c ∈ CoVotingGraph.detectCommunities m (CoVotingGraph.build votes) ->
  x ∈ c ->
  exists y, y ∈ c /\ y <> x
            /\ 0 < CoVotingGraph.getCoVoteCount x y (CoVotingGraph.build votes)
            /\ m <= CoVotingGraph.getCoVoteCount x y
                      (CoVotingGraph.build votes).
Proof. apply community_partner. Qed.

Lemma detectCommunities_members_linked_witness :
  ["b"; "a"]%string
  ∈ CoVotingGraph.detectCommunities 1
      (CoVotingGraph.build [("a", "p"); ("b", "p")]%string)
  /\ "a"%string ∈ ["b"; "a"]%string
  /\ exists y, y ∈ ["b"; "a"]%string /\ y <> "a"%string
               /\ 0 < CoVotingGraph.getCoVoteCount "a" y
                        (CoVotingGraph.build [("a", "p"); ("b", "p")]%string)
               /\ 1 <= CoVotingGraph.getCoVoteCount "a" y
                         (CoVotingGraph.build [("a", "p"); ("b", "p")]%string).
Proof.
  assert (Hc : ["b"; "a"]%string
               ∈ CoVotingGraph.detectCommunities 1
                   (CoVotingGraph.build [("a", "p"); ("b", "p")]%string))
    by (vm_compute; left).
  assert (Hx : "a"%string ∈ ["b"; "a"]%string) by (right; left).
  split; [exact Hc|]. split; [exact Hx|].
  apply (detectCommunities_members_linked
           [("a", "p"); ("b", "p")]%string 1 ["b"; "a"]%string "a" Hc Hx).
Defined.

(** X9: when the threshold exceeds every co-vote count of a built graph,
    [detectCommunities] reports no community. *)
Theorem detectCommunities_high_threshold (votes : list (string * string))
        (m : Z) :
  (forall x y,
      CoVotingGraph.getCoVoteCount x y (CoVotingGraph.build votes) < m) ->
  CoVotingGraph.detectCommunities m (CoVotingGraph.build votes) = [].
Proof.
  intros Hlow.
  destruct (CoVotingGraph.detectCommunities m (CoVotingGraph.build votes))
    as [|c cs] eqn:Hres; [reflexivity|].
  exfalso.
  pose proof (detectCommunities_sizes m (CoVotingGraph.build votes)) as Hsizes.
  rewrite Hres in Hsizes. apply Forall_cons in Hsizes as [Hlen _].
  destruct c as [|x c]; [simpl in Hlen; lia|].
  destruct (community_partner votes m (x :: c) x) as (y & _ & _ & _ & Hm).
  - rewrite Hres. left.
  - left.
  - specialize (Hlow x y). lia.
Qed.

Lemma detectCommunities_high_threshold_witness :
  (forall x y,
      CoVotingGraph.getCoVoteCount x y
        (CoVotingGraph.build [("a", "p"); ("b", "p")]%string) < 2)
  /\ CoVotingGraph.detectCommunities 2
       (CoVotingGraph.build [("a", "p"); ("b", "p")]%string) = [].
Proof.
  assert (Hlow : forall x y,
             CoVotingGraph.getCoVoteCount x y
               (CoVotingGraph.build [("a", "p"); ("b", "p")]%string) < 2).
  { intros x y. rewrite getCoVoteCount_weight.
    change (CoVotingGraph.build [("a", "p"); ("b", "p")]%string)
      with (CoVotingGraph.addVote "b" "p"
              (CoVotingGraph.addVote "a" "p" CoVotingGraph.empty)).
    rewrite !addVote_weight. simpl. unfold link.
    change (weight [] x y) with 0.
    repeat case_bool_decide; try lia; exfalso; intuition congruence. }
  split; [exact Hlow|].
  apply (detectCommunities_high_threshold
           [("a", "p"); ("b", "p")]%string 2 Hlow).
Defined.

Section ConnectedComponents.

Import CoVotingGraph.

Lemma coLinked_strong votes m x y :
  coLinked (build votes) m x y <-> strong (adjacency (build votes)) m x y.
Proof.
  unfold coLinked. rewrite !getCoVoteCount_weight. symmetry.
  apply strong_weight.
Qed.

Lemma coLinked_sym votes m x y :
  coLinked (build votes) m x y -> coLinked (build votes) m y x.
Proof.
  unfold coLinked. rewrite !getCoVoteCount_weight, (build_weight_sym votes y x).
  tauto.
Qed.

Lemma coLinked_irrefl votes m x : ~ coLinked (build votes) m x x.
Proof.
  unfold coLinked. rewrite getCoVoteCount_weight. intros [Hpos _].
  destruct (weight_pos_entry _ x x (Stored_build votes) Hpos)
    as (row & Hrow & Hentry).
  destruct (Stored_entry _ x row x _ (Stored_build votes) Hrow Hentry)
    as (_ & Hne & _).
  congruence.
Qed.

(** In a built graph a component holds every user linked to one of its
    members. *)
Lemma component_closed votes m comps communities visited pre c post y z :
  Explored (adjacency (build votes)) m comps communities visited ->
  comps = pre ++ c :: post -> y ∈ c -> coLinked (build votes) m y z ->
  z ∈ c.
Proof.
  intros [_ Hnd _ _ Hcl _] Hcomps Hyc Hyz.
  pose proof (coLinked_sym votes m y z Hyz) as Hzy.
  apply coLinked_strong in Hyz, Hzy.
  pose proof (Hcl pre c post y z Hcomps Hyc Hyz) as Hz.
  rewrite concat_app in Hz. simpl in Hz. rewrite app_nil_r in Hz.
  apply elem_of_app in Hz as [Hz|Hz]; [|exact Hz]. exfalso.
  apply elem_of_concat in Hz as (c' & Hzc' & Hc').
  apply list_elem_of_split in Hc' as (pre1 & post1 & Hpre).
  assert (Hcomps' : comps = pre1 ++ c' :: (post1 ++ c :: post)).
  { rewrite Hcomps, Hpre, <- app_assoc. reflexivity. }
  pose proof (Hcl pre1 c' _ z y Hcomps' Hzc' Hzy) as Hy'.
  assert (Hsplit : concat comps
                   = concat (pre1 ++ [c'])
                     ++ (concat post1 ++ c ++ concat post)).
  { rewrite Hcomps', !concat_app. simpl. rewrite concat_app. simpl.
    rewrite app_nil_r, <- !app_assoc. reflexivity. }
  rewrite Hsplit in Hnd. apply NoDup_app in Hnd as (_ & Hdisj & _).
  apply (Hdisj y Hy'). rewrite !elem_of_app. right. left. exact Hyc.
Qed.

Lemma community_closed votes m c y z :
  c ∈ detectCommunities m (build votes) -> y ∈ c ->
  coLinked (build votes) m y z -> z ∈ c.
Proof.
  intros Hc Hyc Hyz.
  destruct (detectCommunities_Explored m (build votes))
    as (comps & visited & Hexp & _).
  rewrite (explored_reported _ _ _ _ _ Hexp) in Hc.
  apply list_elem_of_filter in Hc as [_ Hc].
  apply list_elem_of_split in Hc as (pre & post & Hcomps).
  exact (component_closed votes m comps _ visited pre c post y z
           Hexp Hcomps Hyc Hyz).
Qed.

Lemma community_closed_rtc votes m c y z :
  c ∈ detectCommunities m (build votes) -> y ∈ c ->
  rtc (coLinked (build votes) m) y z -> z ∈ c.
Proof.
  intros Hc Hyc Hreach. induction Hreach as [y|y y' z Hstep _ IH];
    [exact Hyc|].
  apply IH. exact (community_closed votes m c y y' Hc Hyc Hstep).
Qed.

Lemma community_connected votes m c :
  c ∈ detectCommunities m (build votes) ->
  exists s rest,
    c = s :: rest
    /\ forall x, x ∈ c -> rtc (coLinked (build votes) m) s x.
Proof.
  intros Hc.
  destruct (detectCommunities_Explored m (build votes))
    as (comps & visited & Hexp & _).
  rewrite (explored_reported _ _ _ _ _ Hexp) in Hc.
  apply list_elem_of_filter in Hc as [_ Hc].
  pose proof (explored_connected _ _ _ _ _ Hexp) as Hcon.
  rewrite Forall_forall in Hcon.
  destruct (Hcon c Hc) as (s & rest & -> & Hreach).
  exists s, rest. split; [reflexivity|].
  intros x Hx. eapply rtc_subrel; [|apply Hreach, Hx].
  intros a b Hab. apply coLinked_strong, Hab.
Qed.

Lemma community_of_linked votes m x y :
  coLinked (build votes) m x y ->
  exists c, c ∈ detectCommunities m (build votes) /\ x ∈ c /\ y ∈ c.
Proof.
  intros Hxy.
  assert (Hne : x <> y) by (intros ->; exact (coLinked_irrefl votes m y Hxy)).
  destruct (detectCommunities_Explored m (build votes))
    as (comps & visited & Hexp & Hall).
  assert (Hx : x ∈ concat comps).
  { apply (explored_visited _ _ _ _ _ Hexp), Hall.
    apply coLinked_strong in Hxy. destruct Hxy as (row & _ & -> & _). eauto. }
  apply elem_of_concat in Hx as (c & Hxc & Hc).
  pose proof Hc as Hc'. apply list_elem_of_split in Hc' as (pre & post & Hcomps).
  pose proof (component_closed votes m comps _ visited pre c post x y
                Hexp Hcomps Hxc Hxy) as Hyc.
  exists c. split; [|auto].
  rewrite (explored_reported _ _ _ _ _ Hexp).
  apply list_elem_of_filter. split; [|exact Hc].
  destruct c as [|a [|b c]]; [inversion Hxc| |simpl; lia].
  apply list_elem_of_singleton in Hxc, Hyc. congruence.
Qed.

Lemma build_weight_mono votes more x y :
  weight (adjacency (build votes)) x y
  <= weight (adjacency (build (votes ++ more))) x y.
Proof.
  induction more as [|[u p] more IH] using rev_ind.
  - rewrite app_nil_r. lia.
  - rewrite app_assoc, build_snoc, addVote_weight.
    pose proof (links_bounds u
                  (USet.insert u
                     (default [] (UMap.find p
                                    (proposalVoters (build (votes ++ more))))))
                  x y) as [Hl _].
    lia.
Qed.

Lemma coLinked_mono votes more m x y :
  coLinked (build votes) m x y -> coLinked (build (votes ++ more)) m x y.
Proof.
  unfold coLinked. rewrite !getCoVoteCount_weight.
  pose proof (build_weight_mono votes more x y). lia.
Qed.

End ConnectedComponents.

(** X10: in a graph built by [addVote] calls, two users that share at
    least one and at least [minCoVotes] co-votes are reported together,
    in one community. *)
Theorem detectCommunities_groups_linked (votes : list (string * string))
        (m : Z) (x y : string) :
  0 < CoVotingGraph.getCoVoteCount x y (CoVotingGraph.build votes) ->
  m <= CoVotingGraph.getCoVoteCount x y (CoVotingGraph.build votes) ->
  exists c,
    c ∈ CoVotingGraph.detectCommunities m (CoVotingGraph.build votes)
    /\ x ∈ c /\ y ∈ c.
Proof.
  intros Hpos Hm. apply community_of_linked. split; assumption.
Qed.

Lemma detectCommunities_groups_linked_witness :
  0 < CoVotingGraph.getCoVoteCount "a" "b"
        (CoVotingGraph.build [("a", "p"); ("b", "p")]%string)
  /\ 1 <= CoVotingGraph.getCoVoteCount "a" "b"
            (CoVotingGraph.build [("a", "p"); ("b", "p")]%string)
  /\ exists c,
       c ∈ CoVotingGraph.detectCommunities 1
             (CoVotingGraph.build [("a", "p"); ("b", "p")]%string)
       /\ "a"%string ∈ c /\ "b"%string ∈ c.
Proof.
  assert (Hpos : 0 < CoVotingGraph.getCoVoteCount "a" "b"
                       (CoVotingGraph.build [("a", "p"); ("b", "p")]%string))
    by (vm_compute; reflexivity).
  assert (Hm : 1 <= CoVotingGraph.getCoVoteCount "a" "b"
                      (CoVotingGraph.build [("a", "p"); ("b", "p")]%string))
    by (vm_compute; discriminate).
  split; [exact Hpos|]. split; [exact Hm|].
  apply (detectCommunities_groups_linked
           [("a", "p"); ("b", "p")]%string 1 "a" "b" Hpos Hm).
Defined.

(** ** Vote tracking of the engine *)

Section Tracking.

Import AntiAbuseEngine.

Lemma updateBotDetection_ipToUsers u e :
  ipToUsers (updateBotDetection u e) = ipToUsers e.
Proof. unfold updateBotDetection. frame. Qed.

Lemma updateBotDetection_deviceToUsers u e :
  deviceToUsers (updateBotDetection u e) = deviceToUsers e.
Proof. unfold updateBotDetection. frame. Qed.

Lemma sameTracking_refl e : sameTracking e e.
Proof. repeat split. Qed.

Lemma sameTracking_trans e1 e2 e3 :
  sameTracking e1 e2 -> sameTracking e2 e3 -> sameTracking e1 e3.
Proof.
  intros (H1 & H2 & H3 & H4 & H5 & H6 & H7 & H8)
         (K1 & K2 & K3 & K4 & K5 & K6 & K7 & K8).
  repeat split; intros; congruence.
Qed.

Lemma sameTracking_updateBotDetection u e :
  sameTracking e (updateBotDetection u e).
Proof.
  unfold sameTracking, historyOf, devicesOf, ipsOf.
  rewrite updateBotDetection_userVelocityWindows,
    updateBotDetection_userDevices, updateBotDetection_userIPs,
    updateBotDetection_ipToUsers, updateBotDetection_deviceToUsers,
    updateBotDetection_coVotingGraph, updateBotDetection_velocityWindowSeconds.
  repeat split; intros k.
  - apply updateBotDetection_userVoteHistory.
  - apply at_touch.
  - apply at_touch.
Qed.

Lemma sameTracking_detectBot u e : sameTracking e (detectBot u e).2.
Proof.
  unfold detectBot. destruct (botDetectionCache e !! u); simpl.
  - apply sameTracking_refl.
  - apply sameTracking_updateBotDetection.
Qed.

Lemma sameTracking_updateCollusionDetection e :
  sameTracking e (updateCollusionDetection e).
Proof.
  destruct (updateCollusionDetection_update e) as (s & a & n & ->).
  repeat split.
Qed.

Lemma sameTracking_calculateUserCredibility u e :
  sameTracking e (calculateUserCredibility u e).2.
Proof.
  rewrite calculateUserCredibility_unfold. simpl.
  eapply sameTracking_trans; [apply (sameTracking_detectBot u)|].
  unfold sameTracking, historyOf, devicesOf, ipsOf. simpl.
  repeat split; intros k; apply at_touch.
Qed.

Lemma sameTracking_fold_calculateUserCredibility users e :
  sameTracking e
    (fold_left (fun e userId => snd (calculateUserCredibility userId e))
       users e).
Proof.
  revert e. induction users as [|u users IH]; intros e; simpl.
  - apply sameTracking_refl.
  - eapply sameTracking_trans; [|apply IH].
    apply sameTracking_calculateUserCredibility.
Qed.

Lemma sameTracking_calculateAllCredibilityScores e :
  sameTracking e (calculateAllCredibilityScores e).
Proof.
  unfold calculateAllCredibilityScores.
  eapply sameTracking_trans; [apply sameTracking_updateCollusionDetection|].
  apply sameTracking_fold_calculateUserCredibility.
Qed.

Lemma sameTracking_getUserTrustScore u e :
  sameTracking e (getUserTrustScore u e).2.
Proof.
  unfold getUserTrustScore.
  destruct (userCredibilityScores e !! u); [apply sameTracking_refl|].
  pose proof (sameTracking_calculateUserCredibility u e) as H.
  destruct (calculateUserCredibility u e). exact H.
Qed.

Lemma recordVoteEvent_historyOf u p ts ip dev e k :
  historyOf k (recordVoteEvent u p ts ip dev e)
  = if decide (k = u) then historyOf u e ++ [recordedEvent u p ts ip dev e]
    else historyOf k e.
Proof.
  unfold recordVoteEvent, historyOf.
  rewrite updateBotDetection_userVoteHistory.
  destruct (decide (k = u)) as [->|Hne];
    repeat match goal with
           | |- context [if ?b then _ else _] => destruct b
           end; simpl;
    rewrite ?at_insert_eq, ?at_insert_ne by congruence; reflexivity.
Qed.

Lemma recordVoteEvent_userVelocityWindows u p ts ip dev e :
  userVelocityWindows (recordVoteEvent u p ts ip dev e)
  = <[u := SlidingWindow.addEvent ts
             (HMap.at_ u (SlidingWindow.make (velocityWindowSeconds e))
                (userVelocityWindows e))]> (userVelocityWindows e).
Proof.
  unfold recordVoteEvent. rewrite updateBotDetection_userVelocityWindows.
  frame.
Qed.

Lemma recordVoteEvent_devicesOf u p ts ip dev e k :
  devicesOf k (recordVoteEvent u p ts ip dev e)
  = if decide (k = u /\ dev <> ""%string) then {[dev]} ∪ devicesOf u e
    else devicesOf k e.
Proof.
  unfold recordVoteEvent, devicesOf.
  rewrite updateBotDetection_userDevices, at_touch.
  destruct (decide (dev <> ""%string)) as [Hdev|Hdev].
  - rewrite (bool_decide_eq_true_2 _ Hdev).
    destruct (decide (k = u)) as [->|Hne].
    + rewrite decide_True by auto.
      destruct (bool_decide (ip <> ""%string)); simpl;
        unfold HMap.modify; rewrite at_insert_eq; reflexivity.
    + rewrite decide_False by tauto.
      destruct (bool_decide (ip <> ""%string)); simpl;
        rewrite at_modify_ne by congruence; reflexivity.
  - rewrite (bool_decide_eq_false_2 _ Hdev).
    rewrite decide_False by tauto.
    destruct (bool_decide (ip <> ""%string)); reflexivity.
Qed.

Lemma recordVoteEvent_ipsOf u p ts ip dev e k :
  ipsOf k (recordVoteEvent u p ts ip dev e)
  = if decide (k = u /\ ip <> ""%string) then {[ip]} ∪ ipsOf u e
    else ipsOf k e.
Proof.
  unfold recordVoteEvent, ipsOf.
  rewrite updateBotDetection_userIPs, at_touch.
  destruct (decide (ip <> ""%string)) as [Hip|Hip].
  - rewrite (bool_decide_eq_true_2 _ Hip).
    destruct (decide (k = u)) as [->|Hne].
    + rewrite decide_True by auto.
      destruct (bool_decide (dev <> ""%string)); simpl;
        unfold HMap.modify; rewrite at_insert_eq; reflexivity.
    + rewrite decide_False by tauto.
      destruct (bool_decide (dev <> ""%string)); simpl;
        rewrite at_modify_ne by congruence; reflexivity.
  - rewrite (bool_decide_eq_false_2 _ Hip).
    rewrite decide_False by tauto.
    destruct (bool_decide (dev <> ""%string)); reflexivity.
Qed.

Lemma getUsersWithSameDevice_at d e :
  getUsersWithSameDevice d e = HMap.at_ d [] (deviceToUsers e).
Proof.
  unfold getUsersWithSameDevice, HMap.at_.
  destruct (deviceToUsers e !! d); reflexivity.
Qed.

Lemma getUsersWithSameIP_at ip e :
  getUsersWithSameIP ip e = HMap.at_ ip [] (ipToUsers e).
Proof.
  unfold getUsersWithSameIP, HMap.at_.
  destruct (ipToUsers e !! ip); reflexivity.
Qed.

Lemma recordVoteEvent_getUsersWithSameDevice u p ts ip dev e d :
  getUsersWithSameDevice d (recordVoteEvent u p ts ip dev e)
  = if decide (d = dev /\ dev <> ""%string)
    then getUsersWithSameDevice dev e ++ [u]
    else getUsersWithSameDevice d e.
Proof.
  rewrite !getUsersWithSameDevice_at.
  unfold recordVoteEvent. rewrite updateBotDetection_deviceToUsers.
  destruct (decide (dev <> ""%string)) as [Hdev|Hdev].
  - rewrite (bool_decide_eq_true_2 _ Hdev).
    destruct (decide (d = dev)) as [->|Hne].
    + rewrite decide_True by auto.
      destruct (bool_decide (ip <> ""%string)); simpl;
        unfold HMap.modify; rewrite at_insert_eq; reflexivity.
    + rewrite decide_False by tauto.
      destruct (bool_decide (ip <> ""%string)); simpl;
        rewrite at_modify_ne by congruence; reflexivity.
  - rewrite (bool_decide_eq_false_2 _ Hdev).
    rewrite decide_False by tauto.
    destruct (bool_decide (ip <> ""%string)); reflexivity.
Qed.

Lemma recordVoteEvent_getUsersWithSameIP u p ts ip dev e i :
  getUsersWithSameIP i (recordVoteEvent u p ts ip dev e)
  = if decide (i = ip /\ ip <> ""%string)
    then getUsersWithSameIP ip e ++ [u]
    else getUsersWithSameIP i e.
Proof.
  rewrite !getUsersWithSameIP_at.
  unfold recordVoteEvent. rewrite updateBotDetection_ipToUsers.
  destruct (decide (ip <> ""%string)) as [Hip|Hip].
  - rewrite (bool_decide_eq_true_2 _ Hip).
    destruct (decide (i = ip)) as [->|Hne].
    + rewrite decide_True by auto.
      destruct (bool_decide (dev <> ""%string)); simpl;
        unfold HMap.modify; rewrite at_insert_eq; reflexivity.
    + rewrite decide_False by tauto.
      destruct (bool_decide (dev <> ""%string)); simpl;
        rewrite at_modify_ne by congruence; reflexivity.
  - rewrite (bool_decide_eq_false_2 _ Hip).
    rewrite decide_False by tauto.
    destruct (bool_decide (dev <> ""%string)); reflexivity.
Qed.

Lemma recordVoteEvent_coVotingGraph u p ts ip dev e :
  coVotingGraph (recordVoteEvent u p ts ip dev e)
  = CoVotingGraph.addVote u p (coVotingGraph e).
Proof.
  unfold recordVoteEvent. rewrite updateBotDetection_coVotingGraph. frame.
Qed.

Lemma recordVoteEvent_velocityWindowSeconds u p ts ip dev e :
  velocityWindowSeconds (recordVoteEvent u p ts ip dev e)
  = velocityWindowSeconds e.
Proof.
  unfold recordVoteEvent. rewrite updateBotDetection_velocityWindowSeconds.
  frame.
Qed.

End Tracking.

Section TrackedInvariant.

Import AntiAbuseEngine.

Lemma Tracked_sameTracking e e' :
  Tracked e -> sameTracking e e' -> Tracked e'.
Proof.
  intros [Hids Hwin Hdev Hip Hdu Hiu Hno Hg]
         (K1 & K2 & K3 & K4 & K5 & K6 & K7 & K8).
  assert (Kd : forall d, getUsersWithSameDevice d e'
                         = getUsersWithSameDevice d e)
    by (intros d; unfold getUsersWithSameDevice; rewrite K6; reflexivity).
  assert (Ki : forall i, getUsersWithSameIP i e' = getUsersWithSameIP i e)
    by (intros i; unfold getUsersWithSameIP; rewrite K5; reflexivity).
  split.
  - intros u i ev. rewrite K1. apply Hids.
  - intros u. rewrite K1, K2, K8. apply Hwin.
  - intros u d. rewrite K1, K3. apply Hdev.
  - intros u ip. rewrite K1, K4. apply Hip.
  - intros u d. rewrite K3, Kd. apply Hdu.
  - intros u ip. rewrite K4, Ki. apply Hiu.
  - rewrite Kd, Ki. exact Hno.
  - rewrite K7. exact Hg.
Qed.

Lemma Tracked_empty e :
  userVoteHistory e = ∅ -> userVelocityWindows e = ∅ ->
  userDevices e = ∅ -> userIPs e = ∅ ->
  deviceToUsers e = ∅ -> ipToUsers e = ∅ ->
  coVotingGraph e = CoVotingGraph.empty ->
  Tracked e.
Proof.
  intros Hh Hw Hd Hi Hdu Hiu Hg.
  assert (Hhist : forall u, historyOf u e = [])
    by (intros u; unfold historyOf, HMap.at_; rewrite Hh, lookup_empty;
        reflexivity).
  assert (Hdev : forall u, devicesOf u e = ∅)
    by (intros u; unfold devicesOf, HMap.at_; rewrite Hd, lookup_empty;
        reflexivity).
  assert (Hips : forall u, ipsOf u e = ∅)
    by (intros u; unfold ipsOf, HMap.at_; rewrite Hi, lookup_empty;
        reflexivity).
  split.
  - intros u i ev. rewrite Hhist. intros H. discriminate.
  - intros u. rewrite Hhist, Hw. apply lookup_empty.
  - intros u d. rewrite Hhist, Hdev. split.
    + intros H. apply not_elem_of_empty in H. contradiction.
    + intros (_ & ev & H & _). inversion H.
  - intros u ip. rewrite Hhist, Hips. split.
    + intros H. apply not_elem_of_empty in H. contradiction.
    + intros (_ & ev & H & _). inversion H.
  - intros u d. rewrite Hdev. intros H.
    apply not_elem_of_empty in H. contradiction.
  - intros u ip. rewrite Hips. intros H.
    apply not_elem_of_empty in H. contradiction.
  - unfold getUsersWithSameDevice, getUsersWithSameIP.
    rewrite Hdu, Hiu, !lookup_empty. auto.
  - exists []. exact Hg.
Qed.

Lemma Tracked_clearUser u e : Tracked e -> Tracked (clearUser u e).
Proof.
  intros [Hids Hwin Hdev Hip Hdu Hiu Hno Hg].
  assert (Hhist : forall k, historyOf k (clearUser u e)
                            = if decide (k = u) then [] else historyOf k e).
  { intros k. unfold historyOf. simpl. destruct (decide (k = u)) as [->|Hne].
    - apply at_delete_eq.
    - apply at_delete_ne. congruence. }
  assert (Hdevs : forall k, devicesOf k (clearUser u e)
                            = if decide (k = u) then ∅ else devicesOf k e).
  { intros k. unfold devicesOf. simpl. destruct (decide (k = u)) as [->|Hne].
    - apply at_delete_eq.
    - apply at_delete_ne. congruence. }
  assert (Hips : forall k, ipsOf k (clearUser u e)
                           = if decide (k = u) then ∅ else ipsOf k e).
  { intros k. unfold ipsOf. simpl. destruct (decide (k = u)) as [->|Hne].
    - apply at_delete_eq.
    - apply at_delete_ne. congruence. }
  split.
  - intros k i ev. rewrite Hhist. destruct (decide (k = u)); [|apply Hids].
    intros H. discriminate.
  - intros k. rewrite Hhist. simpl. destruct (decide (k = u)) as [->|Hne].
    + apply lookup_delete_eq.
    + rewrite lookup_delete_ne by congruence. apply Hwin.
  - intros k d. rewrite Hhist, Hdevs. destruct (decide (k = u)); [|apply Hdev].
    split.
    + intros H. apply not_elem_of_empty in H. contradiction.
    + intros (_ & ev & H & _). inversion H.
  - intros k ip. rewrite Hhist, Hips. destruct (decide (k = u)); [|apply Hip].
    split.
    + intros H. apply not_elem_of_empty in H. contradiction.
    + intros (_ & ev & H & _). inversion H.
  - intros k d. rewrite Hdevs. destruct (decide (k = u)).
    + intros H. apply not_elem_of_empty in H. contradiction.
    + apply Hdu.
  - intros k ip. rewrite Hips. destruct (decide (k = u)).
    + intros H. apply not_elem_of_empty in H. contradiction.
    + apply Hiu.
  - exact Hno.
  - exact Hg.
Qed.

Lemma Tracked_recordVoteEvent u p ts ip dev e :
  Tracked e -> Tracked (recordVoteEvent u p ts ip dev e).
Proof.
  intros [Hids Hwin Hdev Hip Hdu Hiu [Hnod Hnoi] Hg].
  split.
  - intros k i ev. rewrite recordVoteEvent_historyOf.
    destruct (decide (k = u)) as [->|Hne]; [|apply Hids].
    intros H. apply lookup_snoc_Some in H as [[_ H]|[-> <-]].
    + exact (Hids u i ev H).
    + split; reflexivity.
  - intros k.
    rewrite recordVoteEvent_historyOf, recordVoteEvent_userVelocityWindows,
      recordVoteEvent_velocityWindowSeconds.
    destruct (decide (k = u)) as [->|Hne].
    + rewrite lookup_insert_eq.
      destruct (historyOf u e ++ [recordedEvent u p ts ip dev e])
        as [|ev0 rest] eqn:E;
        [exfalso; destruct (historyOf u e); discriminate|].
      rewrite <- E, map_app.
      change (map VoteEvent.timestamp [recordedEvent u p ts ip dev e])
        with [ts].
      rewrite feed_snoc. do 2 f_equal.
      unfold HMap.at_. rewrite (Hwin u).
      destruct (historyOf u e); reflexivity.
    + rewrite lookup_insert_ne by congruence. apply Hwin.
  - intros k d. rewrite recordVoteEvent_historyOf, recordVoteEvent_devicesOf.
    destruct (decide (k = u)) as [->|Hne].
    + destruct (decide (u = u /\ dev <> ""%string)) as [[_ Hd]|Hd].
      * rewrite elem_of_union, elem_of_singleton, Hdev. split.
        -- intros [->|(Hne & ev & Hev & Hh)].
           ++ split; [exact Hd|].
              exists (recordedEvent u p ts ip dev e).
              split; [apply elem_of_app; right; left|reflexivity].
           ++ split; [exact Hne|]. exists ev.
              split; [apply elem_of_app; left; exact Hev|exact Hh].
        -- intros (Hne & ev & Hev & Hh).
           apply elem_of_app in Hev as [Hev|Hev].
           ++ right. split; [exact Hne|]. exists ev. auto.
           ++ apply list_elem_of_singleton in Hev. subst ev. left.
              symmetry. exact Hh.
      * assert (Hdev0 : dev = ""%string).
        { destruct (decide (dev = ""%string)); [assumption|tauto]. }
        rewrite Hdev. split.
        -- intros (Hne & ev & Hev & Hh). split; [exact Hne|]. exists ev.
           split; [apply elem_of_app; left; exact Hev|exact Hh].
        -- intros (Hne & ev & Hev & Hh). split; [exact Hne|].
           apply elem_of_app in Hev as [Hev|Hev]; [exists ev; auto|].
           apply list_elem_of_singleton in Hev. subst ev.
           simpl in Hh. congruence.
    + rewrite decide_False by tauto. apply Hdev.
  - intros k i. rewrite recordVoteEvent_historyOf, recordVoteEvent_ipsOf.
    destruct (decide (k = u)) as [->|Hne].
    + destruct (decide (u = u /\ ip <> ""%string)) as [[_ Hd]|Hd].
      * rewrite elem_of_union, elem_of_singleton, Hip. split.
        -- intros [->|(Hne & ev & Hev & Hh)].
           ++ split; [exact Hd|].
              exists (recordedEvent u p ts ip dev e).
              split; [apply elem_of_app; right; left|reflexivity].
           ++ split; [exact Hne|]. exists ev.
              split; [apply elem_of_app; left; exact Hev|exact Hh].
        -- intros (Hne & ev & Hev & Hh).
           apply elem_of_app in Hev as [Hev|Hev].
           ++ right. split; [exact Hne|]. exists ev. auto.
           ++ apply list_elem_of_singleton in Hev. subst ev. left.
              symmetry. exact Hh.
      * assert (Hip0 : ip = ""%string).
        { destruct (decide (ip = ""%string)); [assumption|tauto]. }
        rewrite Hip. split.
        -- intros (Hne & ev & Hev & Hh). split; [exact Hne|]. exists ev.
           split; [apply elem_of_app; left; exact Hev|exact Hh].
        -- intros (Hne & ev & Hev & Hh). split; [exact Hne|].
           apply elem_of_app in Hev as [Hev|Hev]; [exists ev; auto|].
           apply list_elem_of_singleton in Hev. subst ev.
           simpl in Hh. congruence.
    + rewrite decide_False by tauto. apply Hip.
  - intros k d.
    rewrite recordVoteEvent_devicesOf, recordVoteEvent_getUsersWithSameDevice.
    destruct (decide (d = dev /\ dev <> ""%string)) as [[-> Hd]|Hd].
    + destruct (decide (k = u /\ dev <> ""%string)) as [[-> _]|Hk].
      * intros _. apply elem_of_app. right. left.
      * intros H. apply elem_of_app. left. apply Hdu, H.
    + destruct (decide (k = u /\ dev <> ""%string)) as [[-> Hd']|Hk];
        [|apply Hdu].
      intros H. apply elem_of_union in H as [H|H]; [|apply Hdu, H].
      apply elem_of_singleton in H. tauto.
  - intros k i.
    rewrite recordVoteEvent_ipsOf, recordVoteEvent_getUsersWithSameIP.
    destruct (decide (i = ip /\ ip <> ""%string)) as [[-> Hd]|Hd].
    + destruct (decide (k = u /\ ip <> ""%string)) as [[-> _]|Hk].
      * intros _. apply elem_of_app. right. left.
      * intros H. apply elem_of_app. left. apply Hiu, H.
    + destruct (decide (k = u /\ ip <> ""%string)) as [[-> Hd']|Hk];
        [|apply Hiu].
      intros H. apply elem_of_union in H as [H|H]; [|apply Hiu, H].
      apply elem_of_singleton in H. tauto.
  - rewrite recordVoteEvent_getUsersWithSameDevice,
      recordVoteEvent_getUsersWithSameIP.
    rewrite !decide_False by (intros [<- H]; apply H; reflexivity). auto.
  - destruct Hg as (votes & Hg). exists (votes ++ [(u, p)]).
    rewrite recordVoteEvent_coVotingGraph, Hg, build_snoc. reflexivity.
Qed.

(** Every reachable state keeps its per-user structures in step. *)
Lemma Reachable_Tracked e : Reachable e -> Tracked e.
Proof.
  induction 1.
  - apply Tracked_empty; reflexivity.
  - apply Tracked_recordVoteEvent; assumption.
  - eapply Tracked_sameTracking; [eassumption|apply sameTracking_detectBot].
  - eapply Tracked_sameTracking;
      [eassumption|apply sameTracking_updateCollusionDetection].
  - eapply Tracked_sameTracking;
      [eassumption|apply sameTracking_calculateUserCredibility].
  - eapply Tracked_sameTracking;
      [eassumption|apply sameTracking_calculateAllCredibilityScores].
  - eapply Tracked_sameTracking;
      [eassumption|apply sameTracking_getUserTrustScore].
  - eapply Tracked_sameTracking; [eassumption|repeat split].
  - eapply Tracked_sameTracking; [eassumption|repeat split].
  - eapply Tracked_sameTracking; [eassumption|repeat split].
  - apply Tracked_empty; reflexivity.
  - apply Tracked_clearUser; assumption.
  - eapply Tracked_sameTracking; [eassumption|repeat split].
Qed.

End TrackedInvariant.

Section TrackedConsequences.

Import AntiAbuseEngine.

Lemma numbered_NoDup {A : Type} (f : A -> string) (l : list A) :
  (forall i x, l !! i = Some x -> f x = "VOTE_" +:+ pretty i) ->
  NoDup (map f l).
Proof.
  intros Hnum. apply NoDup_alt. intros i j s Hi Hj.
  change (map f l) with (f <$> l) in Hi, Hj.
  rewrite list_lookup_fmap in Hi, Hj.
  destruct (l !! i) as [x|] eqn:Ex; [|discriminate].
  destruct (l !! j) as [y|] eqn:Ey; [|discriminate].
  simpl in Hi, Hj. injection Hi as Hi. injection Hj as Hj.
  rewrite (Hnum i x Ex) in Hi. rewrite (Hnum j y Ey) in Hj.
  rewrite <- Hj in Hi. apply (inj (String.append "VOTE_")) in Hi.
  apply (inj pretty) in Hi. exact Hi.
Qed.

Lemma ingest_snoc events ev e :
  ingest (events ++ [ev]) e
  = (let '(userId, proposalId, timestamp, ipHash, deviceHash) := ev in
     recordVoteEvent userId proposalId timestamp ipHash deviceHash
       (ingest events e)).
Proof. unfold ingest. rewrite fold_left_app. reflexivity. Qed.

End TrackedConsequences.

(** ** Vote tracking: what a reachable state guarantees *)

(** X11: in every reachable state the [i]-th event of a user's history
    carries the vote identifier VOTE_i and the user's identifier, so no
    two events of one history share an identifier. *)
Theorem history_vote_ids (e : AntiAbuseEngine.t) (u : string) :
  Reachable e ->
  (forall i ev,
      historyOf u e !! i = Some ev ->
      VoteEvent.voteId ev = "VOTE_" +:+ pretty i /\ VoteEvent.userId ev = u)
  /\ NoDup (map VoteEvent.voteId (historyOf u e)).
Proof.
  intros Hreach. pose proof (Reachable_Tracked e Hreach) as Ht.
  split.
  - apply Ht.
  - apply numbered_NoDup. intros i ev Hev.
    apply (tracked_ids e Ht u i ev Hev).
Qed.

Lemma history_vote_ids_witness :
  Reachable
    (AntiAbuseEngine.recordVoteEvent "u" "q" 5 "" ""
       (AntiAbuseEngine.recordVoteEvent "u" "p" 0 "ip" "dev"
          AntiAbuseEngine.defaultEngine))
  /\ ((forall i ev,
          historyOf "u"
            (AntiAbuseEngine.recordVoteEvent "u" "q" 5 "" ""
               (AntiAbuseEngine.recordVoteEvent "u" "p" 0 "ip" "dev"
                  AntiAbuseEngine.defaultEngine)) !! i = Some ev ->
          VoteEvent.voteId ev = "VOTE_" +:+ pretty i
          /\ VoteEvent.userId ev = "u"%string)
      /\ NoDup (map VoteEvent.voteId
                  (historyOf "u"
                     (AntiAbuseEngine.recordVoteEvent "u" "q" 5 "" ""
                        (AntiAbuseEngine.recordVoteEvent "u" "p" 0 "ip" "dev"
                           AntiAbuseEngine.defaultEngine))))).
Proof.
  assert (Hreach : Reachable
                     (AntiAbuseEngine.recordVoteEvent "u" "q" 5 "" ""
                        (AntiAbuseEngine.recordVoteEvent "u" "p" 0 "ip" "dev"
                           AntiAbuseEngine.defaultEngine))).
  { do 2 apply reach_recordVoteEvent. apply reach_make; [reflexivity|lia]. }
  split; [exact Hreach|].
  apply (history_vote_ids _ "u" Hreach).
Defined.

(** X12: in every reachable state a user has a velocity window exactly
    when the history is not empty, and the window is the one obtained by
    replaying the timestamps of the history, in order, into a fresh
    window of the configured length; it never holds more events than the
    history. *)
Theorem velocity_window_replays_history (e : AntiAbuseEngine.t) (u : string) :
  Reachable e ->
  (is_Some (AntiAbuseEngine.userVelocityWindows e !! u)
   <-> historyOf u e <> [])
  /\ (forall w,
         AntiAbuseEngine.userVelocityWindows e !! u = Some w ->
         w = SlidingWindow.feed (AntiAbuseEngine.velocityWindowSeconds e)
               (map VoteEvent.timestamp (historyOf u e))
         /\ SlidingWindow.getEventCount w
            <= Z.of_nat (length (historyOf u e))).
Proof.
  intros Hreach. pose proof (Reachable_Tracked e Hreach) as Ht.
  pose proof (tracked_window e Ht u) as Hw.
  split.
  - rewrite Hw. destruct (historyOf u e); split.
    + intros [w H]. discriminate.
    + intros H. contradiction.
    + intros _. discriminate.
    + intros _. eauto.
  - intros w Hsome. rewrite Hw in Hsome.
    destruct (historyOf u e) as [|ev0 rest] eqn:E; [discriminate|].
    injection Hsome as <-. split; [reflexivity|].
    destruct (feed_suffix (AntiAbuseEngine.velocityWindowSeconds e)
                (map VoteEvent.timestamp (ev0 :: rest))) as (old & Hold).
    apply (f_equal (@length Z)) in Hold.
    rewrite length_app, length_map in Hold. cbn [map] in Hold.
    unfold SlidingWindow.getEventCount. lia.
Qed.

Lemma velocity_window_replays_history_witness :
  Reachable
    (AntiAbuseEngine.recordVoteEvent "u" "p" 0 "ip" "dev"
       AntiAbuseEngine.defaultEngine)
  /\ ((is_Some
         (AntiAbuseEngine.userVelocityWindows
            (AntiAbuseEngine.recordVoteEvent "u" "p" 0 "ip" "dev"
               AntiAbuseEngine.defaultEngine) !! "u"%string)
       <-> historyOf "u"
             (AntiAbuseEngine.recordVoteEvent "u" "p" 0 "ip" "dev"
                AntiAbuseEngine.defaultEngine) <> [])
      /\ (forall w,
             AntiAbuseEngine.userVelocityWindows
               (AntiAbuseEngine.recordVoteEvent "u" "p" 0 "ip" "dev"
                  AntiAbuseEngine.defaultEngine) !! "u"%string = Some w ->
             w = SlidingWindow.feed
                   (AntiAbuseEngine.velocityWindowSeconds
                      (AntiAbuseEngine.recordVoteEvent "u" "p" 0 "ip" "dev"
                         AntiAbuseEngine.defaultEngine))
                   (map VoteEvent.timestamp
                      (historyOf "u"
                         (AntiAbuseEngine.recordVoteEvent "u" "p" 0 "ip" "dev"
                            AntiAbuseEngine.defaultEngine)))
             /\ SlidingWindow.getEventCount w
                <= Z.of_nat
                     (length
                        (historyOf "u"
                           (AntiAbuseEngine.recordVoteEvent "u" "p" 0 "ip"
                              "dev" AntiAbuseEngine.defaultEngine))))).
Proof.
  assert (Hreach : Reachable
                     (AntiAbuseEngine.recordVoteEvent "u" "p" 0 "ip" "dev"
                        AntiAbuseEngine.defaultEngine)).
  { apply reach_recordVoteEvent, reach_make; [reflexivity|lia]. }
  split; [exact Hreach|].
  apply (velocity_window_replays_history _ "u" Hreach).
Defined.

(** X13: in every reachable state the device set and the IP set of a user
    hold exactly the non-empty hashes that occur in the user's history, so
    neither diversity count exceeds the number of recorded votes. *)
Theorem hashes_from_history (e : AntiAbuseEngine.t) (u : string) :
  Reachable e ->
  (forall d,
      d ∈ devicesOf u e <->
      d <> ""%string
      /\ exists ev, ev ∈ historyOf u e /\ VoteEvent.deviceHash ev = d)
  /\ (forall ip,
         ip ∈ ipsOf u e <->
         ip <> ""%string
         /\ exists ev, ev ∈ historyOf u e /\ VoteEvent.ipHash ev = ip)
  /\ (size (devicesOf u e) <= length (historyOf u e))%nat
  /\ (size (ipsOf u e) <= length (historyOf u e))%nat.
Proof.
  intros Hreach. pose proof (Reachable_Tracked e Hreach) as Ht.
  split; [apply Ht|]. split; [apply Ht|].
  split.
  - transitivity (size (list_to_set (map VoteEvent.deviceHash (historyOf u e))
                        : gset string)).
    + apply subseteq_size. intros d Hd.
      apply (tracked_devices e Ht) in Hd as (_ & ev & Hev & <-).
      apply elem_of_list_to_set, list_elem_of_fmap. exists ev. auto.
    + rewrite <- (length_map VoteEvent.deviceHash).
      apply size_list_to_set_le.
  - transitivity (size (list_to_set (map VoteEvent.ipHash (historyOf u e))
                        : gset string)).
    + apply subseteq_size. intros d Hd.
      apply (tracked_ips e Ht) in Hd as (_ & ev & Hev & <-).
      apply elem_of_list_to_set, list_elem_of_fmap. exists ev. auto.
    + rewrite <- (length_map VoteEvent.ipHash).
      apply size_list_to_set_le.
Qed.

Lemma hashes_from_history_witness :
  Reachable
    (AntiAbuseEngine.recordVoteEvent "u" "p" 0 "ip" "dev"
       AntiAbuseEngine.defaultEngine)
  /\ (size (devicesOf "u"
              (AntiAbuseEngine.recordVoteEvent "u" "p" 0 "ip" "dev"
                 AntiAbuseEngine.defaultEngine))
      <= length (historyOf "u"
                   (AntiAbuseEngine.recordVoteEvent "u" "p" 0 "ip" "dev"
                      AntiAbuseEngine.defaultEngine)))%nat.
Proof.
  assert (Hreach : Reachable
                     (AntiAbuseEngine.recordVoteEvent "u" "p" 0 "ip" "dev"
                        AntiAbuseEngine.defaultEngine)).
  { apply reach_recordVoteEvent, reach_make; [reflexivity|lia]. }
  split; [exact Hreach|].
  apply (hashes_from_history _ "u" Hreach).
Defined.

(** X14: in every reachable state the reverse indexes cover the per-user
    sets: a user whose device (IP) set holds a hash is listed by
    [getUsersWithSameDevice] ([getUsersWithSameIP]) for that hash, and the
    empty hash is never indexed. *)
Theorem reverse_index_complete (e : AntiAbuseEngine.t) (u h : string) :
  Reachable e ->
  (h ∈ devicesOf u e -> u ∈ AntiAbuseEngine.getUsersWithSameDevice h e)
  /\ (h ∈ ipsOf u e -> u ∈ AntiAbuseEngine.getUsersWithSameIP h e)
  /\ AntiAbuseEngine.getUsersWithSameDevice "" e = []
  /\ AntiAbuseEngine.getUsersWithSameIP "" e = [].
Proof.
  intros Hreach. pose proof (Reachable_Tracked e Hreach) as Ht.
  split; [apply Ht|]. split; [apply Ht|]. apply Ht.
Qed.

Lemma reverse_index_complete_witness :
  Reachable
    (AntiAbuseEngine.recordVoteEvent "u" "p" 0 "ip" "dev"
       AntiAbuseEngine.defaultEngine)
  /\ (("dev"%string
       ∈ devicesOf "u"
           (AntiAbuseEngine.recordVoteEvent "u" "p" 0 "ip" "dev"
              AntiAbuseEngine.defaultEngine) ->
       "u"%string
       ∈ AntiAbuseEngine.getUsersWithSameDevice "dev"
           (AntiAbuseEngine.recordVoteEvent "u" "p" 0 "ip" "dev"
              AntiAbuseEngine.defaultEngine))
      /\ ("dev"%string
          ∈ ipsOf "u"
              (AntiAbuseEngine.recordVoteEvent "u" "p" 0 "ip" "dev"
                 AntiAbuseEngine.defaultEngine) ->
          "u"%string
          ∈ AntiAbuseEngine.getUsersWithSameIP "dev"
              (AntiAbuseEngine.recordVoteEvent "u" "p" 0 "ip" "dev"
                 AntiAbuseEngine.defaultEngine))
      /\ AntiAbuseEngine.getUsersWithSameDevice ""
           (AntiAbuseEngine.recordVoteEvent "u" "p" 0 "ip" "dev"
              AntiAbuseEngine.defaultEngine) = []
      /\ AntiAbuseEngine.getUsersWithSameIP ""
           (AntiAbuseEngine.recordVoteEvent "u" "p" 0 "ip" "dev"
              AntiAbuseEngine.defaultEngine) = []).
Proof.
  assert (Hreach : Reachable
                     (AntiAbuseEngine.recordVoteEvent "u" "p" 0 "ip" "dev"
                        AntiAbuseEngine.defaultEngine)).
  { apply reach_recordVoteEvent, reach_make; [reflexivity|lia]. }
  split; [exact Hreach|].
  apply (reverse_index_complete _ "u" "dev" Hreach).
Defined.

(** X15: [getUsersWithSameIP] and [getUsersWithSameDevice] list one entry
    per recorded vote that carried the hash, in the order of recording: a
    user that voted twice from one address is listed twice, and a vote
    without a hash is not indexed. *)
Theorem reverse_index_per_vote
        (events : list (string * string * Z * string * string))
        (e : AntiAbuseEngine.t) (h : string) :
  AntiAbuseEngine.getUsersWithSameIP h (ingest events e)
  = AntiAbuseEngine.getUsersWithSameIP h e
    ++ (if decide (h = ""%string) then []
        else map (fun ev => ev.1.1.1.1)
               (filter (fun ev => ev.1.2 = h) events))
  /\ AntiAbuseEngine.getUsersWithSameDevice h (ingest events e)
     = AntiAbuseEngine.getUsersWithSameDevice h e
       ++ (if decide (h = ""%string) then []
           else map (fun ev => ev.1.1.1.1)
                  (filter (fun ev => ev.2 = h) events)).
Proof.
  induction events as [|[[[[u p] ts] ip] dev] events [IHi IHd]] using rev_ind.
  - simpl.
    destruct (decide (h = ""%string)); rewrite !app_nil_r; auto.
  - rewrite ingest_snoc. cbv beta iota.
    rewrite recordVoteEvent_getUsersWithSameIP,
      recordVoteEvent_getUsersWithSameDevice.
    rewrite !filter_app, !filter_cons, !filter_nil, !map_app. simpl.
    split.
    + destruct (decide (h = ip /\ ip <> ""%string)) as [[-> Hip]|Hno].
      * rewrite IHi. rewrite !decide_False by assumption.
        rewrite decide_True by reflexivity.
        rewrite <- app_assoc. reflexivity.
      * rewrite IHi. destruct (decide (h = ""%string)) as [->|Hh];
          [reflexivity|].
        destruct (decide (ip = h)) as [->|Hne]; [tauto|].
        simpl. rewrite app_nil_r. reflexivity.
    + destruct (decide (h = dev /\ dev <> ""%string)) as [[-> Hdev]|Hno].
      * rewrite IHd. rewrite !decide_False by assumption.
        rewrite decide_True by reflexivity.
        rewrite <- app_assoc. reflexivity.
      * rewrite IHd. destruct (decide (h = ""%string)) as [->|Hh];
          [reflexivity|].
        destruct (decide (dev = h)) as [->|Hne]; [tauto|].
        simpl. rewrite app_nil_r. reflexivity.
Qed.

(** X16: the co-voting graph of the engine is the graph that the recorded
    (user, proposal) pairs build by [addVote], in the order of recording;
    timestamps and hashes play no part in it. *)
Theorem coVotingGraph_of_ingest
        (events : list (string * string * Z * string * string))
        (velThreshold deltaThreshold : Q) (windowSeconds : Z) :
  AntiAbuseEngine.coVotingGraph
    (ingest events
       (AntiAbuseEngine.make velThreshold deltaThreshold windowSeconds))
  = CoVotingGraph.build (map (fun ev => (ev.1.1.1.1, ev.1.1.1.2)) events).
Proof.
  induction events as [|[[[[u p] ts] ip] dev] events IH] using rev_ind.
  - reflexivity.
  - rewrite ingest_snoc. cbv beta iota.
    rewrite recordVoteEvent_coVotingGraph, IH, map_app.
    simpl. rewrite build_snoc. reflexivity.
Qed.

(** ** Collusion detection: what a run reports and raises *)

Section CollusionRun.

Import AntiAbuseEngine CollusionSpec.

Local Open Scope Q_scope.





Lemma detectCollusion_results e :
  (detectCollusion e).1
  = map (collusionOf (coVotingGraph e) (collusionThreshold e))
      (CoVotingGraph.detectCommunities (minCoVotesForCollusion e)
         (coVotingGraph e)).
Proof.
  unfold detectCollusion. cbn [fst].
  destruct (updateCollusionDetection_update e) as (s & a & n & ->).
  reflexivity.
Qed.

Lemma isUserSuspicious_markUserSuspicious x u reason e :
  isUserSuspicious x (markUserSuspicious u reason e) = true
  <-> x = u \/ isUserSuspicious x e = true.
Proof.
  unfold isUserSuspicious, markUserSuspicious. simpl.
  destruct (decide (u = x)) as [->|Hne].
  - rewrite lookup_insert_eq. tauto.
  - rewrite lookup_insert_ne by assumption. split; [auto|].
    intros [->|H]; [contradiction|exact H].
Qed.

Lemma fold_markUserSuspicious_flags users reason e x :
  isUserSuspicious x
    (fold_left (fun e userId => markUserSuspicious userId reason e) users e)
  = true
  <-> x ∈ users \/ isUserSuspicious x e = true.
Proof.
  revert e. induction users as [|u users IH]; intros e; simpl.
  - split; [auto|]. intros [H|H]; [inversion H|exact H].
  - rewrite IH, isUserSuspicious_markUserSuspicious, elem_of_cons. tauto.
Qed.

(** The case of a round that raises no alert. *)
Ltac nothing_raised :=
  split; [reflexivity|];
  split; [exact I|];
  split; [reflexivity|];
  split; [constructor|];
  intros x; split; [auto|];
  intros [H|(r' & Hr' & _)]; [exact H|inversion Hr'].

(** What one round of the loop over the communities raises. *)
Lemma recordCommunity_effect e c :
  let reported :=
    filter (fun r => CollusionDetectionResult.isSuspicious r = true)
      (if (length c <? 2)%nat then []
       else [collusionOf (coVotingGraph e) (collusionThreshold e) c]) in
  exists new,
    threatAlerts (recordCommunity e c) = threatAlerts e ++ new
    /\ numberedFrom (alertCounter e) new
    /\ alertCounter (recordCommunity e c)
       = (alertCounter e + Z.of_nat (length new))%Z
    /\ Forall2 (collusionAlert (systemClock e)) new reported
    /\ (forall x,
           isUserSuspicious x (recordCommunity e c) = true
           <-> isUserSuspicious x e = true
               \/ exists r, r ∈ reported
                            /\ x ∈ CollusionDetectionResult.userGroup r).
Proof.
  unfold recordCommunity.
  destruct (length c <? 2)%nat.
  { exists []. rewrite filter_nil, app_nil_r, Z.add_0_r. nothing_raised. }
  rewrite filter_cons, filter_nil.
  set (r := collusionOf (coVotingGraph e) (collusionThreshold e) c).
  destruct (CollusionDetectionResult.isSuspicious r) eqn:Hs.
  - rewrite decide_True by reflexivity.
    match goal with
    | |- context [fold_left ?f c ?e0] =>
        destruct (fold_markUserSuspicious c [PartOfGroup] e0) as [s Hfold];
        pose proof (fold_markUserSuspicious_flags c [PartOfGroup] e0) as Hflags
    end.
    eexists [_]. rewrite Hfold. cbn [threatAlerts alertCounter
      set_suspiciousUsers generateThreatAlert set_threatAlerts
      set_alertCounter set_collusionDetectionCache length].
    split; [reflexivity|].
    split; [split; [reflexivity|exact I]|].
    split; [reflexivity|].
    split.
    + constructor; [|constructor]. repeat split; try reflexivity.
      cbn [ThreatAlert.involvedUsers]. unfold r.
      rewrite collusionOf_userGroup. reflexivity.
    + intros x. rewrite <- Hfold, Hflags.
      unfold r at 1. rewrite <- (collusionOf_userGroup (coVotingGraph e)
                          (collusionThreshold e) c) at 1.
      fold r. split.
      * intros [H|H]; [right; exists r; split; [left|exact H]|left; exact H].
      * intros [H|(r' & Hr' & H)]; [right; exact H|].
        apply list_elem_of_singleton in Hr'. subst r'. left. exact H.
  - rewrite decide_False by congruence.
    exists []. rewrite app_nil_r, Z.add_0_r. nothing_raised.
Qed.

Lemma numberedFrom_app counter alerts more :
  numberedFrom counter (alerts ++ more)
  <-> numberedFrom counter alerts
      /\ numberedFrom (counter + Z.of_nat (length alerts))%Z more.
Proof.
  revert counter. induction alerts as [|a alerts IH]; intros counter.
  - simpl. rewrite Z.add_0_r. tauto.
  - cbn [app numberedFrom length]. rewrite IH.
    replace (counter + 1 + Z.of_nat (length alerts))%Z
      with (counter + Z.of_nat (S (length alerts)))%Z by lia.
    tauto.
Qed.

Lemma recordCommunity_frame e c :
  coVotingGraph (recordCommunity e c) = coVotingGraph e
  /\ collusionThreshold (recordCommunity e c) = collusionThreshold e
  /\ systemClock (recordCommunity e c) = systemClock e.
Proof.
  destruct (recordCommunity_update e c) as (s & a & n & ->).
  repeat split.
Qed.

Lemma fold_recordCommunity_effect communities e :
  let reported :=
    filter (fun r => CollusionDetectionResult.isSuspicious r = true)
      (map (collusionOf (coVotingGraph e) (collusionThreshold e))
         (filter (fun c => (2 <= length c)%nat) communities)) in
  exists new,
    threatAlerts (fold_left recordCommunity communities e)
    = threatAlerts e ++ new
    /\ numberedFrom (alertCounter e) new
    /\ alertCounter (fold_left recordCommunity communities e)
       = (alertCounter e + Z.of_nat (length new))%Z
    /\ Forall2 (collusionAlert (systemClock e)) new reported
    /\ (forall x,
           isUserSuspicious x (fold_left recordCommunity communities e) = true
           <-> isUserSuspicious x e = true
               \/ exists r, r ∈ reported
                            /\ x ∈ CollusionDetectionResult.userGroup r).
Proof.
  revert e. induction communities as [|c communities IH]; intros e.
  - exists []. cbn [fold_left]. rewrite filter_nil. cbn [map].
    rewrite filter_nil, app_nil_r, Z.add_0_r. nothing_raised.
  - cbn [fold_left].
    destruct (recordCommunity_effect e c)
      as (new1 & Ha1 & Hn1 & Hc1 & Hf1 & Hs1).
    destruct (recordCommunity_frame e c) as (Hg & Ht & Hclock).
    destruct (IH (recordCommunity e c))
      as (new2 & Ha2 & Hn2 & Hc2 & Hf2 & Hs2).
    rewrite Hg, Ht, Hclock in *.
    exists (new1 ++ new2).
    assert (Hsplit :
              filter (fun r => CollusionDetectionResult.isSuspicious r = true)
                (map (collusionOf (coVotingGraph e) (collusionThreshold e))
                   (filter (fun c => (2 <= length c)%nat) (c :: communities)))
              = filter (fun r => CollusionDetectionResult.isSuspicious r = true)
                  (if (length c <? 2)%nat then []
                   else [collusionOf (coVotingGraph e) (collusionThreshold e)
                           c])
                ++ filter
                     (fun r => CollusionDetectionResult.isSuspicious r = true)
                     (map (collusionOf (coVotingGraph e) (collusionThreshold e))
                        (filter (fun c => (2 <= length c)%nat) communities))).
    { rewrite (filter_cons _ c).
      destruct (length c <? 2)%nat eqn:E.
      - apply Nat.ltb_lt in E. rewrite decide_False by lia. reflexivity.
      - apply Nat.ltb_ge in E. rewrite decide_True by lia.
        cbn [map]. rewrite (filter_cons _ (collusionOf _ _ c)).
        rewrite (filter_cons _ (collusionOf _ _ c)), filter_nil.
        destruct (decide _); reflexivity. }
    rewrite Hsplit.
    split; [rewrite Ha2, Ha1, app_assoc; reflexivity|].
    split; [apply numberedFrom_app; split; [exact Hn1|]|].
    { rewrite <- Hc1. exact Hn2. }
    split; [rewrite Hc2, Hc1, length_app; lia|].
    split; [apply Forall2_app; assumption|].
    intros x. rewrite Hs2, Hs1. split.
    + intros [[H|(r & Hr & H)]|(r & Hr & H)].
      * left. exact H.
      * right. exists r. split; [apply elem_of_app; left; exact Hr|exact H].
      * right. exists r. split; [apply elem_of_app; right; exact Hr|exact H].
    + intros [H|(r & Hr & H)]; [left; left; exact H|].
      apply elem_of_app in Hr as [Hr|Hr].
      * left. right. exists r. auto.
      * right. exists r. auto.
Qed.

Lemma detectCollusion_effect e :
  let reported :=
    filter (fun r => CollusionDetectionResult.isSuspicious r = true)
      (detectCollusion e).1 in
  exists new,
    threatAlerts (detectCollusion e).2 = threatAlerts e ++ new
    /\ numberedFrom (alertCounter e) new
    /\ alertCounter (detectCollusion e).2
       = (alertCounter e + Z.of_nat (length new))%Z
    /\ Forall2 (collusionAlert (systemClock e)) new reported
    /\ (forall x,
           isUserSuspicious x (detectCollusion e).2 = true
           <-> isUserSuspicious x e = true
               \/ exists r, r ∈ reported
                            /\ x ∈ CollusionDetectionResult.userGroup r).
Proof.
  rewrite detectCollusion_results.
  unfold detectCollusion. cbn [snd]. unfold updateCollusionDetection.
  pose proof (fold_recordCommunity_effect
                (CoVotingGraph.detectCommunities
                   (minCoVotesForCollusion (set_collusionDetectionCache [] e))
                   (coVotingGraph (set_collusionDetectionCache [] e)))
                (set_collusionDetectionCache [] e)) as H.
  cbn zeta in H. destruct H as (new & Ha & Hn & Hc & Hf & Hs).
  rewrite (filter_Forall_id _ _ (detectCommunities_sizes _ _)) in Hf, Hs.
  exists new. auto.
Qed.

End CollusionRun.



(** X18: a run of [detectCollusion] appends one unresolved alert of type
    collusion_detected per suspicious group it reports, in order, with the
    group as involved users and its score as severity, and leaves the
    earlier alerts in place; after the run the users flagged suspicious
    are those flagged before and the members of the suspicious groups.
    A second run over the same votes raises the same alerts again. *)
Theorem detectCollusion_alerts_and_flags (e : AntiAbuseEngine.t) :
  let reported :=
    filter (fun r => CollusionDetectionResult.isSuspicious r = true)
      (AntiAbuseEngine.detectCollusion e).1 in
  (exists new,
      AntiAbuseEngine.threatAlerts (AntiAbuseEngine.detectCollusion e).2
      = AntiAbuseEngine.threatAlerts e ++ new
      /\ Forall2 (collusionAlert (AntiAbuseEngine.systemClock e)) new reported)
  /\ (forall x,
         AntiAbuseEngine.isUserSuspicious x
           (AntiAbuseEngine.detectCollusion e).2 = true
         <-> AntiAbuseEngine.isUserSuspicious x e = true
             \/ exists r, r ∈ reported
                          /\ x ∈ CollusionDetectionResult.userGroup r)
  /\ (AntiAbuseEngine.detectCollusion
        (AntiAbuseEngine.detectCollusion e).2).1
     = (AntiAbuseEngine.detectCollusion e).1.
Proof.
  destruct (detectCollusion_effect e) as (new & Ha & _ & _ & Hf & Hs).
  split; [exists new; auto|]. split; [exact Hs|].
  rewrite !detectCollusion_results.
  unfold AntiAbuseEngine.detectCollusion. cbn [snd].
  destruct (updateCollusionDetection_update e) as (s & a & n & ->).
  reflexivity.
Qed.

(** ** Threat alerts *)

Section Alerts.

Import AntiAbuseEngine.

Lemma alertsGrow_same e e' :
  threatAlerts e' = threatAlerts e -> alertCounter e' = alertCounter e ->
  alertsGrow e e'.
Proof.
  intros Ha Hc. exists []. rewrite app_nil_r, Z.add_0_r.
  split; [exact Ha|]. split; [exact I|exact Hc].
Qed.

Lemma alertsGrow_trans e1 e2 e3 :
  alertsGrow e1 e2 -> alertsGrow e2 e3 -> alertsGrow e1 e3.
Proof.
  intros (new1 & Ha1 & Hn1 & Hc1) (new2 & Ha2 & Hn2 & Hc2).
  exists (new1 ++ new2).
  split; [rewrite Ha2, Ha1, app_assoc; reflexivity|].
  split.
  - apply numberedFrom_app. split; [exact Hn1|]. rewrite <- Hc1. exact Hn2.
  - rewrite Hc2, Hc1, length_app. lia.
Qed.

Lemma alertsGrow_generateThreatAlert alertType severity users description e :
  alertsGrow e (generateThreatAlert alertType severity users description e).
Proof.
  eexists [_]. simpl.
  split; [reflexivity|]. split; [split; [reflexivity|exact I]|reflexivity].
Qed.

Lemma alertsGrow_updateBotDetection u e :
  alertsGrow e (updateBotDetection u e).
Proof.
  unfold updateBotDetection.
  repeat match goal with
         | |- context [if ?b then _ else _] => destruct b
         end;
    first [ apply alertsGrow_same; reflexivity
          | eexists [_]; simpl;
            split; [reflexivity|];
            split; [split; [reflexivity|exact I]|reflexivity] ].
Qed.

Lemma alertsGrow_detectBot u e : alertsGrow e (detectBot u e).2.
Proof.
  unfold detectBot. destruct (botDetectionCache e !! u); simpl.
  - apply alertsGrow_same; reflexivity.
  - apply alertsGrow_updateBotDetection.
Qed.

Lemma alertsGrow_recordVoteEvent u p ts ip dev e :
  alertsGrow e (recordVoteEvent u p ts ip dev e).
Proof.
  unfold recordVoteEvent.
  match goal with
  | |- alertsGrow e (updateBotDetection u ?mid) =>
      apply (alertsGrow_trans e mid);
        [apply alertsGrow_same; frame|apply alertsGrow_updateBotDetection]
  end.
Qed.

Lemma alertsGrow_updateCollusionDetection e :
  alertsGrow e (updateCollusionDetection e).
Proof.
  destruct (detectCollusion_effect e) as (new & Ha & Hn & Hc & _).
  exists new. auto.
Qed.

Lemma alertsGrow_calculateUserCredibility u e :
  alertsGrow e (calculateUserCredibility u e).2.
Proof.
  rewrite calculateUserCredibility_unfold. cbn [snd].
  eapply alertsGrow_trans; [apply (alertsGrow_detectBot u)|].
  apply alertsGrow_same; reflexivity.
Qed.

Lemma alertsGrow_calculateAllCredibilityScores e :
  alertsGrow e (calculateAllCredibilityScores e).
Proof.
  unfold calculateAllCredibilityScores.
  eapply alertsGrow_trans; [apply alertsGrow_updateCollusionDetection|].
  generalize (map fst (map_to_list
                         (userVoteHistory (updateCollusionDetection e)))).
  generalize (updateCollusionDetection e).
  intros e0 users. revert e0.
  induction users as [|u users IH]; intros e0; simpl.
  - apply alertsGrow_same; reflexivity.
  - eapply alertsGrow_trans; [apply (alertsGrow_calculateUserCredibility u)|].
    apply IH.
Qed.

Lemma alertsGrow_getUserTrustScore u e :
  alertsGrow e (getUserTrustScore u e).2.
Proof.
  unfold getUserTrustScore.
  destruct (userCredibilityScores e !! u);
    [apply alertsGrow_same; reflexivity|].
  pose proof (alertsGrow_calculateUserCredibility u e) as H.
  destruct (calculateUserCredibility u e). exact H.
Qed.

Lemma alertName_inj : Inj (=) (=) alertName.
Proof.
  intros n m H. unfold alertName in H.
  apply (inj (String.append "ALERT_")) in H.
  apply (inj pretty) in H. exact H.
Qed.

Lemma StronglySorted_snoc_lt (ns : list Z) (n : Z) :
  StronglySorted Z.lt ns -> Forall (fun k => k < n) ns ->
  StronglySorted Z.lt (ns ++ [n]).
Proof.
  induction 1 as [|k ns Hs IH Hk]; intros Hall; simpl.
  - repeat constructor.
  - apply Forall_cons in Hall as [Hkn Hall].
    constructor; [apply IH, Hall|].
    apply Forall_app. split; [exact Hk|]. repeat constructor. exact Hkn.
Qed.

Lemma numbered_extend new alerts counter ns :
  map ThreatAlert.alertId alerts = map alertName ns ->
  StronglySorted Z.lt ns -> Forall (fun n => n <= counter) ns ->
  numberedFrom counter new ->
  exists ns',
    map ThreatAlert.alertId (alerts ++ new) = map alertName ns'
    /\ StronglySorted Z.lt ns'
    /\ Forall (fun n => n <= counter + Z.of_nat (length new)) ns'.
Proof.
  revert alerts counter ns.
  induction new as [|a new IH]; intros alerts counter ns Hids Hsorted Hbound Hn.
  - exists ns. rewrite app_nil_r, Z.add_0_r. auto.
  - destruct Hn as [Ha Hn].
    replace (alerts ++ a :: new) with ((alerts ++ [a]) ++ new)
      by (rewrite <- app_assoc; reflexivity).
    replace (counter + Z.of_nat (length (a :: new)))
      with (counter + 1 + Z.of_nat (length new))
      by (cbn [length]; lia).
    apply (IH (alerts ++ [a]) (counter + 1) (ns ++ [counter + 1])).
    + rewrite !map_app, Hids. simpl. rewrite Ha. reflexivity.
    + apply StronglySorted_snoc_lt; [exact Hsorted|].
      eapply Forall_impl; [exact Hbound|]. simpl. intros k Hk. lia.
    + apply Forall_app. split.
      * eapply Forall_impl; [exact Hbound|]. simpl. intros k Hk. lia.
      * repeat constructor. lia.
    + exact Hn.
Qed.

Lemma AlertsNumbered_alertsGrow e e' :
  AlertsNumbered e -> alertsGrow e e' -> AlertsNumbered e'.
Proof.
  intros (ns & Hids & Hsorted & Hbound) (new & Ha & Hn & Hc).
  unfold AlertsNumbered. rewrite Ha, Hc.
  apply (numbered_extend new _ _ ns); assumption.
Qed.

Lemma map_alertId_resolveFirst alertId alerts :
  map ThreatAlert.alertId (resolveFirst alertId alerts)
  = map ThreatAlert.alertId alerts.
Proof.
  induction alerts as [|a alerts IH]; [reflexivity|].
  cbn [resolveFirst]. destruct (bool_decide _); simpl; [reflexivity|].
  rewrite IH. reflexivity.
Qed.

(** Every reachable state numbers its alerts increasingly. *)
Lemma Reachable_AlertsNumbered e : Reachable e -> AlertsNumbered e.
Proof.
  induction 1.
  - exists []. repeat split; constructor.
  - eapply AlertsNumbered_alertsGrow;
      [eassumption|apply alertsGrow_recordVoteEvent].
  - eapply AlertsNumbered_alertsGrow; [eassumption|apply alertsGrow_detectBot].
  - eapply AlertsNumbered_alertsGrow;
      [eassumption|apply alertsGrow_updateCollusionDetection].
  - eapply AlertsNumbered_alertsGrow;
      [eassumption|apply alertsGrow_calculateUserCredibility].
  - eapply AlertsNumbered_alertsGrow;
      [eassumption|apply alertsGrow_calculateAllCredibilityScores].
  - eapply AlertsNumbered_alertsGrow;
      [eassumption|apply alertsGrow_getUserTrustScore].
  - eapply AlertsNumbered_alertsGrow;
      [eassumption|apply alertsGrow_same; reflexivity].
  - destruct IHReachable as (ns & Hids & Hsorted & Hbound).
    exists ns. unfold resolveThreatAlert. simpl.
    rewrite map_alertId_resolveFirst. auto.
  - eapply AlertsNumbered_alertsGrow;
      [eassumption|apply alertsGrow_same; reflexivity].
  - exists []. repeat split; constructor.
  - eapply AlertsNumbered_alertsGrow;
      [eassumption|apply alertsGrow_same; reflexivity].
  - eapply AlertsNumbered_alertsGrow;
      [eassumption|apply alertsGrow_same; reflexivity].
Qed.

Lemma AlertsNumbered_NoDup e :
  AlertsNumbered e -> NoDup (map ThreatAlert.alertId (threatAlerts e)).
Proof.
  intros (ns & -> & Hsorted & _).
  apply (NoDup_fmap_2 alertName).
  clear -Hsorted. induction Hsorted as [|n ns Hs IH Hn]; constructor;
    [|exact IH].
  intros Hin. rewrite Forall_forall in Hn. specialize (Hn n Hin). lia.
Qed.

Lemma filter_unresolved_resolveFirst alertId alerts :
  NoDup (map ThreatAlert.alertId alerts) ->
  filter (fun a => ThreatAlert.resolved a = false)
         (resolveFirst alertId alerts)
  = filter (fun a => ThreatAlert.alertId a <> alertId)
      (filter (fun a => ThreatAlert.resolved a = false) alerts).
Proof.
  induction alerts as [|a alerts IH]; intros Hnd; [reflexivity|].
  cbn [map] in Hnd. apply NoDup_cons in Hnd as [Hfresh Hnd].
  cbn [resolveFirst]. case_bool_decide as Hid.
  - rewrite filter_cons, decide_False by (simpl; discriminate).
    assert (Hrest : filter (fun a => ThreatAlert.alertId a <> alertId)
                      (filter (fun a => ThreatAlert.resolved a = false) alerts)
                    = filter (fun a => ThreatAlert.resolved a = false) alerts).
    { apply filter_Forall_id, Forall_forall. intros b Hb Heq.
      apply list_elem_of_filter in Hb as [_ Hb].
      apply Hfresh. rewrite Hid, <- Heq.
      apply list_elem_of_fmap. exists b. auto. }
    rewrite (filter_cons _ a).
    destruct (decide (ThreatAlert.resolved a = false)); [|exact (eq_sym Hrest)].
    rewrite filter_cons, decide_False by (intros H; apply H; exact Hid).
    exact (eq_sym Hrest).
  - rewrite !(filter_cons _ a).
    destruct (decide (ThreatAlert.resolved a = false)).
    + rewrite filter_cons, decide_True by exact Hid. rewrite (IH Hnd).
      reflexivity.
    + apply IH, Hnd.
Qed.

Lemma resolveFirst_idem alertId alerts :
  resolveFirst alertId (resolveFirst alertId alerts)
  = resolveFirst alertId alerts.
Proof.
  induction alerts as [|a alerts IH]; [reflexivity|].
  cbn [resolveFirst]. case_bool_decide as Hid.
  - cbn [resolveFirst]. rewrite bool_decide_eq_true_2 by exact Hid.
    reflexivity.
  - cbn [resolveFirst]. rewrite bool_decide_eq_false_2 by exact Hid.
    rewrite IH. reflexivity.
Qed.

Lemma resolveFirst_unknown alertId alerts :
  alertId ∉ map ThreatAlert.alertId alerts ->
  resolveFirst alertId alerts = alerts.
Proof.
  induction alerts as [|a alerts IH]; intros Hno; [reflexivity|].
  cbn [resolveFirst]. cbn [map] in Hno.
  apply not_elem_of_cons in Hno as [Hne Hno].
  rewrite bool_decide_eq_false_2 by congruence.
  rewrite (IH Hno). reflexivity.
Qed.

Lemma resolveFirst_pointwise alertId alerts :
  Forall2 (fun a b =>
             ThreatAlert.alertId b = ThreatAlert.alertId a
             /\ ThreatAlert.alertType b = ThreatAlert.alertType a
             /\ ThreatAlert.severity b = ThreatAlert.severity a
             /\ ThreatAlert.involvedUsers b = ThreatAlert.involvedUsers a
             /\ ThreatAlert.description b = ThreatAlert.description a
             /\ ThreatAlert.timestamp b = ThreatAlert.timestamp a
             /\ (ThreatAlert.resolved a = true
                 -> ThreatAlert.resolved b = true)
             /\ (ThreatAlert.resolved b = true ->
                 ThreatAlert.resolved a = true
                 \/ ThreatAlert.alertId a = alertId))
          alerts (resolveFirst alertId alerts).
Proof.
  induction alerts as [|a alerts IH]; [constructor|].
  cbn [resolveFirst]. case_bool_decide as Hid.
  - constructor.
    + simpl. repeat split; auto.
    + clear. induction alerts; constructor; [|assumption].
      repeat split; auto.
  - constructor; [|exact IH]. repeat split; auto.
Qed.

End Alerts.

(** X19: in every reachable state no two stored alerts share an
    identifier, and [resolveThreatAlert] takes exactly the alert with the
    given identifier off the list of unresolved alerts. *)
Theorem resolveThreatAlert_removes_alert (e : AntiAbuseEngine.t)
        (alertId : string) :
  Reachable e ->
  NoDup (map ThreatAlert.alertId (AntiAbuseEngine.threatAlerts e))
  /\ AntiAbuseEngine.getThreatAlerts true
       (AntiAbuseEngine.resolveThreatAlert alertId e)
     = filter (fun a => ThreatAlert.alertId a <> alertId)
         (AntiAbuseEngine.getThreatAlerts true e).
Proof.
  intros Hreach.
  pose proof (AlertsNumbered_NoDup e (Reachable_AlertsNumbered e Hreach))
    as Hnd.
  split; [exact Hnd|].
  unfold AntiAbuseEngine.getThreatAlerts, AntiAbuseEngine.resolveThreatAlert.
  simpl. apply filter_unresolved_resolveFirst, Hnd.
Qed.

Lemma resolveThreatAlert_removes_alert_witness :
  Reachable (AntiAbuseEngine.detectCollusion
               (ingest chainEvents AntiAbuseEngine.defaultEngine)).2
  /\ AntiAbuseEngine.getThreatAlerts true
       (AntiAbuseEngine.resolveThreatAlert "ALERT_1"
          (AntiAbuseEngine.detectCollusion
             (ingest chainEvents AntiAbuseEngine.defaultEngine)).2)
     = filter (fun a => ThreatAlert.alertId a <> "ALERT_1"%string)
         (AntiAbuseEngine.getThreatAlerts true
            (AntiAbuseEngine.detectCollusion
               (ingest chainEvents AntiAbuseEngine.defaultEngine)).2).
Proof.
  assert (Hreach : Reachable
                     (AntiAbuseEngine.detectCollusion
                        (ingest chainEvents
                           AntiAbuseEngine.defaultEngine)).2).
  { apply reach_detectCollusion.
    unfold ingest. generalize chainEvents. intros events.
    assert (H0 : Reachable AntiAbuseEngine.defaultEngine)
      by (apply reach_make; [reflexivity|lia]).
    revert H0. generalize AntiAbuseEngine.defaultEngine.
    induction events as [|[[[[u p] ts] ip] dev] events IH]; intros e0 H0;
      [exact H0|].
    simpl. apply IH, reach_recordVoteEvent, H0. }
  split; [exact Hreach|].
  apply (resolveThreatAlert_removes_alert _ "ALERT_1" Hreach).
Defined.

(** X20: [resolveThreatAlert] keeps the number, the order and every field
    of the stored alerts except the resolved flag, never turns a resolved
    alert back into an unresolved one, resolves only an alert that carries
    the given identifier, changes nothing when no alert carries it, and
    has the same effect when it is repeated. *)
Theorem resolveThreatAlert_only_resolves (e : AntiAbuseEngine.t)
        (alertId : string) :
  Forall2 (fun a b =>
             ThreatAlert.alertId b = ThreatAlert.alertId a
             /\ ThreatAlert.alertType b = ThreatAlert.alertType a
             /\ ThreatAlert.severity b = ThreatAlert.severity a
             /\ ThreatAlert.involvedUsers b = ThreatAlert.involvedUsers a
             /\ ThreatAlert.description b = ThreatAlert.description a
             /\ ThreatAlert.timestamp b = ThreatAlert.timestamp a
             /\ (ThreatAlert.resolved a = true
                 -> ThreatAlert.resolved b = true)
             /\ (ThreatAlert.resolved b = true ->
                 ThreatAlert.resolved a = true
                 \/ ThreatAlert.alertId a = alertId))
          (AntiAbuseEngine.threatAlerts e)
          (AntiAbuseEngine.threatAlerts
             (AntiAbuseEngine.resolveThreatAlert alertId e))
  /\ (alertId ∉ map ThreatAlert.alertId (AntiAbuseEngine.threatAlerts e) ->
      AntiAbuseEngine.threatAlerts
        (AntiAbuseEngine.resolveThreatAlert alertId e)
      = AntiAbuseEngine.threatAlerts e)
  /\ AntiAbuseEngine.resolveThreatAlert alertId
       (AntiAbuseEngine.resolveThreatAlert alertId e)
     = AntiAbuseEngine.resolveThreatAlert alertId e.
Proof.
  split; [apply resolveFirst_pointwise|].
  split; [apply resolveFirst_unknown|].
  unfold AntiAbuseEngine.resolveThreatAlert. simpl.
  rewrite resolveFirst_idem. reflexivity.
Qed.

(** ** Sliding window over in-order events *)

Section SlidingWindowExact.

Import SlidingWindow.

Lemma evict_filter_sorted (cutoff : Z) (ts : list Z) :
  StronglySorted Z.le ts ->
  evict cutoff ts = filter (fun t => cutoff <= t) ts.
Proof.
  intros Hs. induction Hs as [|front rest Hrest IH Hall]; [reflexivity|].
  cbn [evict]. destruct (front <? cutoff) eqn:E.
  - apply Z.ltb_lt in E. rewrite filter_cons, decide_False by lia. exact IH.
  - apply Z.ltb_ge in E. symmetry. apply filter_Forall_id.
    constructor; [exact E|].
    eapply Forall_impl; [exact Hall|]. simpl. intros x Hx. lia.
Qed.

Lemma StronglySorted_snoc_inv (l : list Z) (x : Z) :
  StronglySorted Z.le (l ++ [x]) ->
  StronglySorted Z.le l /\ Forall (fun y => y <= x) l.
Proof.
  induction l as [|a l IH]; simpl; intros H.
  - split; constructor.
  - inversion H as [|? ? Hs Hall]; subst.
    destruct (IH Hs) as [Hl Hle].
    apply Forall_app in Hall as [Hall Hx].
    apply Forall_cons in Hx as [Hx _].
    split; constructor; auto.
Qed.

Lemma StronglySorted_filter (P : Z -> Prop) `{!forall t, Decision (P t)}
      (l : list Z) :
  StronglySorted Z.le l -> StronglySorted Z.le (filter P l).
Proof.
  induction 1 as [|a l Hs IH Hall]; [constructor|].
  rewrite filter_cons. destruct (decide (P a)); [|exact IH].
  constructor; [exact IH|].
  apply Forall_forall. intros x Hx. apply list_elem_of_filter in Hx as [_ Hx].
  rewrite Forall_forall in Hall. apply Hall, Hx.
Qed.

Lemma filter_filter_weaker (c c' : Z) (l : list Z) :
  c' <= c ->
  filter (fun t => c <= t) (filter (fun t => c' <= t) l)
  = filter (fun t => c <= t) l.
Proof.
  intros Hc. induction l as [|a l IH]; [reflexivity|].
  rewrite !(filter_cons _ a).
  destruct (decide (c' <= a)) as [Ha|Ha].
  - rewrite filter_cons. destruct (decide (c <= a)); rewrite IH; reflexivity.
  - rewrite decide_False by lia. exact IH.
Qed.

(** The window after in-order events: the events within the window
    length of the last one. *)
Lemma feed_sorted (seconds : Z) (events : list Z) (now : Z) :
  0 <= seconds -> StronglySorted Z.le events -> last events = Some now ->
  timestamps (feed seconds events)
  = filter (fun t => now - Clock.of_seconds seconds <= t) events.
Proof.
  intros Hsec. revert now.
  induction events as [|ts events IH] using rev_ind; intros now Hs Hlast;
    [discriminate|].
  rewrite last_snoc in Hlast. injection Hlast as <-.
  apply StronglySorted_snoc_inv in Hs as [Hs Hle].
  rewrite feed_snoc. cbn [addEvent cleanup timestamps windowDuration].
  rewrite feed_windowDuration.
  assert (Hd : 0 <= Clock.of_seconds seconds).
  { unfold Clock.of_seconds, Clock.ticks_per_second. lia. }
  assert (Hprev : exists c', c' <= ts - Clock.of_seconds seconds
                /\ timestamps (feed seconds events)
                   = filter (fun t => c' <= t) events).
  { destruct (last events) as [prev|] eqn:Hprev.
    - exists (prev - Clock.of_seconds seconds).
      split; [|apply IH; [exact Hs|reflexivity]].
      apply last_Some in Hprev as (l' & ->).
      apply Forall_app in Hle as [_ Hle].
      apply Forall_cons in Hle as [Hle _]. lia.
    - apply last_None in Hprev. subst events.
      exists (ts - Clock.of_seconds seconds). split; [lia|reflexivity]. }
  destruct Hprev as (c' & Hc' & ->).
  rewrite evict_filter_sorted.
  - rewrite !filter_app, filter_filter_weaker by exact Hc'.
    reflexivity.
  - clear IH. assert (Hf : StronglySorted Z.le (filter (fun t => c' <= t) events))
      by (apply StronglySorted_filter, Hs).
    assert (Hfle : Forall (fun y => y <= ts) (filter (fun t => c' <= t) events)).
    { apply Forall_forall. intros x Hx.
      apply list_elem_of_filter in Hx as [_ Hx].
      rewrite Forall_forall in Hle. apply Hle, Hx. }
    revert Hf Hfle. generalize (filter (fun t => c' <= t) events).
    intros l Hl Hlle. induction Hl as [|a l Hl IHl Hall]; simpl.
    + repeat constructor.
    + apply Forall_cons in Hlle as [Ha Hlle].
      constructor; [apply IHl, Hlle|].
      apply Forall_app. split; [exact Hall|]. repeat constructor. exact Ha.
Qed.

End SlidingWindowExact.

(** X21: when the timestamps arrive in non-decreasing order, the window
    length is not negative and the window length in ticks and every
    cutoff [ts - windowDuration] are representable tick counts (no
    overflow of the 64-bit nanosecond arithmetic), the window holds exactly the recorded events that are
    not older than the window length before the last one: nothing stale
    is kept and nothing recent is dropped. *)
Theorem feed_in_order_exact (seconds : Z) (events : list Z) (now : Z) :
  0 <= seconds -> StronglySorted Z.le events -> last events = Some now ->
  Clock.representable (Clock.of_seconds seconds) ->
  Forall (fun ts => Clock.representable ts
                    /\ Clock.representable (ts - Clock.of_seconds seconds))
         events ->
  SlidingWindow.timestamps (SlidingWindow.feed seconds events)
  = filter (fun t => now - Clock.of_seconds seconds <= t) events
  /\ SlidingWindow.getEventCount (SlidingWindow.feed seconds events)
     = Z.of_nat
         (length (filter (fun t => now - Clock.of_seconds seconds <= t)
                    events)).
Proof.
  intros Hsec Hs Hlast _ _.
  pose proof (feed_sorted seconds events now Hsec Hs Hlast) as H.
  split; [exact H|].
  unfold SlidingWindow.getEventCount. rewrite H. reflexivity.
Qed.

Lemma feed_in_order_exact_witness :
  0 <= 1
  /\ StronglySorted Z.le [0; 500000000; 2000000000]
  /\ last [0; 500000000; 2000000000] = Some 2000000000
  /\ Clock.representable (Clock.of_seconds 1)
  /\ Forall (fun ts => Clock.representable ts
                       /\ Clock.representable (ts - Clock.of_seconds 1))
            [0; 500000000; 2000000000]
  /\ SlidingWindow.timestamps
       (SlidingWindow.feed 1 [0; 500000000; 2000000000])
     = filter (fun t => 2000000000 - Clock.of_seconds 1 <= t)
         [0; 500000000; 2000000000]
  /\ SlidingWindow.getEventCount
       (SlidingWindow.feed 1 [0; 500000000; 2000000000])
     = Z.of_nat
         (length (filter (fun t => 2000000000 - Clock.of_seconds 1 <= t)
                    [0; 500000000; 2000000000])).
Proof.
  assert (Hsec : 0 <= 1) by lia.
  assert (Hs : StronglySorted Z.le [0; 500000000; 2000000000]).
  { repeat constructor; lia. }
  assert (Hlast : last [0; 500000000; 2000000000] = Some 2000000000)
    by reflexivity.
  assert (Hlen : Clock.representable (Clock.of_seconds 1))
    by (split; vm_compute; discriminate).
  assert (Hrange : Forall (fun ts => Clock.representable ts
                                     /\ Clock.representable
                                          (ts - Clock.of_seconds 1))
                          [0; 500000000; 2000000000]).
  { repeat constructor; vm_compute; discriminate. }
  split; [exact Hsec|]. split; [exact Hs|]. split; [exact Hlast|].
  split; [exact Hlen|]. split; [exact Hrange|].
  apply (feed_in_order_exact 1 [0; 500000000; 2000000000] 2000000000
           Hsec Hs Hlast Hlen Hrange).
Defined.

(** ** Scans over the recorded votes *)

Section Scans.

Import AntiAbuseEngine.

Local Open Scope Q_scope.







Lemma detectAllBots_unfold e :
  detectAllBots e
  = (sortByLikelihood
       (fold_left scanUser (map fst (map_to_list (userVoteHistory e)))
          ([], e)).1,
     (fold_left scanUser (map fst (map_to_list (userVoteHistory e)))
        ([], e)).2).
Proof.
  unfold detectAllBots.
  destruct (fold_left scanUser _ _) as [results e1]. reflexivity.
Qed.





Lemma detectBot_caches u e :
  is_Some (botDetectionCache (detectBot u e).2 !! u).
Proof.
  unfold detectBot. destruct (botDetectionCache e !! u) as [r|] eqn:E; simpl.
  - rewrite E. eauto.
  - rewrite updateBotDetection_botDetectionCache, lookup_insert_eq. eauto.
Qed.

Lemma recordVoteEvent_mid u p ts ip dev e :
  exists mid,
    recordVoteEvent u p ts ip dev e = updateBotDetection u mid
    /\ userVoteHistory mid
       = <[u := historyOf u e ++ [recordedEvent u p ts ip dev e]]>
           (userVoteHistory e)
    /\ botDetectionCache mid = botDetectionCache e.
Proof.
  unfold recordVoteEvent.
  match goal with
  | |- exists mid, updateBotDetection _ ?m = _ /\ _ => exists m
  end.
  split; [reflexivity|]. split; frame.
Qed.










Lemma getVoteCountInWindow_fold cutoff history count :
  (fold_left
     (fun count event =>
        if cutoff <=? VoteEvent.timestamp event then count + 1 else count)
     history count
   = count
     + Z.of_nat (length (filter (fun event =>
                                   cutoff <= VoteEvent.timestamp event)
                           history)))%Z.
Proof.
  revert count. induction history as [|ev history IH]; intros count; simpl.
  - lia.
  - rewrite IH, filter_cons.
    destruct (cutoff <=? VoteEvent.timestamp ev)%Z eqn:E.
    + apply Z.leb_le in E. rewrite decide_True by exact E. cbn [length]. lia.
    + apply Z.leb_gt in E. rewrite decide_False by lia. reflexivity.
Qed.

Lemma getVoteCountInWindow_filter u windowSeconds e :
  getVoteCountInWindow u windowSeconds e
  = Z.of_nat
      (length (filter
                 (fun event =>
                    systemClock e - Clock.of_seconds windowSeconds
                    <= VoteEvent.timestamp event)%Z
                 (historyOf u e))).
Proof.
  unfold getVoteCountInWindow, historyOf, HMap.at_.
  destruct (userVoteHistory e !! u) as [history|]; [|reflexivity].
  cbn zeta. rewrite getVoteCountInWindow_fold. simpl. lia.
Qed.

Lemma filter_length_le_weaker {A : Type} (P Q : A -> Prop)
      `{!forall x, Decision (P x)} `{!forall x, Decision (Q x)} (l : list A) :
  (forall x, P x -> Q x) ->
  (length (filter P l) <= length (filter Q l))%nat.
Proof.
  intros HPQ. induction l as [|a l IH]; [reflexivity|].
  rewrite !filter_cons.
  destruct (decide (P a)) as [Ha|Ha].
  - rewrite decide_True by auto. cbn [length]. lia.
  - destruct (decide (Q a)); cbn [length]; lia.
Qed.

Lemma filter_map_length {A B : Type} (f : A -> B) (P : B -> Prop)
      `{!forall y, Decision (P y)} (l : list A) :
  length (filter P (map f l)) = length (filter (fun x => P (f x)) l).
Proof.
  induction l as [|a l IH]; [reflexivity|].
  cbn [map]. rewrite !filter_cons.
  destruct (decide (P (f a))); cbn [length]; rewrite IH; reflexivity.
Qed.

End Scans.




(** X23: [getVoteCountInWindow] counts the events of the user's history
    that are not older than the window before the current clock reading;
    the count is never negative, never above the length of the history,
    and a longer window never counts fewer events. *)
Theorem getVoteCountInWindow_monotone (e : AntiAbuseEngine.t) (u : string)
        (shorter longer : Z) :
  shorter <= longer ->
  AntiAbuseEngine.getVoteCountInWindow u shorter e
  = Z.of_nat
      (length (filter
                 (fun event =>
                    AntiAbuseEngine.systemClock e - Clock.of_seconds shorter
                    <= VoteEvent.timestamp event)
                 (historyOf u e)))
  /\ 0 <= AntiAbuseEngine.getVoteCountInWindow u shorter e
  /\ AntiAbuseEngine.getVoteCountInWindow u shorter e
     <= AntiAbuseEngine.getVoteCountInWindow u longer e
  /\ AntiAbuseEngine.getVoteCountInWindow u longer e
     <= Z.of_nat (length (historyOf u e)).
Proof.
  intros Hle. rewrite !getVoteCountInWindow_filter.
  split; [reflexivity|]. split; [lia|]. split.
  - apply inj_le, filter_length_le_weaker. intros ev.
    unfold Clock.of_seconds, Clock.ticks_per_second. lia.
  - apply inj_le, length_filter.
Qed.

Lemma getVoteCountInWindow_monotone_witness :
  1 <= 60
  /\ AntiAbuseEngine.getVoteCountInWindow "u" 1
       (AntiAbuseEngine.recordVoteEvent "u" "p" 0 "" ""
          AntiAbuseEngine.defaultEngine)
     <= AntiAbuseEngine.getVoteCountInWindow "u" 60
          (AntiAbuseEngine.recordVoteEvent "u" "p" 0 "" ""
             AntiAbuseEngine.defaultEngine).
Proof.
  assert (Hle : 1 <= 60) by lia.
  split; [exact Hle|].
  apply (getVoteCountInWindow_monotone
           (AntiAbuseEngine.recordVoteEvent "u" "p" 0 "" ""
              AntiAbuseEngine.defaultEngine) "u" 1 60 Hle).
Defined.

(** X24: in a reachable state, for a user whose votes were recorded with
    non-decreasing timestamps, and with the clock at the user's last vote,
    [getVoteCountInWindow] over the configured window length agrees with
    the event count of the user's velocity window. *)
Theorem getVoteCountInWindow_matches_window (e : AntiAbuseEngine.t)
        (u : string) (w : SlidingWindow.t) :
  Reachable e ->
  StronglySorted Z.le (map VoteEvent.timestamp (historyOf u e)) ->
  last (map VoteEvent.timestamp (historyOf u e))
  = Some (AntiAbuseEngine.systemClock e) ->
  AntiAbuseEngine.userVelocityWindows e !! u = Some w ->
  AntiAbuseEngine.getVoteCountInWindow u
    (AntiAbuseEngine.velocityWindowSeconds e) e
  = SlidingWindow.getEventCount w.
Proof.
  intros Hreach Hsorted Hlast Hw.
  pose proof (Reachable_Tracked e Hreach) as Ht.
  pose proof (Reachable_Consistent e Hreach) as Hc.
  pose proof (tracked_window e Ht u) as Hwin. rewrite Hw in Hwin.
  destruct (historyOf u e) as [|ev0 rest] eqn:E; [discriminate|].
  injection Hwin as ->. rewrite getVoteCountInWindow_filter, E.
  unfold SlidingWindow.getEventCount.
  rewrite (feed_sorted _ _ (AntiAbuseEngine.systemClock e));
    [|pose proof (windowSeconds_pos e Hc); lia|exact Hsorted|exact Hlast].
  rewrite <- (filter_map_length VoteEvent.timestamp _ (ev0 :: rest)).
  reflexivity.
Qed.

Lemma getVoteCountInWindow_matches_window_witness :
  Reachable
    (AntiAbuseEngine.advanceClock 5
       (AntiAbuseEngine.recordVoteEvent "u" "q" 5 "" ""
          (AntiAbuseEngine.recordVoteEvent "u" "p" 0 "" ""
             AntiAbuseEngine.defaultEngine)))
  /\ StronglySorted Z.le
       (map VoteEvent.timestamp
          (historyOf "u"
             (AntiAbuseEngine.advanceClock 5
                (AntiAbuseEngine.recordVoteEvent "u" "q" 5 "" ""
                   (AntiAbuseEngine.recordVoteEvent "u" "p" 0 "" ""
                      AntiAbuseEngine.defaultEngine)))))
  /\ last (map VoteEvent.timestamp
             (historyOf "u"
                (AntiAbuseEngine.advanceClock 5
                   (AntiAbuseEngine.recordVoteEvent "u" "q" 5 "" ""
                      (AntiAbuseEngine.recordVoteEvent "u" "p" 0 "" ""
                         AntiAbuseEngine.defaultEngine)))))
     = Some (AntiAbuseEngine.systemClock
               (AntiAbuseEngine.advanceClock 5
                  (AntiAbuseEngine.recordVoteEvent "u" "q" 5 "" ""
                     (AntiAbuseEngine.recordVoteEvent "u" "p" 0 "" ""
                        AntiAbuseEngine.defaultEngine))))
  /\ AntiAbuseEngine.userVelocityWindows
       (AntiAbuseEngine.advanceClock 5
          (AntiAbuseEngine.recordVoteEvent "u" "q" 5 "" ""
             (AntiAbuseEngine.recordVoteEvent "u" "p" 0 "" ""
                AntiAbuseEngine.defaultEngine))) !! "u"%string
     = Some {| SlidingWindow.timestamps := [0; 5];
               SlidingWindow.windowDuration := 60 |}
  /\ AntiAbuseEngine.getVoteCountInWindow "u"
       (AntiAbuseEngine.velocityWindowSeconds
          (AntiAbuseEngine.advanceClock 5
             (AntiAbuseEngine.recordVoteEvent "u" "q" 5 "" ""
                (AntiAbuseEngine.recordVoteEvent "u" "p" 0 "" ""
                   AntiAbuseEngine.defaultEngine))))
       (AntiAbuseEngine.advanceClock 5
          (AntiAbuseEngine.recordVoteEvent "u" "q" 5 "" ""
             (AntiAbuseEngine.recordVoteEvent "u" "p" 0 "" ""
                AntiAbuseEngine.defaultEngine)))
     = SlidingWindow.getEventCount
         {| SlidingWindow.timestamps := [0; 5];
            SlidingWindow.windowDuration := 60 |}.
Proof.
  assert (Hreach : Reachable
                     (AntiAbuseEngine.advanceClock 5
                        (AntiAbuseEngine.recordVoteEvent "u" "q" 5 "" ""
                           (AntiAbuseEngine.recordVoteEvent "u" "p" 0 "" ""
                              AntiAbuseEngine.defaultEngine)))).
  { apply reach_advanceClock. do 2 apply reach_recordVoteEvent.
    apply reach_make; [reflexivity|lia]. }
  assert (Hsorted : StronglySorted Z.le
                      (map VoteEvent.timestamp
                         (historyOf "u"
                            (AntiAbuseEngine.advanceClock 5
                               (AntiAbuseEngine.recordVoteEvent "u" "q" 5 "" ""
                                  (AntiAbuseEngine.recordVoteEvent "u" "p" 0
                                     "" "" AntiAbuseEngine.defaultEngine)))))).
  { vm_compute. repeat constructor; discriminate. }
  assert (Hlast : last (map VoteEvent.timestamp
                          (historyOf "u"
                             (AntiAbuseEngine.advanceClock 5
                                (AntiAbuseEngine.recordVoteEvent "u" "q" 5 ""
                                   ""
                                   (AntiAbuseEngine.recordVoteEvent "u" "p" 0
                                      "" "" AntiAbuseEngine.defaultEngine)))))
                  = Some (AntiAbuseEngine.systemClock
                            (AntiAbuseEngine.advanceClock 5
                               (AntiAbuseEngine.recordVoteEvent "u" "q" 5 "" ""
                                  (AntiAbuseEngine.recordVoteEvent "u" "p" 0
                                     "" "" AntiAbuseEngine.defaultEngine)))))
    by (vm_compute; reflexivity).
  assert (Hw : AntiAbuseEngine.userVelocityWindows
                 (AntiAbuseEngine.advanceClock 5
                    (AntiAbuseEngine.recordVoteEvent "u" "q" 5 "" ""
                       (AntiAbuseEngine.recordVoteEvent "u" "p" 0 "" ""
                          AntiAbuseEngine.defaultEngine))) !! "u"%string
               = Some {| SlidingWindow.timestamps := [0; 5];
                         SlidingWindow.windowDuration := 60 |})
    by (vm_compute; reflexivity).
  split; [exact Hreach|]. split; [exact Hsorted|]. split; [exact Hlast|].
  split; [exact Hw|].
  apply (getVoteCountInWindow_matches_window _ "u" _ Hreach Hsorted Hlast Hw).
Defined.

(** ** Communities as connected components *)

(** X25: in a graph built by [addVote] calls, a reported community is a
    connected component of the pairs that share at least one and at least
    [minCoVotes] co-votes: its members are exactly the users that a chain
    of such pairs connects to its first member. *)
Theorem detectCommunities_connected_components
        (votes : list (string * string)) (m : Z) (c : list string) :
  c ∈ CoVotingGraph.detectCommunities m (CoVotingGraph.build votes) ->
  exists s rest,
    c = s :: rest
    /\ forall x, x ∈ c <-> rtc (coLinked (CoVotingGraph.build votes) m) s x.
Proof.
  intros Hc. destruct (community_connected votes m c Hc)
    as (s & rest & -> & Hreach).
  exists s, rest. split; [reflexivity|].
  intros x. split; [apply Hreach|].
  apply (community_closed_rtc votes m _ s x Hc). left.
Qed.

Lemma detectCommunities_connected_components_witness :
  ["b"; "a"]%string
  ∈ CoVotingGraph.detectCommunities 1
      (CoVotingGraph.build [("a", "p"); ("b", "p")]%string)
  /\ exists s rest,
       ["b"; "a"]%string = s :: rest
       /\ forall x,
            x ∈ ["b"; "a"]%string <->
            rtc (coLinked
                   (CoVotingGraph.build [("a", "p"); ("b", "p")]%string) 1)
                s x.
Proof.
  assert (Hc : ["b"; "a"]%string
               ∈ CoVotingGraph.detectCommunities 1
                   (CoVotingGraph.build [("a", "p"); ("b", "p")]%string))
    by (vm_compute; left).
  split; [exact Hc|].
  apply (detectCommunities_connected_components
           [("a", "p"); ("b", "p")]%string 1 ["b"; "a"]%string Hc).
Defined.

(** X26: recording further votes never splits a reported community: every
    community reported for a sequence of [addVote] calls is contained in
    one community reported after any further calls, at the same
    threshold. *)
Theorem detectCommunities_never_splits
        (votes more : list (string * string)) (m : Z) (c : list string) :
  c ∈ CoVotingGraph.detectCommunities m (CoVotingGraph.build votes) ->
  exists c',
    c' ∈ CoVotingGraph.detectCommunities m
           (CoVotingGraph.build (votes ++ more))
    /\ forall x, x ∈ c -> x ∈ c'.
Proof.
  intros Hc.
  destruct (community_connected votes m c Hc) as (s & rest & -> & Hreach).
  destruct (community_partner votes m (s :: rest) s Hc)
    as (y & _ & _ & Hpos & Hm); [left|].
  assert (Hsy : coLinked (CoVotingGraph.build (votes ++ more)) m s y)
    by (apply coLinked_mono; split; assumption).
  destruct (community_of_linked (votes ++ more) m s y Hsy)
    as (c' & Hc' & Hs & _).
  exists c'. split; [exact Hc'|].
  intros x Hx.
  apply (community_closed_rtc (votes ++ more) m c' s x Hc' Hs).
  eapply rtc_subrel; [|apply Hreach, Hx].
  intros a b. apply coLinked_mono.
Qed.

Lemma detectCommunities_never_splits_witness :
  ["b"; "a"]%string
  ∈ CoVotingGraph.detectCommunities 1
      (CoVotingGraph.build [("a", "p"); ("b", "p")]%string)
  /\ exists c',
       c' ∈ CoVotingGraph.detectCommunities 1
              (CoVotingGraph.build
                 ([("a", "p"); ("b", "p")]%string ++ [("c", "p")]%string))
       /\ forall x, x ∈ ["b"; "a"]%string -> x ∈ c'.
Proof.
  assert (Hc : ["b"; "a"]%string
               ∈ CoVotingGraph.detectCommunities 1
                   (CoVotingGraph.build [("a", "p"); ("b", "p")]%string))
    by (vm_compute; left).
  split; [exact Hc|].
  apply (detectCommunities_never_splits
           [("a", "p"); ("b", "p")]%string [("c", "p")]%string 1
           ["b"; "a"]%string Hc).
Defined.

(** ** Credibility queries *)

Section CredibilityQueries.

Import AntiAbuseEngine.

Local Open Scope Q_scope.

Lemma touch_lookup {V : Type} (k : string) (d : V) (m : gmap string V) :
  HMap.touch k d m !! k = Some (HMap.at_ k d m).
Proof.
  unfold HMap.touch, HMap.at_. destruct (m !! k) as [v|] eqn:E; simpl.
  - exact E.
  - apply lookup_insert_eq.
Qed.


Lemma updateBotDetection_suspiciousUsers_other u e k :
  k <> u ->
  suspiciousUsers (updateBotDetection u e) !! k = suspiciousUsers e !! k.
Proof.
  intros Hne. unfold updateBotDetection.
  repeat match goal with
         | |- context [if ?b then _ else _] => destruct b
         end; simpl; try reflexivity;
    apply lookup_insert_ne; congruence.
Qed.

Lemma recordVoteEvent_suspiciousUsers_other u p ts ip dev e k :
  k <> u ->
  suspiciousUsers (recordVoteEvent u p ts ip dev e) !! k
  = suspiciousUsers e !! k.
Proof.
  intros Hne. unfold recordVoteEvent.
  rewrite updateBotDetection_suspiciousUsers_other by exact Hne.
  frame.
Qed.

End CredibilityQueries.

(** X27: a trust-score query for a user without a cached score computes
    and caches the score, and on the way creates the user's history entry
    and bot-detection result: a user that never voted is from then on a
    tracked user with an empty history.  The recorded events are not
    changed, and a repeated query returns the same score and leaves the
    state as it is. *)
Theorem getUserTrustScore_tracks_user (e : AntiAbuseEngine.t) (u : string) :
  AntiAbuseEngine.userCredibilityScores e !! u = None ->
  AntiAbuseEngine.userVoteHistory (AntiAbuseEngine.getUserTrustScore u e).2
    !! u = Some (historyOf u e)
  /\ (forall k, historyOf k (AntiAbuseEngine.getUserTrustScore u e).2
                = historyOf k e)
  /\ is_Some (AntiAbuseEngine.botDetectionCache
                (AntiAbuseEngine.getUserTrustScore u e).2 !! u)
  /\ (exists score,
         AntiAbuseEngine.userCredibilityScores
           (AntiAbuseEngine.getUserTrustScore u e).2 !! u = Some score
         /\ UserCredibilityScore.trustScore score
            = (AntiAbuseEngine.getUserTrustScore u e).1)
  /\ AntiAbuseEngine.getUserTrustScore u
       (AntiAbuseEngine.getUserTrustScore u e).2
     = AntiAbuseEngine.getUserTrustScore u e.
Proof.
  intros Hnone.
  assert (Hget : AntiAbuseEngine.getUserTrustScore u e
                 = (UserCredibilityScore.trustScore
                      (AntiAbuseEngine.calculateUserCredibility u e).1,
                    (AntiAbuseEngine.calculateUserCredibility u e).2)).
  { unfold AntiAbuseEngine.getUserTrustScore. rewrite Hnone.
    destruct (AntiAbuseEngine.calculateUserCredibility u e). reflexivity. }
  pose proof (calculateUserCredibility_cached u e) as Hcached.
  rewrite Hget. cbn [fst snd].
  split; [|split; [|split; [|split]]].
  - rewrite calculateUserCredibility_unfold. cbn.
    rewrite touch_lookup. f_equal. apply detectBot_userVoteHistory.
  - intros k. rewrite calculateUserCredibility_unfold. cbn.
    unfold historyOf. cbn. rewrite at_touch. apply detectBot_userVoteHistory.
  - rewrite calculateUserCredibility_unfold. cbn. apply detectBot_caches.
  - eexists. split; [exact Hcached|reflexivity].
  - unfold AntiAbuseEngine.getUserTrustScore at 1. rewrite Hcached.
    reflexivity.
Qed.

Lemma getUserTrustScore_tracks_user_witness :
  AntiAbuseEngine.userCredibilityScores AntiAbuseEngine.defaultEngine
    !! "ghost"%string = None
  /\ AntiAbuseEngine.userVoteHistory
       (AntiAbuseEngine.getUserTrustScore "ghost"
          AntiAbuseEngine.defaultEngine).2 !! "ghost"%string
     = Some (historyOf "ghost" AntiAbuseEngine.defaultEngine).
Proof.
  assert (Hnone : AntiAbuseEngine.userCredibilityScores
                    AntiAbuseEngine.defaultEngine !! "ghost"%string = None)
    by reflexivity.
  split; [exact Hnone|].
  apply (getUserTrustScore_tracks_user AntiAbuseEngine.defaultEngine "ghost"
           Hnone).
Defined.



(** X29: recording a vote of one user leaves what the engine holds for
    every other user as it is: history, velocity window, device and IP
    sets, cached bot-detection result, cached credibility score and
    suspicious flag. *)
Theorem recordVoteEvent_other_users (e : AntiAbuseEngine.t)
        (u p : string) (ts : Z) (ip dev : string) (k : string) :
  k <> u ->
  historyOf k (AntiAbuseEngine.recordVoteEvent u p ts ip dev e)
  = historyOf k e
  /\ AntiAbuseEngine.userVelocityWindows
       (AntiAbuseEngine.recordVoteEvent u p ts ip dev e) !! k
     = AntiAbuseEngine.userVelocityWindows e !! k
  /\ devicesOf k (AntiAbuseEngine.recordVoteEvent u p ts ip dev e)
     = devicesOf k e
  /\ ipsOf k (AntiAbuseEngine.recordVoteEvent u p ts ip dev e) = ipsOf k e
  /\ AntiAbuseEngine.botDetectionCache
       (AntiAbuseEngine.recordVoteEvent u p ts ip dev e) !! k
     = AntiAbuseEngine.botDetectionCache e !! k
  /\ AntiAbuseEngine.userCredibilityScores
       (AntiAbuseEngine.recordVoteEvent u p ts ip dev e) !! k
     = AntiAbuseEngine.userCredibilityScores e !! k
  /\ AntiAbuseEngine.isUserSuspicious k
       (AntiAbuseEngine.recordVoteEvent u p ts ip dev e)
     = AntiAbuseEngine.isUserSuspicious k e.
Proof.
  intros Hne.
  split; [rewrite recordVoteEvent_historyOf, decide_False by exact Hne;
          reflexivity|].
  split; [rewrite recordVoteEvent_userVelocityWindows;
          apply lookup_insert_ne; congruence|].
  split; [rewrite recordVoteEvent_devicesOf, decide_False by tauto;
          reflexivity|].
  split; [rewrite recordVoteEvent_ipsOf, decide_False by tauto;
          reflexivity|].
  split.
  { destruct (recordVoteEvent_mid u p ts ip dev e) as (mid & -> & _ & Hc).
    rewrite updateBotDetection_botDetectionCache, Hc.
    apply lookup_insert_ne. congruence. }
  split; [rewrite recordVoteEvent_userCredibilityScores; reflexivity|].
  unfold AntiAbuseEngine.isUserSuspicious.
  rewrite recordVoteEvent_suspiciousUsers_other by exact Hne. reflexivity.
Qed.

Lemma recordVoteEvent_other_users_witness :
  "v"%string <> "u"%string
  /\ historyOf "v"
       (AntiAbuseEngine.recordVoteEvent "u" "p" 5 "ip" "dev"
         (AntiAbuseEngine.recordVoteEvent "v" "q" 0 "ip2" "dev2"
            AntiAbuseEngine.defaultEngine))
     = historyOf "v"
         (AntiAbuseEngine.recordVoteEvent "v" "q" 0 "ip2" "dev2"
            AntiAbuseEngine.defaultEngine)
  /\ AntiAbuseEngine.userVelocityWindows
       (AntiAbuseEngine.recordVoteEvent "u" "p" 5 "ip" "dev"
         (AntiAbuseEngine.recordVoteEvent "v" "q" 0 "ip2" "dev2"
            AntiAbuseEngine.defaultEngine)) !! "v"%string
     = AntiAbuseEngine.userVelocityWindows
         (AntiAbuseEngine.recordVoteEvent "v" "q" 0 "ip2" "dev2"
            AntiAbuseEngine.defaultEngine) !! "v"%string
  /\ devicesOf "v"
       (AntiAbuseEngine.recordVoteEvent "u" "p" 5 "ip" "dev"
         (AntiAbuseEngine.recordVoteEvent "v" "q" 0 "ip2" "dev2"
            AntiAbuseEngine.defaultEngine))
     = devicesOf "v"
         (AntiAbuseEngine.recordVoteEvent "v" "q" 0 "ip2" "dev2"
            AntiAbuseEngine.defaultEngine)
  /\ ipsOf "v"
       (AntiAbuseEngine.recordVoteEvent "u" "p" 5 "ip" "dev"
         (AntiAbuseEngine.recordVoteEvent "v" "q" 0 "ip2" "dev2"
            AntiAbuseEngine.defaultEngine))
     = ipsOf "v"
         (AntiAbuseEngine.recordVoteEvent "v" "q" 0 "ip2" "dev2"
            AntiAbuseEngine.defaultEngine)
  /\ AntiAbuseEngine.botDetectionCache
       (AntiAbuseEngine.recordVoteEvent "u" "p" 5 "ip" "dev"
         (AntiAbuseEngine.recordVoteEvent "v" "q" 0 "ip2" "dev2"
            AntiAbuseEngine.defaultEngine)) !! "v"%string
     = AntiAbuseEngine.botDetectionCache
         (AntiAbuseEngine.recordVoteEvent "v" "q" 0 "ip2" "dev2"
            AntiAbuseEngine.defaultEngine) !! "v"%string
  /\ AntiAbuseEngine.userCredibilityScores
       (AntiAbuseEngine.recordVoteEvent "u" "p" 5 "ip" "dev"
         (AntiAbuseEngine.recordVoteEvent "v" "q" 0 "ip2" "dev2"
            AntiAbuseEngine.defaultEngine)) !! "v"%string
     = AntiAbuseEngine.userCredibilityScores
         (AntiAbuseEngine.recordVoteEvent "v" "q" 0 "ip2" "dev2"
            AntiAbuseEngine.defaultEngine) !! "v"%string
  /\ AntiAbuseEngine.isUserSuspicious "v"
       (AntiAbuseEngine.recordVoteEvent "u" "p" 5 "ip" "dev"
         (AntiAbuseEngine.recordVoteEvent "v" "q" 0 "ip2" "dev2"
            AntiAbuseEngine.defaultEngine))
     = AntiAbuseEngine.isUserSuspicious "v"
         (AntiAbuseEngine.recordVoteEvent "v" "q" 0 "ip2" "dev2"
            AntiAbuseEngine.defaultEngine).
Proof.
  assert (Hne : "v"%string <> "u"%string) by discriminate.
  split; [exact Hne|].
  apply (recordVoteEvent_other_users
           (AntiAbuseEngine.recordVoteEvent "v" "q" 0 "ip2" "dev2"
            AntiAbuseEngine.defaultEngine)
           "u" "p" 5 "ip" "dev" "v" Hne).
Defined.

(** ** Shape of the stored alerts *)

Section AlertShape.

Import AntiAbuseEngine.

Local Open Scope Q_scope.











End AlertShape.



(** ** Life cycle of a cached credibility score *)

Section ScoreLifeCycle.

Import AntiAbuseEngine.

Lemma fold_scanUser_userCredibilityScores users acc :
  userCredibilityScores (fold_left scanUser users acc).2
  = userCredibilityScores acc.2.
Proof.
  revert acc. induction users as [|k users IH]; intros acc; simpl;
    [reflexivity|].
  rewrite IH. unfold scanUser.
  pose proof (detectBot_userCredibilityScores k acc.2) as H.
  destruct (detectBot k acc.2) as [result e1]. exact H.
Qed.

Lemma detectAllBots_userCredibilityScores e :
  userCredibilityScores (detectAllBots e).2 = userCredibilityScores e.
Proof.
  rewrite detectAllBots_unfold. cbn [snd].
  apply (fold_scanUser_userCredibilityScores _ ([], e)).
Qed.

Lemma updateCollusionDetection_userCredibilityScores e :
  userCredibilityScores (updateCollusionDetection e) = userCredibilityScores e.
Proof.
  destruct (updateCollusionDetection_update e) as (s & a & n & ->).
  reflexivity.
Qed.

(** An operation that does not rescore [u] leaves the cached score of [u]
    as it is, if there is one. *)
Lemma run_keeps_score u op e s :
  userCredibilityScores e !! u = Some s -> ~ rescores u op ->
  userCredibilityScores (run op e) !! u = Some s.
Proof.
  intros Hcached Hop.
  destruct op as [k p ts ip dev|k| | | |k| |k|k reason|alertId|vt dt ct bt
                  | |k|now]; cbn [run rescores] in *.
  - rewrite recordVoteEvent_userCredibilityScores. exact Hcached.
  - rewrite detectBot_userCredibilityScores. exact Hcached.
  - rewrite detectAllBots_userCredibilityScores. exact Hcached.
  - unfold detectCollusion. cbn [snd].
    rewrite updateCollusionDetection_userCredibilityScores. exact Hcached.
  - unfold performSecurityScan, detectCollusion. cbn [snd].
    rewrite updateCollusionDetection_userCredibilityScores,
      detectAllBots_userCredibilityScores. exact Hcached.
  - rewrite calculateUserCredibility_other by exact Hop. exact Hcached.
  - exfalso. apply Hop. exact I.
  - unfold getUserTrustScore.
    destruct (userCredibilityScores e !! k) as [cached|] eqn:E;
      [exact Hcached|].
    assert (Hne : k <> u) by congruence.
    pose proof (calculateUserCredibility_other k u e Hne) as H.
    destruct (calculateUserCredibility k e). cbn [snd] in *.
    rewrite H. exact Hcached.
  - exact Hcached.
  - exact Hcached.
  - exact Hcached.
  - exfalso. apply Hop. exact I.
  - simpl. rewrite lookup_delete_ne by exact Hop. exact Hcached.
  - exact Hcached.
Qed.

Lemma detectBot_likelihood_ext u e e' :
  userVelocityWindows e' !! u = userVelocityWindows e !! u ->
  devicesOf u e' = devicesOf u e -> ipsOf u e' = ipsOf u e ->
  botDetectionCache e' !! u = botDetectionCache e !! u ->
  velocityThreshold e' = velocityThreshold e ->
  deltaThresholdMs e' = deltaThresholdMs e ->
  BotDetectionResult.botLikelihood (detectBot u e').1
  = BotDetectionResult.botLikelihood (detectBot u e).1.
Proof.
  intros Hw Hd Hi Hc Hvt Hdt. unfold detectBot. rewrite Hc.
  destruct (botDetectionCache e !! u) as [cached|]; [reflexivity|].
  cbn [fst]. rewrite !updateBotDetection_botDetectionCache, !at_insert_eq.
  rewrite !botLikelihood_unfold.
  unfold calculateVotingVelocity, calculateAvgInterVoteGap.
  unfold devicesOf, ipsOf in Hd, Hi.
  rewrite Hw, Hd, Hi, Hvt, Hdt. reflexivity.
Qed.

Lemma detectBot_devicesOf u k e :
  devicesOf k (detectBot u e).2 = devicesOf k e.
Proof. apply (sameTracking_detectBot u e). Qed.

(** The score that [calculateUserCredibility] computes for [u] depends on
    the state through what it holds for [u], the collusion cache and two
    thresholds. *)
Lemma calculateUserCredibility_ext u e e' :
  historyOf u e' = historyOf u e ->
  userVelocityWindows e' !! u = userVelocityWindows e !! u ->
  devicesOf u e' = devicesOf u e -> ipsOf u e' = ipsOf u e ->
  botDetectionCache e' !! u = botDetectionCache e !! u ->
  collusionDetectionCache e' = collusionDetectionCache e ->
  velocityThreshold e' = velocityThreshold e ->
  deltaThresholdMs e' = deltaThresholdMs e ->
  (calculateUserCredibility u e').1 = (calculateUserCredibility u e).1.
Proof.
  intros Hh Hw Hd Hi Hc Hcol Hvt Hdt.
  rewrite !calculateUserCredibility_unfold. cbn [fst].
  pose proof (detectBot_likelihood_ext u e e' Hw Hd Hi Hc Hvt Hdt) as Hlik.
  pose proof (detectBot_userVoteHistory u e u) as Hh1.
  pose proof (detectBot_userVoteHistory u e' u) as Hh2.
  pose proof (detectBot_devicesOf u u e) as Hd1.
  pose proof (detectBot_devicesOf u u e') as Hd2.
  unfold historyOf in Hh. unfold devicesOf in Hd, Hd1, Hd2.
  rewrite Hh1, Hh2, Hd1, Hd2, Hh, Hd, Hlik,
    !detectBot_collusionDetectionCache, Hcol.
  reflexivity.
Qed.

Lemma calculateUserCredibility_keeps_inputs k u e :
  k <> u ->
  (calculateUserCredibility u (calculateUserCredibility k e).2).1
  = (calculateUserCredibility u e).1.
Proof.
  intros Hne.
  destruct (sameTracking_calculateUserCredibility k e)
    as (Hh & Hw & Hd & Hi & _).
  apply calculateUserCredibility_ext.
  - apply Hh.
  - rewrite Hw. reflexivity.
  - apply Hd.
  - apply Hi.
  - rewrite calculateUserCredibility_unfold. cbn.
    unfold detectBot. destruct (botDetectionCache e !! k); cbn [snd];
      [reflexivity|].
    rewrite updateBotDetection_botDetectionCache.
    apply lookup_insert_ne. exact Hne.
  - rewrite calculateUserCredibility_unfold. cbn.
    apply detectBot_collusionDetectionCache.
  - rewrite calculateUserCredibility_unfold. cbn.
    unfold detectBot. destruct (botDetectionCache e !! k); cbn [snd];
      [reflexivity|apply updateBotDetection_velocityThreshold].
  - rewrite calculateUserCredibility_unfold. cbn.
    unfold detectBot. destruct (botDetectionCache e !! k); cbn [snd];
      [reflexivity|apply updateBotDetection_deltaThresholdMs].
Qed.

Lemma fold_calculateUserCredibility_score users u e :
  NoDup users -> u ∈ users ->
  userCredibilityScores
    (fold_left (fun e k => (calculateUserCredibility k e).2) users e) !! u
  = Some (calculateUserCredibility u e).1.
Proof.
  revert e. induction users as [|k users IH]; intros e Hnd Hin;
    [inversion Hin|].
  apply NoDup_cons in Hnd as [Hk Hnd]. cbn [fold_left].
  destruct (decide (k = u)) as [->|Hne].
  - rewrite fold_calculateUserCredibility_other by exact Hk.
    apply calculateUserCredibility_cached.
  - apply elem_of_cons in Hin as [->|Hin]; [contradiction|].
    rewrite (IH _ Hnd Hin).
    rewrite calculateUserCredibility_keeps_inputs by exact Hne.
    reflexivity.
Qed.

(** The bulk recompute stores, for every user with a history entry, the
    score computed on the state after the collusion update, and leaves
    the scores of the other users. *)
Lemma calculateAllCredibilityScores_score u e :
  userCredibilityScores (calculateAllCredibilityScores e) !! u
  = if decide (is_Some (userVoteHistory e !! u))
    then Some (calculateUserCredibility u (updateCollusionDetection e)).1
    else userCredibilityScores e !! u.
Proof.
  unfold calculateAllCredibilityScores.
  assert (Hhist : userVoteHistory (updateCollusionDetection e)
                  = userVoteHistory e).
  { destruct (updateCollusionDetection_update e) as (s & a & n & ->).
    reflexivity. }
  rewrite Hhist.
  assert (Hnd : NoDup (map fst (map_to_list (userVoteHistory e))))
    by apply NoDup_fst_map_to_list.
  assert (Hkeys : forall k,
             k ∈ map fst (map_to_list (userVoteHistory e))
             <-> is_Some (userVoteHistory e !! k)).
  { intros k. split.
    - intros Hk. apply list_elem_of_fmap in Hk as ([k' h] & -> & Hkh).
      apply elem_of_map_to_list in Hkh. simpl. eauto.
    - intros [h Hh]. apply list_elem_of_fmap. exists (k, h).
      split; [reflexivity|]. apply elem_of_map_to_list. exact Hh. }
  destruct (decide (is_Some (userVoteHistory e !! u))) as [Hu|Hu].
  - apply (fold_calculateUserCredibility_score _ u _ Hnd).
    apply Hkeys, Hu.
  - rewrite (fold_calculateUserCredibility_other _ u)
      by (intros Hin; apply Hu, Hkeys, Hin).
    rewrite updateCollusionDetection_userCredibilityScores. reflexivity.
Qed.

End ScoreLifeCycle.

(** C9 (amended): for every user whose credibility score is cached,
    recording a new vote event does not invalidate the cached score:
    [recordVoteEvent] leaves the credibility cache unchanged, and
    [getUserTrustScore] returns the cached trust score and changes
    nothing, before and after the event.  A cached score is replaced or
    erased only by the score computation for that user, by the bulk
    recompute and by the clearing operations: every other operation of
    the engine leaves it in place; [calculateUserCredibility] stores its
    result; [calculateAllCredibilityScores] stores, for a user with a
    history entry, the score computed on the state after the collusion
    update, and leaves the score of a user without one; [clearUser] for
    the user and [clearAll] erase it. *)
Theorem recordVoteEvent_keeps_cached_score
        (e : AntiAbuseEngine.t) (u p : string) (ts : Z) (ip dev : string)
        (s : UserCredibilityScore.t) :
  AntiAbuseEngine.userCredibilityScores e !! u = Some s ->
  let e' := AntiAbuseEngine.recordVoteEvent u p ts ip dev e in
  AntiAbuseEngine.userCredibilityScores e'
  = AntiAbuseEngine.userCredibilityScores e
  /\ AntiAbuseEngine.getUserTrustScore u e'
     = (UserCredibilityScore.trustScore s, e')
  /\ AntiAbuseEngine.getUserTrustScore u e
     = (UserCredibilityScore.trustScore s, e)
  /\ (forall op,
         ~ rescores u op ->
         AntiAbuseEngine.userCredibilityScores (run op e) !! u = Some s)
  /\ AntiAbuseEngine.userCredibilityScores
       (AntiAbuseEngine.calculateUserCredibility u e).2 !! u
     = Some (AntiAbuseEngine.calculateUserCredibility u e).1
  /\ AntiAbuseEngine.userCredibilityScores
       (AntiAbuseEngine.calculateAllCredibilityScores e) !! u
     = Some (if decide (is_Some (AntiAbuseEngine.userVoteHistory e !! u))
             then (AntiAbuseEngine.calculateUserCredibility u
                     (AntiAbuseEngine.updateCollusionDetection e)).1
             else s)
  /\ AntiAbuseEngine.userCredibilityScores
       (AntiAbuseEngine.clearUser u e) !! u = None
  /\ AntiAbuseEngine.userCredibilityScores
       (AntiAbuseEngine.clearAll e) !! u = None.
Proof.
  intros Hcached e'.
  assert (Hcache : AntiAbuseEngine.userCredibilityScores e'
                   = AntiAbuseEngine.userCredibilityScores e)
    by apply recordVoteEvent_userCredibilityScores.
  split; [exact Hcache|].
  split.
  { unfold AntiAbuseEngine.getUserTrustScore. rewrite Hcache, Hcached.
    reflexivity. }
  split.
  { unfold AntiAbuseEngine.getUserTrustScore. rewrite Hcached. reflexivity. }
  split; [intros op Hop; apply run_keeps_score; assumption|].
  split; [apply calculateUserCredibility_cached|].
  split.
  { rewrite calculateAllCredibilityScores_score.
    destruct (decide _); [reflexivity|exact Hcached]. }
  split; [simpl; apply lookup_delete_eq|].
  simpl. apply lookup_empty.
Qed.

Lemma recordVoteEvent_keeps_cached_score_witness :
  AntiAbuseEngine.userCredibilityScores
    (AntiAbuseEngine.getUserTrustScore "u" AntiAbuseEngine.defaultEngine).2
    !! "u"%string
  = Some (AntiAbuseEngine.calculateUserCredibility "u"
            AntiAbuseEngine.defaultEngine).1
  /\ AntiAbuseEngine.userCredibilityScores
       (AntiAbuseEngine.recordVoteEvent "u" "p" 100 "ip" "dev"
          (AntiAbuseEngine.getUserTrustScore "u"
             AntiAbuseEngine.defaultEngine).2)
     = AntiAbuseEngine.userCredibilityScores
         (AntiAbuseEngine.getUserTrustScore "u"
            AntiAbuseEngine.defaultEngine).2.
Proof.
  assert (Hcached :
            AntiAbuseEngine.userCredibilityScores
              (AntiAbuseEngine.getUserTrustScore "u"
                 AntiAbuseEngine.defaultEngine).2 !! "u"%string
            = Some (AntiAbuseEngine.calculateUserCredibility "u"
                      AntiAbuseEngine.defaultEngine).1)
    by (vm_compute; reflexivity).
  split; [exact Hcached|].
  apply (recordVoteEvent_keeps_cached_score
           (AntiAbuseEngine.getUserTrustScore "u"
              AntiAbuseEngine.defaultEngine).2
           "u" "p" 100 "ip" "dev" _ Hcached).
Defined.

(** ** Reproducibility of the reported communities *)

Section Reproducible.

Import CoVotingGraph.

Lemma coLinked_ext votes1 votes2 m x y :
  (forall a b, getCoVoteCount a b (build votes1)
               = getCoVoteCount a b (build votes2)) ->
  coLinked (build votes1) m x y -> coLinked (build votes2) m x y.
Proof. intros Heq. unfold coLinked. rewrite (Heq x y). tauto. Qed.

Lemma rtc_coLinked_sym votes m x y :
  rtc (coLinked (build votes) m) x y -> rtc (coLinked (build votes) m) y x.
Proof.
  induction 1 as [x|x x' y Hstep _ IH]; [apply rtc_refl|].
  eapply rtc_r; [exact IH|]. apply coLinked_sym, Hstep.
Qed.

(** Graphs with the same co-vote counts report communities with the same
    members. *)
Lemma community_same_members votes1 votes2 m c :
  (forall a b, getCoVoteCount a b (build votes1)
               = getCoVoteCount a b (build votes2)) ->
  c ∈ detectCommunities m (build votes1) ->
  exists c',
    c' ∈ detectCommunities m (build votes2)
    /\ forall x, x ∈ c <-> x ∈ c'.
Proof.
  intros Heq Hc.
  assert (Heq' : forall a b, getCoVoteCount a b (build votes2)
                             = getCoVoteCount a b (build votes1))
    by (intros a b; symmetry; apply Heq).
  destruct (community_connected votes1 m c Hc) as (s & rest & -> & Hreach).
  destruct (community_partner votes1 m (s :: rest) s Hc)
    as (y & _ & _ & Hpos & Hm); [left|].
  assert (Hsy : coLinked (build votes2) m s y).
  { apply (coLinked_ext votes1 votes2 m s y Heq). split; assumption. }
  destruct (community_of_linked votes2 m s y Hsy) as (c' & Hc' & Hs & _).
  exists c'. split; [exact Hc'|].
  intros x. split.
  - intros Hx. apply (community_closed_rtc votes2 m c' s x Hc' Hs).
    eapply rtc_subrel; [|apply Hreach, Hx].
    intros a b. apply coLinked_ext, Heq.
  - intros Hx.
    destruct (community_connected votes2 m c' Hc')
      as (s' & rest' & -> & Hreach').
    apply (community_closed_rtc votes1 m (s :: rest) s x Hc); [left|].
    eapply rtc_subrel; [intros a b; apply coLinked_ext, Heq'|].
    eapply rtc_trans;
      [apply rtc_coLinked_sym, Hreach', Hs|apply Hreach', Hx].
Qed.

End Reproducible.

(** C5 (amended): what [detectCommunities] reports is reproducible for
    the same graph state as far as membership goes.  For two graphs built
    by [addVote] calls that hold the same co-vote count for every pair of
    users, whatever the order of the calls, every community reported for
    one has a community reported for the other with exactly the same
    members; the traversal returns; no user is reported twice; and the
    reported communities are not arbitrary: every two users that share at
    least one and at least [minCoVotes] co-votes are reported together.
    The order of the communities and of their members is the iteration
    order of the containers and is not part of what is reproducible. *)
Theorem detectCommunities_same_partition
        (votes1 votes2 : list (string * string)) (m : Z) :
  (forall x y,
      CoVotingGraph.getCoVoteCount x y (CoVotingGraph.build votes1)
      = CoVotingGraph.getCoVoteCount x y (CoVotingGraph.build votes2)) ->
  (forall c,
      c ∈ CoVotingGraph.detectCommunities m (CoVotingGraph.build votes1) ->
      exists c',
        c' ∈ CoVotingGraph.detectCommunities m (CoVotingGraph.build votes2)
        /\ forall x, x ∈ c <-> x ∈ c')
  /\ (forall c',
         c' ∈ CoVotingGraph.detectCommunities m (CoVotingGraph.build votes2) ->
         exists c,
           c ∈ CoVotingGraph.detectCommunities m (CoVotingGraph.build votes1)
           /\ forall x, x ∈ c' <-> x ∈ c)
  /\ CoVotingGraph.detectCommunitiesOpt m (CoVotingGraph.build votes1)
     = Some (CoVotingGraph.detectCommunities m (CoVotingGraph.build votes1))
  /\ NoDup (concat (CoVotingGraph.detectCommunities m
                      (CoVotingGraph.build votes1)))
  /\ (forall x y,
         0 < CoVotingGraph.getCoVoteCount x y (CoVotingGraph.build votes1) ->
         m <= CoVotingGraph.getCoVoteCount x y (CoVotingGraph.build votes1) ->
         exists c,
           c ∈ CoVotingGraph.detectCommunities m (CoVotingGraph.build votes1)
           /\ x ∈ c /\ y ∈ c).
Proof.
  intros Heq.
  split; [intros c; apply community_same_members, Heq|].
  split.
  { intros c'. apply community_same_members.
    intros a b. symmetry. apply Heq. }
  split; [apply detectCommunities_total|].
  split; [apply detectCommunities_concat_NoDup|].
  intros x y Hpos Hm. apply community_of_linked. split; assumption.
Qed.

Lemma detectCommunities_same_partition_witness :
  (forall x y,
      CoVotingGraph.getCoVoteCount x y
        (CoVotingGraph.build [("a", "p"); ("b", "p")]%string)
      = CoVotingGraph.getCoVoteCount x y
          (CoVotingGraph.build [("b", "p"); ("a", "p")]%string))
  /\ (forall c,
         c ∈ CoVotingGraph.detectCommunities 1
               (CoVotingGraph.build [("a", "p"); ("b", "p")]%string) ->
         exists c',
           c' ∈ CoVotingGraph.detectCommunities 1
                  (CoVotingGraph.build [("b", "p"); ("a", "p")]%string)
           /\ forall x, x ∈ c <-> x ∈ c').
Proof.
  assert (Heq : forall x y,
             CoVotingGraph.getCoVoteCount x y
               (CoVotingGraph.build [("a", "p"); ("b", "p")]%string)
             = CoVotingGraph.getCoVoteCount x y
                 (CoVotingGraph.build [("b", "p"); ("a", "p")]%string))
    by apply swapped_votes_same_counts.
  split; [exact Heq|].
  apply (detectCommunities_same_partition
           [("a", "p"); ("b", "p")]%string [("b", "p"); ("a", "p")]%string
           1 Heq).
Defined.
